(** * ORSF: the Open Racing Setup Format, C++ implementation

    A shallow embedding of the core of the C++ library (unit conversion,
    lookup tables, transforms, field-path addressing, the mapping engine and
    the validator) and the properties its specification states about it.

    Layout: the embedding first, one section per source file
    ([utils.hpp]/[utils.cpp], [core.hpp], [mapping.hpp]/[mapping.cpp],
    [validator.hpp]/[validator.cpp]), then the theorems.

    Conventions of the embedding:
    - a C++ [double] is a type [D] with the operations of class [Double];
      the code is written once over that interface and read at two
      instances, exact rationals ([Q], where algebraic laws are stated) and
      IEEE binary64 ([float], where concrete runs are evaluated);
    - [std::optional<T>] is [option T], [std::vector<T>] is [list T],
      [std::map<std::string, double>] is a key-sorted association list;
    - a function that can [throw] returns in [except]; the validator, which
      appends to a vector passed by reference, runs in a state-and-exception
      monad over that vector. *)

From Stdlib Require Import List String Ascii ZArith QArith Qabs Qround Bool.
From Stdlib Require Import Lia Lqa Floats Permutation Sorted.
From Stdlib Require Import DecimalString DecimalNat DecimalFacts.
Import ListNotations.

Set Warnings "-inexact-float,-register-all".
Local Open Scope list_scope.
Local Open Scope string_scope.

(* ------------------------------------------------------------------ *)
(** ** Exceptions *)

(** The two exception classes the code can raise. *)
Inductive exception : Type :=
| runtime_error (what : string)
| bad_optional_access.

Inductive except (A : Type) : Type :=
| Ok (a : A)
| Throw (e : exception).
Arguments Ok {A} a.
Arguments Throw {A} e.

Definition except_bind {A B} (m : except A) (k : A -> except B) : except B :=
  match m with
  | Ok a => k a
  | Throw e => Throw e
  end.

Declare Scope except_scope.
Delimit Scope except_scope with except.
Notation "x <- m ;; k" := (except_bind m (fun x => k))
  (at level 61, m at next level, right associativity) : except_scope.

(* ------------------------------------------------------------------ *)
(** ** The [double] interface *)

Class Double (D : Type) : Type := {
  dlit : Q -> D;                 (* a decimal literal of the source text *)
  dint : Z -> D;                 (* static_cast<double>(int) *)
  dadd : D -> D -> D;
  dsub : D -> D -> D;
  dmul : D -> D -> D;
  ddiv : D -> D -> D;
  dneg : D -> D;
  dabs : D -> D;                 (* std::abs *)
  dltb : D -> D -> bool;         (* a < b *)
  dleb : D -> D -> bool;         (* a <= b *)
  d_to_string : D -> string;     (* std::to_string(double) *)
  d_put : D -> string            (* operator<<(std::ostream&, double) *)
}.

Declare Scope double_scope.
Delimit Scope double_scope with D.
Notation "x + y" := (dadd x y) : double_scope.
Notation "x - y" := (dsub x y) : double_scope.
Notation "x * y" := (dmul x y) : double_scope.
Notation "x / y" := (ddiv x y) : double_scope.
Notation "- x" := (dneg x) : double_scope.
Notation "x <? y" := (dltb x y) : double_scope.
Notation "x <=? y" := (dleb x y) : double_scope.
Notation "x >? y" := (dltb y x) : double_scope.
Notation "x >=? y" := (dleb y x) : double_scope.

(** *** Decimal rendering of a rational, as the C library renders a double *)

Definition string_of_nat (n : nat) : string :=
  NilZero.string_of_uint (Nat.to_uint n).

Definition string_of_Z (z : Z) : string :=
  NilZero.string_of_int (Z.to_int z).

Fixpoint zeros (n : nat) : string :=
  match n with
  | O => ""
  | S n' => String "0" (zeros n')
  end.

Definition pad_zeros (width : nat) (s : string) : string :=
  zeros (width - String.length s) ++ s.

(** Round a non-negative rational to the nearest integer, ties to even. *)
Definition round_half_even (q : Q) : Z :=
  let f := Qfloor q in
  match Qcompare (q - inject_Z f) (1 # 2) with
  | Lt => f
  | Gt => (f + 1)%Z
  | Eq => if Z.even f then f else (f + 1)%Z
  end.

(** [printf("%.<prec>f")]. *)
Definition fixed_notation (prec : nat) (q : Q) : string :=
  let scale := (10 ^ Z.of_nat prec)%Z in
  let n := round_half_even (Qabs q * inject_Z scale) in
  let sign := if Qle_bool 0 q then "" else "-" in
  let frac := match prec with
              | O => ""
              | _ => "." ++ pad_zeros prec (string_of_Z (n mod scale))
              end in
  sign ++ string_of_Z (n / scale) ++ frac.

Fixpoint strip_zeros_rev (l : list ascii) : list ascii :=
  match l with
  | "0"%char :: l' => strip_zeros_rev l'
  | _ => l
  end.

(** Drop the trailing zeros of a fraction, and the point when nothing is
    left after it. *)
Definition strip_fraction (s : string) : string :=
  let r := strip_zeros_rev (rev (list_ascii_of_string s)) in
  let r := match r with
           | "."%char :: r' => r'
           | _ => r
           end in
  string_of_list_ascii (rev r).

(** [printf("%g")]: six significant digits, scientific notation when the
    decimal exponent is below -4 or at least 6. *)
Definition general_notation (q : Q) : string :=
  if Qeq_bool q 0 then "0" else
  let a := Qabs q in
  let x0 := (Z.of_nat (String.length (string_of_Z (Qnum a)))
             - Z.of_nat (String.length (string_of_Z (Zpos (Qden a)))))%Z in
  let x := if Qle_bool (Qpower 10 x0) a then x0 else (x0 - 1)%Z in
  let n0 := round_half_even (a / Qpower 10 (x - 5)) in
  let n := if (n0 =? 1000000)%Z then 100000%Z else n0 in
  let x := if (n0 =? 1000000)%Z then (x + 1)%Z else x in
  let digits := string_of_Z n in
  let sign := if Qle_bool 0 q then "" else "-" in
  if ((x <? -4) || (6 <=? x))%Z then
    sign ++ strip_fraction (substring 0 1 digits ++ "." ++ substring 1 5 digits)
         ++ "e" ++ (if (x <? 0)%Z then "-" else "+")
         ++ pad_zeros 2 (string_of_Z (Z.abs x))
  else if (0 <=? x)%Z then
    let k := S (Z.to_nat x) in
    sign ++ strip_fraction (substring 0 k digits ++ "." ++ substring k (6 - k) digits)
  else
    sign ++ strip_fraction ("0." ++ zeros (Z.to_nat (- x - 1)) ++ digits).

(** *** Exact rationals *)

#[export] Instance Q_Double : Double Q := {
  dlit q := q;
  dint z := inject_Z z;
  dadd := Qplus;
  dsub := Qminus;
  dmul := Qmult;
  ddiv := Qdiv;
  dneg := Qopp;
  dabs := Qabs;
  dltb a b := negb (Qle_bool b a);
  dleb := Qle_bool;
  d_to_string := fixed_notation 6;
  d_put := general_notation
}.

(** *** IEEE binary64 *)

Definition float_of_Z (z : Z) : float :=
  if (z <? 0)%Z then PrimFloat.opp (of_uint63 (Uint63.of_Z (- z)))
  else of_uint63 (Uint63.of_Z z).

(** A decimal literal read as the nearest binary64 value: both terms of the
    fraction are exact for the literals of the source (below 2^53), and the
    division rounds to nearest. *)
Definition float_of_literal (q : Q) : float :=
  PrimFloat.div (float_of_Z (Qnum q)) (float_of_Z (Zpos (Qden q))).

(** The exact value of a finite binary64 number. *)
Definition Q_of_float (f : float) : option Q :=
  match Prim2SF f with
  | S754_zero _ => Some 0
  | S754_finite s m e =>
      let v := (inject_Z (Zpos m) * Qpower 2 e)%Q in
      Some (if s then Qopp v else v)
  | _ => None
  end.

(** The C library prints the sign of a negative zero: [-0.0] is
    [-0.000000] through [std::to_string] and [-0] through [operator<<]. *)
Definition float_render (finite : Q -> string) (f : float) : string :=
  match Prim2SF f with
  | S754_infinity s => if s then "-inf" else "inf"
  | S754_nan => "nan"
  | S754_zero s => (if s then "-" else "") ++ finite 0
  | S754_finite _ _ _ =>
      match Q_of_float f with
      | Some q => finite q
      | None => "nan"
      end
  end.

#[export] Instance float_Double : Double float := {
  dlit := float_of_literal;
  dint := float_of_Z;
  dadd := PrimFloat.add;
  dsub := PrimFloat.sub;
  dmul := PrimFloat.mul;
  ddiv := PrimFloat.div;
  dneg := PrimFloat.opp;
  dabs := PrimFloat.abs;
  dltb := PrimFloat.ltb;
  dleb := PrimFloat.leb;
  d_to_string := float_render (fixed_notation 6);
  d_put := float_render general_notation
}.

Example fixed_notation_ex :
  fixed_notation 6 (-2.8) = "-2.800000" /\ fixed_notation 6 0 = "0.000000"
  /\ fixed_notation 6 (1234567 # 2000000) = "0.617284".
Proof. vm_compute. repeat split. Qed.

Example general_notation_ex :
  map general_notation
      [-50; 70; 0; 1; 100; 0.5; 400; 1234567; 0.00001234; 29.00754;
       100000; 1000000; 0.0001; 0.00001; 999999.5]%Q
  = ["-50"; "70"; "0"; "1"; "100"; "0.5"; "400"; "1.23457e+06"; "1.234e-05";
     "29.0075"; "100000"; "1e+06"; "0.0001"; "1e-05"; "1e+06"].
Proof. vm_compute. reflexivity. Qed.

(** The literals of the source, read through [float_of_literal], are the
    binary64 values a compiler reads them as. *)
Example float_literal_ex :
  map float_of_literal
      [6.89476; 100.0; 0.175127; 175.127; 25.4; 10.0; 32.0; 5.0; 9.0; 273.15;
       1.35582; 4.44822; 1.60934; 3.6; 3.78541; 4.54609; 1e-10; -2.8; 0.0]%Q
  = [6.89476; 100.0; 0.175127; 175.127; 25.4; 10.0; 32.0; 5.0; 9.0; 273.15;
     1.35582; 4.44822; 1.60934; 3.6; 3.78541; 4.54609; 1e-10; -2.8; 0.0]%float
  /\ d_to_string (dlit 2.5 : float) = "2.500000".
Proof. vm_compute. split; reflexivity. Qed.

Example float_render_ex :
  map d_to_string [0; -0; -2.8; 1e-9; -1e-9; infinity; neg_infinity]%float
  = ["0.000000"; "-0.000000"; "-2.800000"; "0.000000"; "-0.000000"; "inf"; "-inf"]
  /\ map d_put [0; -0; -50; 0.5; neg_infinity]%float
     = ["0"; "-0"; "-50"; "0.5"; "-inf"].
Proof. vm_compute. split; reflexivity. Qed.

(* ------------------------------------------------------------------ *)
(** ** utils.hpp / utils.cpp *)

(** *** StringUtils *)

(** [StringUtils::split]: repeated [std::getline(ss, part, delim)]. A part
    ends at a delimiter or at the end of the text; at the end of the text a
    read that extracts nothing fails, so no empty part follows a trailing
    delimiter and the empty text has no part. *)
Fixpoint getline_loop (part : string) (str : string) (delim : ascii) : list string :=
  match str with
  | EmptyString => if String.eqb part "" then [] else [part]
  | String c str' =>
      if Ascii.eqb c delim then part :: getline_loop "" str' delim
      else getline_loop (part ++ String c "") str' delim
  end.

Definition split (str : string) (delim : ascii) : list string :=
  getline_loop "" str delim.

(** *** DateTimeUtils::is_valid_iso8601 *)

(** The atoms of the pattern the function compiles:
    [\d{4}-\d{2}-\d{2}T\d{2}:\d{2}:\d{2}(\.\d{3})?(Z|[+-]\d{2}:\d{2})?]. *)
Inductive atom : Type :=
| digit                       (* \d *)
| lit (c : ascii)             (* the character itself *)
| sign.                       (* [+-] *)

Definition is_digit (c : ascii) : bool :=
  let n := nat_of_ascii c in (48 <=? n)%nat && (n <=? 57)%nat.

Definition atom_matches (a : atom) (c : ascii) : bool :=
  match a with
  | digit => is_digit c
  | lit c' => Ascii.eqb c c'
  | sign => Ascii.eqb c "+" || Ascii.eqb c "-"
  end.

(** Match a sequence of atoms at the head of a text; the rest of the text. *)
Fixpoint match_atoms (p : list atom) (s : string) : option string :=
  match p with
  | [] => Some s
  | a :: p' =>
      match s with
      | EmptyString => None
      | String c s' => if atom_matches a c then match_atoms p' s' else None
      end
  end.

Definition iso8601_date_time : list atom :=
  [digit; digit; digit; digit; lit "-"; digit; digit; lit "-"; digit; digit;
   lit "T"; digit; digit; lit ":"; digit; digit; lit ":"; digit; digit].
Definition iso8601_millis : list atom := [lit "."; digit; digit; digit].
Definition iso8601_offset : list atom := [sign; digit; digit; lit ":"; digit; digit].

(** [std::regex_match]: the whole text must match. Neither optional group
    can be skipped once its first character is there, so the match is
    deterministic. *)
Definition is_valid_iso8601 (timestamp : string) : bool :=
  match match_atoms iso8601_date_time timestamp with
  | None => false
  | Some r1 =>
      let r2 := match match_atoms iso8601_millis r1 with
                | Some r => r
                | None => r1
                end in
      String.eqb r2 "" || String.eqb r2 "Z"
      || match match_atoms iso8601_offset r2 with
         | Some r3 => String.eqb r3 ""
         | None => false
         end
  end.

(** *** Unit *)

Inductive Unit : Type :=
| KPA | PSI | BAR                     (* pressure *)
| N_MM | LB_IN                        (* spring rate *)
| N_S_M | LB_S_IN                     (* damping *)
| MM | INCHES | CM                    (* length *)
| CELSIUS | FAHRENHEIT | KELVIN       (* temperature *)
| NM | LB_FT                          (* torque *)
| NEWTONS | POUNDS                    (* force *)
| KPH | MPH | MS                      (* speed *)
| LITERS | GALLONS_US | GALLONS_UK.   (* volume *)

Scheme Equality for Unit.

(** The dimension families of the enumeration's comments. *)
Inductive Dimension : Type :=
| Pressure | SpringRate | Damping | Length | Temperature
| Torque | Force | Speed | Volume.

Definition dimension (u : Unit) : Dimension :=
  match u with
  | KPA | PSI | BAR => Pressure
  | N_MM | LB_IN => SpringRate
  | N_S_M | LB_S_IN => Damping
  | MM | INCHES | CM => Length
  | CELSIUS | FAHRENHEIT | KELVIN => Temperature
  | NM | LB_FT => Torque
  | NEWTONS | POUNDS => Force
  | KPH | MPH | MS => Speed
  | LITERS | GALLONS_US | GALLONS_UK => Volume
  end.

(** *** std::sort

    The library function is known by what the language standard promises
    of it: the result is a permutation of the argument, in non-descending
    order when the comparison is a strict weak ordering; the relative order
    of equivalent elements is left to the implementation. *)

(** The requirement on the comparison: irreflexive, transitive, and with a
    transitive incomparability. *)
Definition strict_weak_order {A} (comp : A -> A -> bool) : Prop :=
  (forall a, comp a a = false)
  /\ (forall a b c, comp a b = true -> comp b c = true -> comp a c = true)
  /\ (forall a b c, comp a b = false -> comp b a = false ->
                    comp b c = false -> comp c b = false ->
                    comp a c = false /\ comp c a = false).

Definition non_descending {A} (comp : A -> A -> bool) : list A -> Prop :=
  Sorted (fun a b => comp b a = false).

Class StdSort : Type := {
  std_sort : forall {A : Type}, (A -> A -> bool) -> list A -> list A;
  std_sort_permutation :
    forall {A} (comp : A -> A -> bool) l, Permutation l (std_sort comp l);
  std_sort_sorted :
    forall {A} (comp : A -> A -> bool) l,
      strict_weak_order comp -> non_descending comp (std_sort comp l)
}.

Section Utils.
Context {D : Type} `{Double D}.
Local Open Scope double_scope.

(** *** UnitConverter *)

(** The [default:] branch of the switch (the "Unknown unit" error) is not
    reachable from a value of the enumeration. *)
Definition to_base (value : D) (unit : Unit) : D :=
  match unit with
  | KPA => value
  | PSI => value * dlit 6.89476
  | BAR => value * dlit 100.0
  | N_MM => value
  | LB_IN => value * dlit 0.175127
  | N_S_M => value
  | LB_S_IN => value * dlit 175.127
  | MM => value
  | INCHES => value * dlit 25.4
  | CM => value * dlit 10.0
  | CELSIUS => value
  | FAHRENHEIT => (value - dlit 32.0) * dlit 5.0 / dlit 9.0
  | KELVIN => value - dlit 273.15
  | NM => value
  | LB_FT => value * dlit 1.35582
  | NEWTONS => value
  | POUNDS => value * dlit 4.44822
  | KPH => value
  | MPH => value * dlit 1.60934
  | MS => value * dlit 3.6
  | LITERS => value
  | GALLONS_US => value * dlit 3.78541
  | GALLONS_UK => value * dlit 4.54609
  end.

Definition from_base (value : D) (unit : Unit) : D :=
  match unit with
  | KPA => value
  | PSI => value / dlit 6.89476
  | BAR => value / dlit 100.0
  | N_MM => value
  | LB_IN => value / dlit 0.175127
  | N_S_M => value
  | LB_S_IN => value / dlit 175.127
  | MM => value
  | INCHES => value / dlit 25.4
  | CM => value / dlit 10.0
  | CELSIUS => value
  | FAHRENHEIT => value * dlit 9.0 / dlit 5.0 + dlit 32.0
  | KELVIN => value + dlit 273.15
  | NM => value
  | LB_FT => value / dlit 1.35582
  | NEWTONS => value
  | POUNDS => value / dlit 4.44822
  | KPH => value
  | MPH => value / dlit 1.60934
  | MS => value / dlit 3.6
  | LITERS => value
  | GALLONS_US => value / dlit 3.78541
  | GALLONS_UK => value / dlit 4.54609
  end.

Definition convert (value : D) (from to : Unit) : D :=
  if Unit_beq from to then value
  else
    let base := to_base value from in
    from_base base to.

(** *** LookupTableConverter *)

Record LUTEntry : Type := { input : D; output : D }.

Record LookupTableConverter : Type := { table_ : list LUTEntry }.

(** The comparison both sorts pass to [std::sort]. *)
Definition by_input (a b : LUTEntry) : bool := a.(input) <? b.(input).

Definition lerp (x x0 x1 y0 y1 : D) : D :=
  if dabs (x1 - x0) <? dlit 1e-10 then y0
  else y0 + (y1 - y0) * (x - x0) / (x1 - x0).

(** The loop over [i], [i + 1]: the first pair of neighbours that
    brackets the value. *)
Fixpoint find_surrounding (value : D) (table : list LUTEntry) : option D :=
  match table with
  | a :: ((b :: _) as rest) =>
      if (value >=? a.(input)) && (value <=? b.(input)) then
        Some (lerp value a.(input) b.(input) a.(output) b.(output))
      else find_surrounding value rest
  | _ => None
  end.

(** The statements [interpolate] and [reverse_lookup] share, on a table
    whose first entry is [front]: clamp to the bounds, then search. *)
Definition clamp_or_search (front : LUTEntry) (table : list LUTEntry) (value : D) : D :=
  let back := last table front in
  if value <=? front.(input) then front.(output)
  else if value >=? back.(input) then back.(output)
  else match find_surrounding value table with
       | Some r => r
       | None => back.(output)
       end.

Definition reversed (entry : LUTEntry) : LUTEntry :=
  {| input := entry.(output); output := entry.(input) |}.

Section Sorting.
Context {S : StdSort}.

(** The constructor. *)
Definition make_LookupTableConverter (table : list LUTEntry) : LookupTableConverter :=
  {| table_ := std_sort by_input table |}.

Definition interpolate (lut : LookupTableConverter) (value : D) : except D :=
  match lut.(table_) with
  | [] => Throw (runtime_error "Empty lookup table")
  | front :: _ => Ok (clamp_or_search front lut.(table_) value)
  end.

(** [reverse_table] is not empty past the first test, being a
    permutation of a non-empty table; [first] only keeps [hd] total. *)
Definition reverse_lookup (lut : LookupTableConverter) (value : D) : except D :=
  match lut.(table_) with
  | [] => Throw (runtime_error "Empty lookup table")
  | first :: _ =>
      let reverse_table := std_sort by_input (map reversed lut.(table_)) in
      Ok (clamp_or_search (hd (reversed first) reverse_table) reverse_table value)
  end.
End Sorting.

(** *** Transform *)

(** [std::function<double(double)>]; calling one may throw. *)
Definition TransformFunc : Type := D -> except D.

Definition identity : TransformFunc := fun x => Ok x.
Definition scale (factor : D) : TransformFunc := fun x => Ok (x * factor).
Definition offset (amount : D) : TransformFunc := fun x => Ok (x + amount).
Definition linear (scale_factor offset_amount : D) : TransformFunc :=
  fun x => Ok (x * scale_factor + offset_amount).
Definition invert : TransformFunc :=
  fun x =>
    if dabs x <? dlit 1e-10 then Throw (runtime_error "Cannot invert zero value")
    else Ok (dlit 1.0 / x).
Definition negate : TransformFunc := fun x => Ok (- x).
Definition percent_to_ratio : TransformFunc := fun x => Ok (x / dlit 100.0).
Definition ratio_to_percent : TransformFunc := fun x => Ok (x * dlit 100.0).
Definition unit_convert (from to : Unit) : TransformFunc :=
  fun x => Ok (convert x from to).
Definition lookup_table (lut : LookupTableConverter) : TransformFunc :=
  fun x => interpolate lut x.

Fixpoint compose (transforms : list TransformFunc) : TransformFunc :=
  fun x =>
    match transforms with
    | [] => Ok x
    | transform :: rest => except_bind (transform x) (compose rest)
    end.
End Utils.

Arguments LUTEntry D : clear implicits.
Arguments LookupTableConverter D : clear implicits.
Arguments TransformFunc D : clear implicits.

(* ------------------------------------------------------------------ *)
(** ** core.hpp *)

Section Core.
Context {D : Type}.

(** [nlohmann::json], the value of the open-ended maps. *)
Inductive json : Type :=
| json_null
| json_boolean (b : bool)
| json_number (d : D)
| json_string (s : string)
| json_array (elements : list json)
| json_object (members : list (string * json)).

Record Metadata : Type := {
  id : string;
  name : string;
  notes : option string;
  created_at : string;
  updated_at : option string;
  created_by : option string;
  tags : option (list string);
  source : option string;
  origin_sim : option string
}.

Record Car : Type := {
  make : string;
  model : string;
  variant : option string;
  car_class : option string;
  bop_id : option string
}.

(** [struct Context]. *)
Record Context_ : Type := {
  track : option string;
  layout : option string;
  ambient_temp_c : option D;
  track_temp_c : option D;
  rubber : option string;
  wetness : option D;
  session_type : option string;
  fuel_rule : option string
}.

Record Aerodynamics : Type := {
  front_wing : option D;
  rear_wing : option D;
  front_downforce_n : option D;
  rear_downforce_n : option D;
  front_ride_height_mm : option D;
  rear_ride_height_mm : option D;
  rake_mm : option D;
  brake_duct_front_pct : option D;
  brake_duct_rear_pct : option D;
  radiator_opening_pct : option D
}.

Record CornerSuspension : Type := {
  camber_deg : option D;
  toe_deg : option D;
  caster_deg : option D;
  spring_rate_n_mm : option D;
  ride_height_mm : option D;
  bumpstop_gap_mm : option D;
  bumpstop_rate_n_mm : option D;
  packer_mm : option D;
  damper_bump_slow_n_s_m : option D;
  damper_bump_fast_n_s_m : option D;
  damper_rebound_slow_n_s_m : option D;
  damper_rebound_fast_n_s_m : option D
}.

Record Suspension : Type := {
  front_left : option CornerSuspension;
  front_right : option CornerSuspension;
  rear_left : option CornerSuspension;
  rear_right : option CornerSuspension;
  front_arb : option D;
  rear_arb : option D;
  heave_spring_n_mm : option D;
  heave_packer_mm : option D
}.

Record Tires : Type := {
  compound : option string;
  pressure_fl_kpa : option D;
  pressure_fr_kpa : option D;
  pressure_rl_kpa : option D;
  pressure_rr_kpa : option D;
  stagger_mm : option D
}.

(** An [int] field is a [Z]. *)
Record Drivetrain : Type := {
  diff_preload_nm : option D;
  diff_power_ramp_pct : option D;
  diff_coast_ramp_pct : option D;
  final_drive_ratio : option D;
  lsd_clutch_plates : option Z
}.

Record Gearing : Type := {
  gear_ratios : option (list D);
  reverse_ratio : option D
}.

Record Brakes : Type := {
  pad_compound : option string;
  disc_type : option string;
  brake_bias_pct : option D;
  max_force_n : option D
}.

Record Electronics : Type := {
  tc_level : option Z;
  tc2_level : option Z;
  abs_level : option Z;
  engine_map : option Z;
  engine_brake_level : option Z;
  pit_limiter_kph : option D
}.

Record Fuel : Type := {
  start_fuel_l : option D;
  per_lap_consumption_l : option D;
  stint_target_laps : option Z;
  mixture_setting : option Z
}.

(** The field [notes] of [struct Strategy] is [strategy_notes] here:
    [Metadata] has the name already. *)
Record Strategy : Type := {
  tire_change_policy : option string;
  strategy_notes : option string;
  custom : list (string * json)
}.

Record Setup : Type := {
  aero : option Aerodynamics;
  suspension : option Suspension;
  tires : option Tires;
  drivetrain : option Drivetrain;
  gearing : option Gearing;
  brakes : option Brakes;
  electronics : option Electronics;
  fuel : option Fuel;
  strategy : option Strategy
}.

Record ORSF : Type := {
  schema : string;
  metadata : Metadata;
  car : Car;
  context : option Context_;
  setup : Setup;
  compat : option (list (string * json))
}.

(** Value initialisation, [T{}]: every optional member empty. *)
Definition Aerodynamics_default : Aerodynamics :=
  {| front_wing := None; rear_wing := None; front_downforce_n := None;
     rear_downforce_n := None; front_ride_height_mm := None;
     rear_ride_height_mm := None; rake_mm := None;
     brake_duct_front_pct := None; brake_duct_rear_pct := None;
     radiator_opening_pct := None |}.

Definition CornerSuspension_default : CornerSuspension :=
  {| camber_deg := None; toe_deg := None; caster_deg := None;
     spring_rate_n_mm := None; ride_height_mm := None;
     bumpstop_gap_mm := None; bumpstop_rate_n_mm := None; packer_mm := None;
     damper_bump_slow_n_s_m := None; damper_bump_fast_n_s_m := None;
     damper_rebound_slow_n_s_m := None; damper_rebound_fast_n_s_m := None |}.

Definition Suspension_default : Suspension :=
  {| front_left := None; front_right := None; rear_left := None;
     rear_right := None; front_arb := None; rear_arb := None;
     heave_spring_n_mm := None; heave_packer_mm := None |}.

Definition Tires_default : Tires :=
  {| compound := None; pressure_fl_kpa := None; pressure_fr_kpa := None;
     pressure_rl_kpa := None; pressure_rr_kpa := None; stagger_mm := None |}.

Definition Drivetrain_default : Drivetrain :=
  {| diff_preload_nm := None; diff_power_ramp_pct := None;
     diff_coast_ramp_pct := None; final_drive_ratio := None;
     lsd_clutch_plates := None |}.

Definition Gearing_default : Gearing :=
  {| gear_ratios := None; reverse_ratio := None |}.

Definition Brakes_default : Brakes :=
  {| pad_compound := None; disc_type := None; brake_bias_pct := None;
     max_force_n := None |}.

Definition Electronics_default : Electronics :=
  {| tc_level := None; tc2_level := None; abs_level := None;
     engine_map := None; engine_brake_level := None;
     pit_limiter_kph := None |}.

Definition Fuel_default : Fuel :=
  {| start_fuel_l := None; per_lap_consumption_l := None;
     stint_target_laps := None; mixture_setting := None |}.

Definition Setup_default : Setup :=
  {| aero := None; suspension := None; tires := None; drivetrain := None;
     gearing := None; brakes := None; electronics := None; fuel := None;
     strategy := None |}.

Definition Metadata_default : Metadata :=
  {| id := ""; name := ""; notes := None; created_at := "";
     updated_at := None; created_by := None; tags := None; source := None;
     origin_sim := None |}.

Definition Car_default : Car :=
  {| make := ""; model := ""; variant := None; car_class := None;
     bop_id := None |}.

Definition Context_default : Context_ :=
  {| track := None; layout := None; ambient_temp_c := None;
     track_temp_c := None; rubber := None; wetness := None;
     session_type := None; fuel_rule := None |}.

(** [ORSF::ORSF()]. *)
Definition ORSF_default : ORSF :=
  {| schema := "orsf://v1"; metadata := Metadata_default; car := Car_default;
     context := None; setup := Setup_default; compat := None |}.
End Core.

Arguments json D : clear implicits.
Arguments Context_ D : clear implicits.
Arguments Aerodynamics D : clear implicits.
Arguments CornerSuspension D : clear implicits.
Arguments Suspension D : clear implicits.
Arguments Tires D : clear implicits.
Arguments Drivetrain D : clear implicits.
Arguments Gearing D : clear implicits.
Arguments Brakes D : clear implicits.
Arguments Electronics D : clear implicits.
Arguments Fuel D : clear implicits.
Arguments Strategy D : clear implicits.
Arguments Setup D : clear implicits.
Arguments ORSF D : clear implicits.

(* ------------------------------------------------------------------ *)
(** ** mapping.hpp / mapping.cpp *)

Section Mapping.
Context {D : Type} `{Double D}.

(** *** Member assignment

    [x.f = v] on a struct held by value: the struct with that member
    replaced. Only the members [set_value] assigns are needed. *)
Definition set_front_wing (a : Aerodynamics D) (v : option D) : Aerodynamics D :=
  {| front_wing := v;
     rear_wing := a.(rear_wing);
     front_downforce_n := a.(front_downforce_n);
     rear_downforce_n := a.(rear_downforce_n);
     front_ride_height_mm := a.(front_ride_height_mm);
     rear_ride_height_mm := a.(rear_ride_height_mm);
     rake_mm := a.(rake_mm);
     brake_duct_front_pct := a.(brake_duct_front_pct);
     brake_duct_rear_pct := a.(brake_duct_rear_pct);
     radiator_opening_pct := a.(radiator_opening_pct) |}.

Definition set_rear_wing (a : Aerodynamics D) (v : option D) : Aerodynamics D :=
  {| front_wing := a.(front_wing);
     rear_wing := v;
     front_downforce_n := a.(front_downforce_n);
     rear_downforce_n := a.(rear_downforce_n);
     front_ride_height_mm := a.(front_ride_height_mm);
     rear_ride_height_mm := a.(rear_ride_height_mm);
     rake_mm := a.(rake_mm);
     brake_duct_front_pct := a.(brake_duct_front_pct);
     brake_duct_rear_pct := a.(brake_duct_rear_pct);
     radiator_opening_pct := a.(radiator_opening_pct) |}.

Definition set_front_downforce_n (a : Aerodynamics D) (v : option D) : Aerodynamics D :=
  {| front_wing := a.(front_wing);
     rear_wing := a.(rear_wing);
     front_downforce_n := v;
     rear_downforce_n := a.(rear_downforce_n);
     front_ride_height_mm := a.(front_ride_height_mm);
     rear_ride_height_mm := a.(rear_ride_height_mm);
     rake_mm := a.(rake_mm);
     brake_duct_front_pct := a.(brake_duct_front_pct);
     brake_duct_rear_pct := a.(brake_duct_rear_pct);
     radiator_opening_pct := a.(radiator_opening_pct) |}.

Definition set_rear_downforce_n (a : Aerodynamics D) (v : option D) : Aerodynamics D :=
  {| front_wing := a.(front_wing);
     rear_wing := a.(rear_wing);
     front_downforce_n := a.(front_downforce_n);
     rear_downforce_n := v;
     front_ride_height_mm := a.(front_ride_height_mm);
     rear_ride_height_mm := a.(rear_ride_height_mm);
     rake_mm := a.(rake_mm);
     brake_duct_front_pct := a.(brake_duct_front_pct);
     brake_duct_rear_pct := a.(brake_duct_rear_pct);
     radiator_opening_pct := a.(radiator_opening_pct) |}.

Definition set_front_ride_height_mm (a : Aerodynamics D) (v : option D) : Aerodynamics D :=
  {| front_wing := a.(front_wing);
     rear_wing := a.(rear_wing);
     front_downforce_n := a.(front_downforce_n);
     rear_downforce_n := a.(rear_downforce_n);
     front_ride_height_mm := v;
     rear_ride_height_mm := a.(rear_ride_height_mm);
     rake_mm := a.(rake_mm);
     brake_duct_front_pct := a.(brake_duct_front_pct);
     brake_duct_rear_pct := a.(brake_duct_rear_pct);
     radiator_opening_pct := a.(radiator_opening_pct) |}.

Definition set_rear_ride_height_mm (a : Aerodynamics D) (v : option D) : Aerodynamics D :=
  {| front_wing := a.(front_wing);
     rear_wing := a.(rear_wing);
     front_downforce_n := a.(front_downforce_n);
     rear_downforce_n := a.(rear_downforce_n);
     front_ride_height_mm := a.(front_ride_height_mm);
     rear_ride_height_mm := v;
     rake_mm := a.(rake_mm);
     brake_duct_front_pct := a.(brake_duct_front_pct);
     brake_duct_rear_pct := a.(brake_duct_rear_pct);
     radiator_opening_pct := a.(radiator_opening_pct) |}.

Definition set_rake_mm (a : Aerodynamics D) (v : option D) : Aerodynamics D :=
  {| front_wing := a.(front_wing);
     rear_wing := a.(rear_wing);
     front_downforce_n := a.(front_downforce_n);
     rear_downforce_n := a.(rear_downforce_n);
     front_ride_height_mm := a.(front_ride_height_mm);
     rear_ride_height_mm := a.(rear_ride_height_mm);
     rake_mm := v;
     brake_duct_front_pct := a.(brake_duct_front_pct);
     brake_duct_rear_pct := a.(brake_duct_rear_pct);
     radiator_opening_pct := a.(radiator_opening_pct) |}.

Definition set_brake_duct_front_pct (a : Aerodynamics D) (v : option D) : Aerodynamics D :=
  {| front_wing := a.(front_wing);
     rear_wing := a.(rear_wing);
     front_downforce_n := a.(front_downforce_n);
     rear_downforce_n := a.(rear_downforce_n);
     front_ride_height_mm := a.(front_ride_height_mm);
     rear_ride_height_mm := a.(rear_ride_height_mm);
     rake_mm := a.(rake_mm);
     brake_duct_front_pct := v;
     brake_duct_rear_pct := a.(brake_duct_rear_pct);
     radiator_opening_pct := a.(radiator_opening_pct) |}.

Definition set_brake_duct_rear_pct (a : Aerodynamics D) (v : option D) : Aerodynamics D :=
  {| front_wing := a.(front_wing);
     rear_wing := a.(rear_wing);
     front_downforce_n := a.(front_downforce_n);
     rear_downforce_n := a.(rear_downforce_n);
     front_ride_height_mm := a.(front_ride_height_mm);
     rear_ride_height_mm := a.(rear_ride_height_mm);
     rake_mm := a.(rake_mm);
     brake_duct_front_pct := a.(brake_duct_front_pct);
     brake_duct_rear_pct := v;
     radiator_opening_pct := a.(radiator_opening_pct) |}.

Definition set_radiator_opening_pct (a : Aerodynamics D) (v : option D) : Aerodynamics D :=
  {| front_wing := a.(front_wing);
     rear_wing := a.(rear_wing);
     front_downforce_n := a.(front_downforce_n);
     rear_downforce_n := a.(rear_downforce_n);
     front_ride_height_mm := a.(front_ride_height_mm);
     rear_ride_height_mm := a.(rear_ride_height_mm);
     rake_mm := a.(rake_mm);
     brake_duct_front_pct := a.(brake_duct_front_pct);
     brake_duct_rear_pct := a.(brake_duct_rear_pct);
     radiator_opening_pct := v |}.

Definition set_pressure_fl_kpa (t : Tires D) (v : option D) : Tires D :=
  {| compound := t.(compound);
     pressure_fl_kpa := v;
     pressure_fr_kpa := t.(pressure_fr_kpa);
     pressure_rl_kpa := t.(pressure_rl_kpa);
     pressure_rr_kpa := t.(pressure_rr_kpa);
     stagger_mm := t.(stagger_mm) |}.

Definition set_pressure_fr_kpa (t : Tires D) (v : option D) : Tires D :=
  {| compound := t.(compound);
     pressure_fl_kpa := t.(pressure_fl_kpa);
     pressure_fr_kpa := v;
     pressure_rl_kpa := t.(pressure_rl_kpa);
     pressure_rr_kpa := t.(pressure_rr_kpa);
     stagger_mm := t.(stagger_mm) |}.

Definition set_pressure_rl_kpa (t : Tires D) (v : option D) : Tires D :=
  {| compound := t.(compound);
     pressure_fl_kpa := t.(pressure_fl_kpa);
     pressure_fr_kpa := t.(pressure_fr_kpa);
     pressure_rl_kpa := v;
     pressure_rr_kpa := t.(pressure_rr_kpa);
     stagger_mm := t.(stagger_mm) |}.

Definition set_pressure_rr_kpa (t : Tires D) (v : option D) : Tires D :=
  {| compound := t.(compound);
     pressure_fl_kpa := t.(pressure_fl_kpa);
     pressure_fr_kpa := t.(pressure_fr_kpa);
     pressure_rl_kpa := t.(pressure_rl_kpa);
     pressure_rr_kpa := v;
     stagger_mm := t.(stagger_mm) |}.

Definition set_stagger_mm (t : Tires D) (v : option D) : Tires D :=
  {| compound := t.(compound);
     pressure_fl_kpa := t.(pressure_fl_kpa);
     pressure_fr_kpa := t.(pressure_fr_kpa);
     pressure_rl_kpa := t.(pressure_rl_kpa);
     pressure_rr_kpa := t.(pressure_rr_kpa);
     stagger_mm := v |}.

Definition set_brake_bias_pct (b : Brakes D) (v : option D) : Brakes D :=
  {| pad_compound := b.(pad_compound);
     disc_type := b.(disc_type);
     brake_bias_pct := v;
     max_force_n := b.(max_force_n) |}.

Definition set_max_force_n (b : Brakes D) (v : option D) : Brakes D :=
  {| pad_compound := b.(pad_compound);
     disc_type := b.(disc_type);
     brake_bias_pct := b.(brake_bias_pct);
     max_force_n := v |}.

Definition set_aero (s : Setup D) (v : option (Aerodynamics D)) : Setup D :=
  {| aero := v;
     suspension := s.(suspension);
     tires := s.(tires);
     drivetrain := s.(drivetrain);
     gearing := s.(gearing);
     brakes := s.(brakes);
     electronics := s.(electronics);
     fuel := s.(fuel);
     strategy := s.(strategy) |}.

Definition set_tires (s : Setup D) (v : option (Tires D)) : Setup D :=
  {| aero := s.(aero);
     suspension := s.(suspension);
     tires := v;
     drivetrain := s.(drivetrain);
     gearing := s.(gearing);
     brakes := s.(brakes);
     electronics := s.(electronics);
     fuel := s.(fuel);
     strategy := s.(strategy) |}.

Definition set_brakes (s : Setup D) (v : option (Brakes D)) : Setup D :=
  {| aero := s.(aero);
     suspension := s.(suspension);
     tires := s.(tires);
     drivetrain := s.(drivetrain);
     gearing := s.(gearing);
     brakes := v;
     electronics := s.(electronics);
     fuel := s.(fuel);
     strategy := s.(strategy) |}.

Definition set_setup (o : ORSF D) (v : Setup D) : ORSF D :=
  {| schema := o.(schema);
     metadata := o.(metadata);
     car := o.(car);
     context := o.(context);
     setup := v;
     compat := o.(compat) |}.

(** *** FlatSetup

    [std::map<std::string, double>]: the entries in ascending key order,
    one per key. [flat_assign] is [flat[key] = value], [flat_find] is
    [find] (an [end()] iterator is [None]); iterating the map walks the
    list. *)
Definition FlatSetup : Type := list (string * D).

Definition flat_empty : FlatSetup := [].

Fixpoint flat_assign (key : string) (value : D) (flat : FlatSetup) : FlatSetup :=
  match flat with
  | [] => [(key, value)]
  | (k, v) :: rest =>
      match String.compare key k with
      | Lt => (key, value) :: flat
      | Eq => (key, value) :: rest
      | Gt => (k, v) :: flat_assign key value rest
      end
  end.

Fixpoint flat_find (key : string) (flat : FlatSetup) : option D :=
  match flat with
  | [] => None
  | (k, v) :: rest => if String.eqb key k then Some v else flat_find key rest
  end.

(** The keys of a map are strictly ascending. *)
Definition flat_wf (flat : FlatSetup) : Prop :=
  StronglySorted (fun a b => String.compare (fst a) (fst b) = Lt) flat.

Record FieldMapping : Type := {
  orsf_path : string;
  native_key : string;
  to_native : option (TransformFunc D);
  to_orsf : option (TransformFunc D);
  required : bool
}.

Definition split_path (path : string) : list string := split path ".".

(** [parts[i]], used by the code only below [parts.size()]. *)
Definition part (parts : list string) (i : nat) : string := nth i parts "".

Definition empty {A} (v : list A) : bool :=
  match v with
  | [] => true
  | _ => false
  end.

(** *** get_value

    The function is a sequence of [if (section == ... && ....has_value())]
    blocks; a block that does not return falls through to the blocks after
    it. Each block is a function of the optional member it tests and of
    what the rest of the function returns, [next]. *)
Definition get_value_aero (block : option (Aerodynamics D)) (parts : list string)
           (next : option D) : option D :=
  if part parts 1 =? "aero" then
    match block with
    | Some aero =>
        if (List.length parts <? 3)%nat then None
        else if part parts 2 =? "front_wing" then aero.(front_wing)
        else if part parts 2 =? "rear_wing" then aero.(rear_wing)
        else if part parts 2 =? "front_downforce_n" then aero.(front_downforce_n)
        else if part parts 2 =? "rear_downforce_n" then aero.(rear_downforce_n)
        else if part parts 2 =? "front_ride_height_mm" then aero.(front_ride_height_mm)
        else if part parts 2 =? "rear_ride_height_mm" then aero.(rear_ride_height_mm)
        else if part parts 2 =? "rake_mm" then aero.(rake_mm)
        else if part parts 2 =? "brake_duct_front_pct" then aero.(brake_duct_front_pct)
        else if part parts 2 =? "brake_duct_rear_pct" then aero.(brake_duct_rear_pct)
        else if part parts 2 =? "radiator_opening_pct" then aero.(radiator_opening_pct)
        else next
    | None => next
    end
  else next.

Definition get_value_corner (corner : CornerSuspension D) (parts : list string)
           (next : option D) : option D :=
  if (4 <=? List.length parts)%nat then
    if part parts 3 =? "camber_deg" then corner.(camber_deg)
    else if part parts 3 =? "toe_deg" then corner.(toe_deg)
    else if part parts 3 =? "caster_deg" then corner.(caster_deg)
    else if part parts 3 =? "spring_rate_n_mm" then corner.(spring_rate_n_mm)
    else if part parts 3 =? "ride_height_mm" then corner.(ride_height_mm)
    else if part parts 3 =? "bumpstop_gap_mm" then corner.(bumpstop_gap_mm)
    else if part parts 3 =? "bumpstop_rate_n_mm" then corner.(bumpstop_rate_n_mm)
    else if part parts 3 =? "damper_bump_slow_n_s_m" then corner.(damper_bump_slow_n_s_m)
    else if part parts 3 =? "damper_bump_fast_n_s_m" then corner.(damper_bump_fast_n_s_m)
    else if part parts 3 =? "damper_rebound_slow_n_s_m" then corner.(damper_rebound_slow_n_s_m)
    else if part parts 3 =? "damper_rebound_fast_n_s_m" then corner.(damper_rebound_fast_n_s_m)
    else next
  else next.

Definition get_value_suspension (block : option (Suspension D)) (parts : list string)
           (next : option D) : option D :=
  if part parts 1 =? "suspension" then
    match block with
    | Some susp =>
        if (List.length parts <? 3)%nat then None
        else
          (* the pointer [corner], null when no corner is selected *)
          let corner :=
            if part parts 2 =? "front_left" then susp.(front_left)
            else if part parts 2 =? "front_right" then susp.(front_right)
            else if part parts 2 =? "rear_left" then susp.(rear_left)
            else if part parts 2 =? "rear_right" then susp.(rear_right)
            else None in
          let arbs :=
            if part parts 2 =? "front_arb" then susp.(front_arb)
            else if part parts 2 =? "rear_arb" then susp.(rear_arb)
            else if part parts 2 =? "heave_spring_n_mm" then susp.(heave_spring_n_mm)
            else next in
          match corner with
          | Some c => get_value_corner c parts arbs
          | None => arbs
          end
    | None => next
    end
  else next.

Definition get_value_tires (block : option (Tires D)) (parts : list string)
           (next : option D) : option D :=
  if part parts 1 =? "tires" then
    match block with
    | Some tires =>
        if (List.length parts <? 3)%nat then None
        else if part parts 2 =? "pressure_fl_kpa" then tires.(pressure_fl_kpa)
        else if part parts 2 =? "pressure_fr_kpa" then tires.(pressure_fr_kpa)
        else if part parts 2 =? "pressure_rl_kpa" then tires.(pressure_rl_kpa)
        else if part parts 2 =? "pressure_rr_kpa" then tires.(pressure_rr_kpa)
        else if part parts 2 =? "stagger_mm" then tires.(stagger_mm)
        else next
    | None => next
    end
  else next.

(** [if (parts[2] == name && member.has_value()) return
    static_cast<double>(member.value());] *)
Definition return_int (selected : bool) (member : option Z) (next : option D) : option D :=
  if selected then
    match member with
    | Some n => Some (dint n)
    | None => next
    end
  else next.

Definition get_value_drivetrain (block : option (Drivetrain D)) (parts : list string)
           (next : option D) : option D :=
  if part parts 1 =? "drivetrain" then
    match block with
    | Some dt =>
        if (List.length parts <? 3)%nat then None
        else if part parts 2 =? "diff_preload_nm" then dt.(diff_preload_nm)
        else if part parts 2 =? "diff_power_ramp_pct" then dt.(diff_power_ramp_pct)
        else if part parts 2 =? "diff_coast_ramp_pct" then dt.(diff_coast_ramp_pct)
        else if part parts 2 =? "final_drive_ratio" then dt.(final_drive_ratio)
        else return_int (part parts 2 =? "lsd_clutch_plates") dt.(lsd_clutch_plates) next
    | None => next
    end
  else next.

Definition get_value_brakes (block : option (Brakes D)) (parts : list string)
           (next : option D) : option D :=
  if part parts 1 =? "brakes" then
    match block with
    | Some brakes =>
        if (List.length parts <? 3)%nat then None
        else if part parts 2 =? "brake_bias_pct" then brakes.(brake_bias_pct)
        else if part parts 2 =? "max_force_n" then brakes.(max_force_n)
        else next
    | None => next
    end
  else next.

Definition get_value_electronics (block : option (Electronics D)) (parts : list string)
           (next : option D) : option D :=
  if part parts 1 =? "electronics" then
    match block with
    | Some elec =>
        if (List.length parts <? 3)%nat then None
        else
          return_int (part parts 2 =? "tc_level") elec.(tc_level)
            (return_int (part parts 2 =? "abs_level") elec.(abs_level)
               (return_int (part parts 2 =? "engine_map") elec.(engine_map)
                  (if part parts 2 =? "pit_limiter_kph" then elec.(pit_limiter_kph)
                   else next)))
    | None => next
    end
  else next.

Definition get_value_fuel (block : option (Fuel D)) (parts : list string)
           (next : option D) : option D :=
  if part parts 1 =? "fuel" then
    match block with
    | Some fuel =>
        if (List.length parts <? 3)%nat then None
        else if part parts 2 =? "start_fuel_l" then fuel.(start_fuel_l)
        else if part parts 2 =? "per_lap_consumption_l" then fuel.(per_lap_consumption_l)
        else return_int (part parts 2 =? "stint_target_laps") fuel.(stint_target_laps) next
    | None => next
    end
  else next.

Definition get_value (orsf : ORSF D) (path : string) : option D :=
  let parts := split_path path in
  if empty parts then None
  else if negb (part parts 0 =? "setup") then None
  else if (List.length parts <? 2)%nat then None
  else
    get_value_aero orsf.(setup).(aero) parts
      (get_value_suspension orsf.(setup).(suspension) parts
         (get_value_tires orsf.(setup).(tires) parts
            (get_value_drivetrain orsf.(setup).(drivetrain) parts
               (get_value_brakes orsf.(setup).(brakes) parts
                  (get_value_electronics orsf.(setup).(electronics) parts
                     (get_value_fuel orsf.(setup).(fuel) parts None)))))).

(** *** set_value *)

(** [if (!opt.has_value()) opt = T{}; auto& x = opt.value();] *)
Definition value_or_default {T} (opt : option T) (default : T) : T :=
  match opt with
  | Some x => x
  | None => default
  end.

Definition set_value (orsf : ORSF D) (path : string) (value : D) : ORSF D :=
  let parts := split_path path in
  if empty parts || negb (part parts 0 =? "setup") || (List.length parts <? 3)%nat then
    orsf (* Invalid path *)
  else
    let section := part parts 1 in
    let field := part parts 2 in
    if section =? "aero" then
      let aero := value_or_default orsf.(setup).(aero) Aerodynamics_default in
      let aero :=
        if field =? "front_wing" then set_front_wing aero (Some value)
        else if field =? "rear_wing" then set_rear_wing aero (Some value)
        else if field =? "front_downforce_n" then set_front_downforce_n aero (Some value)
        else if field =? "rear_downforce_n" then set_rear_downforce_n aero (Some value)
        else if field =? "front_ride_height_mm" then set_front_ride_height_mm aero (Some value)
        else if field =? "rear_ride_height_mm" then set_rear_ride_height_mm aero (Some value)
        else if field =? "rake_mm" then set_rake_mm aero (Some value)
        else if field =? "brake_duct_front_pct" then set_brake_duct_front_pct aero (Some value)
        else if field =? "brake_duct_rear_pct" then set_brake_duct_rear_pct aero (Some value)
        else if field =? "radiator_opening_pct" then set_radiator_opening_pct aero (Some value)
        else aero in
      set_setup orsf (set_aero orsf.(setup) (Some aero))
    else if section =? "tires" then
      let tires := value_or_default orsf.(setup).(tires) Tires_default in
      let tires :=
        if field =? "pressure_fl_kpa" then set_pressure_fl_kpa tires (Some value)
        else if field =? "pressure_fr_kpa" then set_pressure_fr_kpa tires (Some value)
        else if field =? "pressure_rl_kpa" then set_pressure_rl_kpa tires (Some value)
        else if field =? "pressure_rr_kpa" then set_pressure_rr_kpa tires (Some value)
        else if field =? "stagger_mm" then set_stagger_mm tires (Some value)
        else tires in
      set_setup orsf (set_tires orsf.(setup) (Some tires))
    else if section =? "brakes" then
      let brakes := value_or_default orsf.(setup).(brakes) Brakes_default in
      let brakes :=
        if field =? "brake_bias_pct" then set_brake_bias_pct brakes (Some value)
        else if field =? "max_force_n" then set_max_force_n brakes (Some value)
        else brakes in
      set_setup orsf (set_brakes orsf.(setup) (Some brakes))
    else orsf.

(** *** Flatten helpers

    Each helper takes the map it writes into and returns it. *)

(** [add_optional<T>], with the [static_cast<double>] of [T] as [cast]. *)
Definition add_optional {T} (cast : T -> D) (flat : FlatSetup) (key : string)
           (value : option T) : FlatSetup :=
  match value with
  | Some v => flat_assign key (cast v) flat
  | None => flat
  end.

Definition of_double (d : D) : D := d.

Definition flatten_aero (aero : option (Aerodynamics D)) (flat : FlatSetup) : FlatSetup :=
  match aero with
  | None => flat
  | Some aero =>
      let flat := add_optional of_double flat "setup.aero.front_wing" aero.(front_wing) in
      let flat := add_optional of_double flat "setup.aero.rear_wing" aero.(rear_wing) in
      let flat := add_optional of_double flat "setup.aero.front_downforce_n" aero.(front_downforce_n) in
      let flat := add_optional of_double flat "setup.aero.rear_downforce_n" aero.(rear_downforce_n) in
      let flat := add_optional of_double flat "setup.aero.front_ride_height_mm" aero.(front_ride_height_mm) in
      let flat := add_optional of_double flat "setup.aero.rear_ride_height_mm" aero.(rear_ride_height_mm) in
      let flat := add_optional of_double flat "setup.aero.rake_mm" aero.(rake_mm) in
      let flat := add_optional of_double flat "setup.aero.brake_duct_front_pct" aero.(brake_duct_front_pct) in
      let flat := add_optional of_double flat "setup.aero.brake_duct_rear_pct" aero.(brake_duct_rear_pct) in
      add_optional of_double flat "setup.aero.radiator_opening_pct" aero.(radiator_opening_pct)
  end.

Definition flatten_corner (corner : option (CornerSuspension D)) (prefix : string)
           (flat : FlatSetup) : FlatSetup :=
  match corner with
  | None => flat
  | Some corner =>
      let flat := add_optional of_double flat (prefix ++ ".camber_deg") corner.(camber_deg) in
      let flat := add_optional of_double flat (prefix ++ ".toe_deg") corner.(toe_deg) in
      let flat := add_optional of_double flat (prefix ++ ".caster_deg") corner.(caster_deg) in
      let flat := add_optional of_double flat (prefix ++ ".spring_rate_n_mm") corner.(spring_rate_n_mm) in
      let flat := add_optional of_double flat (prefix ++ ".ride_height_mm") corner.(ride_height_mm) in
      let flat := add_optional of_double flat (prefix ++ ".bumpstop_gap_mm") corner.(bumpstop_gap_mm) in
      let flat := add_optional of_double flat (prefix ++ ".bumpstop_rate_n_mm") corner.(bumpstop_rate_n_mm) in
      let flat := add_optional of_double flat (prefix ++ ".packer_mm") corner.(packer_mm) in
      let flat := add_optional of_double flat (prefix ++ ".damper_bump_slow_n_s_m") corner.(damper_bump_slow_n_s_m) in
      let flat := add_optional of_double flat (prefix ++ ".damper_bump_fast_n_s_m") corner.(damper_bump_fast_n_s_m) in
      let flat := add_optional of_double flat (prefix ++ ".damper_rebound_slow_n_s_m") corner.(damper_rebound_slow_n_s_m) in
      add_optional of_double flat (prefix ++ ".damper_rebound_fast_n_s_m") corner.(damper_rebound_fast_n_s_m)
  end.

Definition flatten_suspension (susp : option (Suspension D)) (flat : FlatSetup) : FlatSetup :=
  match susp with
  | None => flat
  | Some susp =>
      let flat := flatten_corner susp.(front_left) "setup.suspension.front_left" flat in
      let flat := flatten_corner susp.(front_right) "setup.suspension.front_right" flat in
      let flat := flatten_corner susp.(rear_left) "setup.suspension.rear_left" flat in
      let flat := flatten_corner susp.(rear_right) "setup.suspension.rear_right" flat in
      let flat := add_optional of_double flat "setup.suspension.front_arb" susp.(front_arb) in
      let flat := add_optional of_double flat "setup.suspension.rear_arb" susp.(rear_arb) in
      let flat := add_optional of_double flat "setup.suspension.heave_spring_n_mm" susp.(heave_spring_n_mm) in
      add_optional of_double flat "setup.suspension.heave_packer_mm" susp.(heave_packer_mm)
  end.

Definition flatten_tires (tires : option (Tires D)) (flat : FlatSetup) : FlatSetup :=
  match tires with
  | None => flat
  | Some tires =>
      let flat := add_optional of_double flat "setup.tires.pressure_fl_kpa" tires.(pressure_fl_kpa) in
      let flat := add_optional of_double flat "setup.tires.pressure_fr_kpa" tires.(pressure_fr_kpa) in
      let flat := add_optional of_double flat "setup.tires.pressure_rl_kpa" tires.(pressure_rl_kpa) in
      let flat := add_optional of_double flat "setup.tires.pressure_rr_kpa" tires.(pressure_rr_kpa) in
      add_optional of_double flat "setup.tires.stagger_mm" tires.(stagger_mm)
  end.

Definition flatten_drivetrain (drivetrain : option (Drivetrain D)) (flat : FlatSetup) : FlatSetup :=
  match drivetrain with
  | None => flat
  | Some drivetrain =>
      let flat := add_optional of_double flat "setup.drivetrain.diff_preload_nm" drivetrain.(diff_preload_nm) in
      let flat := add_optional of_double flat "setup.drivetrain.diff_power_ramp_pct" drivetrain.(diff_power_ramp_pct) in
      let flat := add_optional of_double flat "setup.drivetrain.diff_coast_ramp_pct" drivetrain.(diff_coast_ramp_pct) in
      let flat := add_optional of_double flat "setup.drivetrain.final_drive_ratio" drivetrain.(final_drive_ratio) in
      add_optional dint flat "setup.drivetrain.lsd_clutch_plates" drivetrain.(lsd_clutch_plates)
  end.

(** The loop [for (size_t i = 0; i < ratios.size(); ++i)], from index [i]
    on the ratios still to write. *)
Fixpoint flatten_gear_ratios (i : nat) (ratios : list D) (flat : FlatSetup) : FlatSetup :=
  match ratios with
  | [] => flat
  | ratio :: rest =>
      flatten_gear_ratios (S i) rest
        (flat_assign ("setup.gearing.gear_" ++ string_of_nat i) ratio flat)
  end.

Definition flatten_gearing (gearing : option (Gearing D)) (flat : FlatSetup) : FlatSetup :=
  match gearing with
  | None => flat
  | Some gearing =>
      let flat := match gearing.(gear_ratios) with
                  | Some ratios => flatten_gear_ratios 0 ratios flat
                  | None => flat
                  end in
      add_optional of_double flat "setup.gearing.reverse_ratio" gearing.(reverse_ratio)
  end.

Definition flatten_brakes (brakes : option (Brakes D)) (flat : FlatSetup) : FlatSetup :=
  match brakes with
  | None => flat
  | Some brakes =>
      let flat := add_optional of_double flat "setup.brakes.brake_bias_pct" brakes.(brake_bias_pct) in
      add_optional of_double flat "setup.brakes.max_force_n" brakes.(max_force_n)
  end.

Definition flatten_electronics (electronics : option (Electronics D)) (flat : FlatSetup) : FlatSetup :=
  match electronics with
  | None => flat
  | Some electronics =>
      let flat := add_optional dint flat "setup.electronics.tc_level" electronics.(tc_level) in
      let flat := add_optional dint flat "setup.electronics.tc2_level" electronics.(tc2_level) in
      let flat := add_optional dint flat "setup.electronics.abs_level" electronics.(abs_level) in
      let flat := add_optional dint flat "setup.electronics.engine_map" electronics.(engine_map) in
      let flat := add_optional dint flat "setup.electronics.engine_brake_level" electronics.(engine_brake_level) in
      add_optional of_double flat "setup.electronics.pit_limiter_kph" electronics.(pit_limiter_kph)
  end.

Definition flatten_fuel (fuel : option (Fuel D)) (flat : FlatSetup) : FlatSetup :=
  match fuel with
  | None => flat
  | Some fuel =>
      let flat := add_optional of_double flat "setup.fuel.start_fuel_l" fuel.(start_fuel_l) in
      let flat := add_optional of_double flat "setup.fuel.per_lap_consumption_l" fuel.(per_lap_consumption_l) in
      let flat := add_optional dint flat "setup.fuel.stint_target_laps" fuel.(stint_target_laps) in
      add_optional dint flat "setup.fuel.mixture_setting" fuel.(mixture_setting)
  end.

(** *** The engine *)

Definition flatten_orsf (orsf : ORSF D) : FlatSetup :=
  let flat := flat_empty in
  let flat := flatten_aero orsf.(setup).(aero) flat in
  let flat := flatten_suspension orsf.(setup).(suspension) flat in
  let flat := flatten_tires orsf.(setup).(tires) flat in
  let flat := flatten_drivetrain orsf.(setup).(drivetrain) flat in
  let flat := flatten_gearing orsf.(setup).(gearing) flat in
  let flat := flatten_brakes orsf.(setup).(brakes) flat in
  let flat := flatten_electronics orsf.(setup).(electronics) flat in
  flatten_fuel orsf.(setup).(fuel) flat.

(** [for (const auto& [key, value] : flat) set_value(result, key, value);] *)
Definition inflate_orsf (flat : FlatSetup) (template_orsf : ORSF D) : ORSF D :=
  fold_left (fun result entry => set_value result (fst entry) (snd entry))
            flat template_orsf.

(** [optional_transform.value()(x)] when there is one, [x] otherwise. *)
Definition apply_transform (transform : option (TransformFunc D)) (x : D) : except D :=
  match transform with
  | Some f => f x
  | None => Ok x
  end.

(** The loop of [map_to_native] over the mappings still to apply, [native]
    being the map built so far. A [throw] leaves the function: the map
    built so far is lost with it. *)
Fixpoint map_to_native_from (orsf : ORSF D) (mappings : list FieldMapping)
         (native : FlatSetup) : except FlatSetup :=
  match mappings with
  | [] => Ok native
  | mapping :: rest =>
      match get_value orsf mapping.(orsf_path) with
      | Some value =>
          (mapped_value <- apply_transform mapping.(to_native) value ;;
           map_to_native_from orsf rest
             (flat_assign mapping.(native_key) mapped_value native))%except
      | None =>
          if mapping.(required) then
            Throw (runtime_error ("Required field missing: " ++ mapping.(orsf_path)))
          else map_to_native_from orsf rest native
      end
  end.

Definition map_to_native (orsf : ORSF D) (mappings : list FieldMapping) : except FlatSetup :=
  map_to_native_from orsf mappings flat_empty.

Fixpoint map_to_orsf_from (native : FlatSetup) (mappings : list FieldMapping)
         (result : ORSF D) : except (ORSF D) :=
  match mappings with
  | [] => Ok result
  | mapping :: rest =>
      match flat_find mapping.(native_key) native with
      | Some value =>
          (value <- apply_transform mapping.(to_orsf) value ;;
           map_to_orsf_from native rest (set_value result mapping.(orsf_path) value))%except
      | None =>
          if mapping.(required) then
            Throw (runtime_error ("Required native field missing: " ++ mapping.(native_key)))
          else map_to_orsf_from native rest result
      end
  end.

Definition map_to_orsf (native : FlatSetup) (mappings : list FieldMapping)
           (template_orsf : ORSF D) : except (ORSF D) :=
  map_to_orsf_from native mappings template_orsf.
End Mapping.

Arguments FlatSetup D : clear implicits.
Arguments FieldMapping D : clear implicits.

(* ------------------------------------------------------------------ *)
(** ** validator.hpp / validator.cpp *)

Inductive ValidationSeverity : Type := Error | Warning | Info.

Inductive ValidationCode : Type :=
| Required | OutOfRange | InvalidFormat | Incompatible | Deprecated | SchemaInvalid.

Record ValidationError : Type := {
  severity : ValidationSeverity;
  code : ValidationCode;
  field : string;
  message : string;
  expected : option string;
  actual : option string
}.

(** [ValidationError::to_string]. *)
Definition ValidationError_to_string (e : ValidationError) : string :=
  let prefix := match e.(severity) with
                | Error => "[ERROR] "
                | Warning => "[WARN]  "
                | Info => "[INFO]  "
                end in
  let values := match e.(expected), e.(actual) with
                | Some exp, Some act => " (expected: " ++ exp ++ ", actual: " ++ act ++ ")"
                | Some exp, None => " (expected: " ++ exp ++ ")"
                | None, _ => ""
                end in
  prefix ++ e.(field) ++ ": " ++ e.(message) ++ values.

(** The functions of the validator take the vector of findings by reference
    and may throw: a computation from the vector before to a result and the
    vector after, or an exception. *)
Definition V (A : Type) : Type :=
  list ValidationError -> except (A * list ValidationError).

Definition V_ret {A} (a : A) : V A := fun errors => Ok (a, errors).

Definition V_bind {A B} (m : V A) (k : A -> V B) : V B :=
  fun errors =>
    match m errors with
    | Ok (a, errors') => k a errors'
    | Throw e => Throw e
    end.

Declare Scope validator_scope.
Delimit Scope validator_scope with V.
Notation "x <- m ;; k" := (V_bind m (fun x => k))
  (at level 61, m at next level, right associativity) : validator_scope.
Notation "m ;; k" := (V_bind m (fun _ => k))
  (at level 61, right associativity) : validator_scope.

(** [errors.push_back(e)]. *)
Definition push_back (e : ValidationError) : V unit :=
  fun errors => Ok (tt, errors ++ [e])%list.

Definition has_value {A} (o : option A) : bool :=
  match o with
  | Some _ => true
  | None => false
  end.

(** [o.value()]: throws on an empty optional. *)
Definition value {A} (o : option A) : V A :=
  fun errors =>
    match o with
    | Some a => Ok (a, errors)
    | None => Throw bad_optional_access
    end.

(** [if (c) { body }]. *)
Definition when (c : bool) (body : V unit) : V unit :=
  if c then body else V_ret tt.

Section Validator.
Context {D : Type} `{Double D}.
Local Open Scope validator_scope.

(** *** Helper functions *)

Definition check_required (field : string) (is_present : bool) : V unit :=
  when (negb is_present)
    (push_back {| severity := Error; code := Required; field := field;
                  message := "Required field is missing";
                  expected := None; actual := None |}).

Definition check_range (field : string) (value min max : D)
           (severity : ValidationSeverity) : V unit :=
  when ((value <? min)%D || (value >? max)%D)
    (let expected := d_put min ++ " to " ++ d_put max in
     push_back {| severity := severity; code := OutOfRange; field := field;
                  message := "Value out of range";
                  expected := Some expected;
                  actual := Some (d_to_string value) |}).

Definition check_percentage (field : string) (value : D) : V unit :=
  check_range field value (dlit 0.0) (dlit 100.0) Error.

Definition check_positive (field : string) (value : D) : V unit :=
  when (value <=? dlit 0.0)%D
    (push_back {| severity := Error; code := OutOfRange; field := field;
                  message := "Value must be positive";
                  expected := Some "> 0";
                  actual := Some (d_to_string value) |}).

Definition check_non_negative (field : string) (value : D) : V unit :=
  when (value <? dlit 0.0)%D
    (push_back {| severity := Error; code := OutOfRange; field := field;
                  message := "Value must be non-negative";
                  expected := Some ">= 0";
                  actual := Some (d_to_string value) |}).

Definition check_iso8601 (field : string) (value : string) : V unit :=
  when (negb (is_valid_iso8601 value))
    (push_back {| severity := Warning; code := InvalidFormat; field := field;
                  message := "Invalid ISO8601 timestamp format";
                  expected := Some "YYYY-MM-DDTHH:MM:SS(.sss)?(Z|[+-]HH:MM)?";
                  actual := Some value |}).

(** *** The checks *)

Definition validate_schema (orsf : ORSF D) : V unit :=
  when (negb (orsf.(schema) =? "orsf://v1"))
    (push_back {| severity := Error; code := SchemaInvalid; field := "schema";
                  message := "Invalid schema version";
                  expected := Some "orsf://v1";
                  actual := Some orsf.(schema) |}).

Definition validate_metadata (metadata : Metadata) : V unit :=
  check_required "metadata.id" (negb (metadata.(id) =? "")) ;;
  check_required "metadata.name" (negb (metadata.(name) =? "")) ;;
  check_required "metadata.created_at" (negb (metadata.(created_at) =? "")) ;;
  when (negb (metadata.(created_at) =? ""))
    (check_iso8601 "metadata.created_at" metadata.(created_at)) ;;
  when (has_value metadata.(updated_at))
    (updated <- value metadata.(updated_at) ;;
     when (negb (updated =? ""))
       (updated <- value metadata.(updated_at) ;;
        check_iso8601 "metadata.updated_at" updated)) ;;
  when (has_value metadata.(updated_at))
    (updated <- value metadata.(updated_at) ;;
     when (String.ltb updated metadata.(created_at))
       (push_back {| severity := Warning; code := Incompatible;
                     field := "metadata.updated_at";
                     message := "Updated timestamp is before created timestamp";
                     expected := None; actual := None |})).

Definition valid_classes : list string :=
  ["GT3"; "GTE"; "LMP2"; "LMDh"; "GT4"; "TCR"; "F1"; "F2"; "F3"; "F4"; "Formula"].

Definition validate_car (car : Car) : V unit :=
  check_required "car.make" (negb (car.(make) =? "")) ;;
  check_required "car.model" (negb (car.(model) =? "")) ;;
  when (has_value car.(car_class))
    (class <- value car.(car_class) ;;
     let valid := existsb (fun cls => class =? cls) valid_classes in
     when (negb valid)
       (class <- value car.(car_class) ;;
        push_back {| severity := Warning; code := InvalidFormat;
                     field := "car.class";
                     message := "Unknown car class: " ++ class;
                     expected := None; actual := None |})).

Definition valid_levels : list string :=
  ["green"; "low"; "medium"; "high"; "saturated"].

Definition validate_context (context : option (Context_ D)) : V unit :=
  if negb (has_value context) then V_ret tt
  else
    ctx <- value context ;;
    when (has_value ctx.(ambient_temp_c))
      (v <- value ctx.(ambient_temp_c) ;;
       check_range "context.ambient_temp_c" v (dlit (-50.0)) (dlit 70.0) Warning) ;;
    when (has_value ctx.(track_temp_c))
      (v <- value ctx.(track_temp_c) ;;
       check_range "context.track_temp_c" v (dlit (-20.0)) (dlit 80.0) Warning) ;;
    when (has_value ctx.(wetness))
      (v <- value ctx.(wetness) ;;
       check_range "context.wetness" v (dlit 0.0) (dlit 1.0) Error) ;;
    when (has_value ctx.(rubber))
      (level <- value ctx.(rubber) ;;
       let valid := existsb (fun l => level =? l) valid_levels in
       when (negb valid)
         (level <- value ctx.(rubber) ;;
          push_back {| severity := Warning; code := InvalidFormat;
                       field := "context.rubber";
                       message := "Unknown rubber level: " ++ level;
                       expected := None; actual := None |})).

(** [if (member.has_value()) check(name, member.value(), errors);] *)
Definition check_present (member : option D) (check : D -> V unit) : V unit :=
  when (has_value member) (v <- value member ;; check v).

Definition validate_aero (aero : option (Aerodynamics D)) : V unit :=
  if negb (has_value aero) then V_ret tt
  else
    a <- value aero ;;
    check_present a.(front_ride_height_mm) (check_positive "setup.aero.front_ride_height_mm") ;;
    check_present a.(rear_ride_height_mm) (check_positive "setup.aero.rear_ride_height_mm") ;;
    check_present a.(brake_duct_front_pct) (check_percentage "setup.aero.brake_duct_front_pct") ;;
    check_present a.(brake_duct_rear_pct) (check_percentage "setup.aero.brake_duct_rear_pct") ;;
    check_present a.(radiator_opening_pct) (check_percentage "setup.aero.radiator_opening_pct") ;;
    check_present a.(front_downforce_n) (check_non_negative "setup.aero.front_downforce_n") ;;
    check_present a.(rear_downforce_n) (check_non_negative "setup.aero.rear_downforce_n").

Definition validate_corner_suspension (corner : option (CornerSuspension D))
           (corner_name : string) : V unit :=
  if negb (has_value corner) then V_ret tt
  else
    c <- value corner ;;
    check_present c.(camber_deg)
      (fun v => check_range (corner_name ++ ".camber_deg") v (dlit (-10.0)) (dlit 5.0) Warning) ;;
    check_present c.(spring_rate_n_mm) (check_positive (corner_name ++ ".spring_rate_n_mm")) ;;
    check_present c.(ride_height_mm) (check_positive (corner_name ++ ".ride_height_mm")) ;;
    check_present c.(bumpstop_gap_mm) (check_non_negative (corner_name ++ ".bumpstop_gap_mm")) ;;
    check_present c.(bumpstop_rate_n_mm) (check_positive (corner_name ++ ".bumpstop_rate_n_mm")) ;;
    check_present c.(damper_bump_slow_n_s_m)
      (check_non_negative (corner_name ++ ".damper_bump_slow_n_s_m")) ;;
    check_present c.(damper_bump_fast_n_s_m)
      (check_non_negative (corner_name ++ ".damper_bump_fast_n_s_m")) ;;
    check_present c.(damper_rebound_slow_n_s_m)
      (check_non_negative (corner_name ++ ".damper_rebound_slow_n_s_m")) ;;
    check_present c.(damper_rebound_fast_n_s_m)
      (check_non_negative (corner_name ++ ".damper_rebound_fast_n_s_m")).

Definition validate_suspension (suspension : option (Suspension D)) : V unit :=
  if negb (has_value suspension) then V_ret tt
  else
    s <- value suspension ;;
    validate_corner_suspension s.(front_left) "setup.suspension.front_left" ;;
    validate_corner_suspension s.(front_right) "setup.suspension.front_right" ;;
    validate_corner_suspension s.(rear_left) "setup.suspension.rear_left" ;;
    validate_corner_suspension s.(rear_right) "setup.suspension.rear_right" ;;
    check_present s.(heave_spring_n_mm) (check_positive "setup.suspension.heave_spring_n_mm").

Definition check_pressure (field : string) (v : D) : V unit :=
  check_range field v (dlit 50.0) (dlit 400.0) Warning.

Definition validate_tires (tires : option (Tires D)) : V unit :=
  if negb (has_value tires) then V_ret tt
  else
    t <- value tires ;;
    check_present t.(pressure_fl_kpa) (check_pressure "setup.tires.pressure_fl_kpa") ;;
    check_present t.(pressure_fr_kpa) (check_pressure "setup.tires.pressure_fr_kpa") ;;
    check_present t.(pressure_rl_kpa) (check_pressure "setup.tires.pressure_rl_kpa") ;;
    check_present t.(pressure_rr_kpa) (check_pressure "setup.tires.pressure_rr_kpa").

(** [if (member.has_value()) { if (member.value() <= 0) push_back(...) }]
    on an [int] member. *)
Definition check_positive_int (member : option Z) (field message : string) : V unit :=
  when (has_value member)
    (n <- value member ;;
     when (n <=? 0)%Z
       (push_back {| severity := Error; code := OutOfRange; field := field;
                     message := message; expected := None; actual := None |})).

Definition validate_drivetrain (drivetrain : option (Drivetrain D)) : V unit :=
  if negb (has_value drivetrain) then V_ret tt
  else
    d <- value drivetrain ;;
    check_present d.(diff_preload_nm) (check_non_negative "setup.drivetrain.diff_preload_nm") ;;
    check_present d.(diff_power_ramp_pct) (check_percentage "setup.drivetrain.diff_power_ramp_pct") ;;
    check_present d.(diff_coast_ramp_pct) (check_percentage "setup.drivetrain.diff_coast_ramp_pct") ;;
    check_present d.(final_drive_ratio) (check_positive "setup.drivetrain.final_drive_ratio") ;;
    check_positive_int d.(lsd_clutch_plates) "setup.drivetrain.lsd_clutch_plates"
      "LSD clutch plates must be positive".

(** The loop [for (size_t i = 0; i < ratios.size(); ++i)], from index [i]
    on the ratios still to check. *)
Fixpoint validate_gear_ratios (i : nat) (ratios : list D) : V unit :=
  match ratios with
  | [] => V_ret tt
  | ratio :: rest =>
      when (ratio <=? dlit 0.0)%D
        (push_back {| severity := Error; code := OutOfRange;
                      field := "setup.gearing.gear_ratios[" ++ string_of_nat i ++ "]";
                      message := "Gear ratio must be positive";
                      expected := None; actual := None |}) ;;
      validate_gear_ratios (S i) rest
  end.

Definition validate_gearing (gearing : option (Gearing D)) : V unit :=
  if negb (has_value gearing) then V_ret tt
  else
    g <- value gearing ;;
    when (has_value g.(gear_ratios))
      (ratios <- value g.(gear_ratios) ;;
       when (empty ratios)
         (push_back {| severity := Warning; code := InvalidFormat;
                       field := "setup.gearing.gear_ratios";
                       message := "Gear ratios array is empty";
                       expected := None; actual := None |}) ;;
       validate_gear_ratios 0 ratios) ;;
    check_present g.(reverse_ratio) (check_positive "setup.gearing.reverse_ratio").

Definition validate_brakes (brakes : option (Brakes D)) : V unit :=
  if negb (has_value brakes) then V_ret tt
  else
    b <- value brakes ;;
    check_present b.(brake_bias_pct) (check_percentage "setup.brakes.brake_bias_pct") ;;
    check_present b.(max_force_n) (check_positive "setup.brakes.max_force_n").

Definition validate_electronics (electronics : option (Electronics D)) : V unit :=
  if negb (has_value electronics) then V_ret tt
  else
    e <- value electronics ;;
    check_present e.(pit_limiter_kph) (check_positive "setup.electronics.pit_limiter_kph").

Definition validate_fuel (fuel : option (Fuel D)) : V unit :=
  if negb (has_value fuel) then V_ret tt
  else
    f <- value fuel ;;
    check_present f.(start_fuel_l) (check_non_negative "setup.fuel.start_fuel_l") ;;
    check_present f.(per_lap_consumption_l) (check_positive "setup.fuel.per_lap_consumption_l") ;;
    check_positive_int f.(stint_target_laps) "setup.fuel.stint_target_laps"
      "Stint target laps must be positive".

Definition validate_setup (setup : Setup D) : V unit :=
  validate_aero setup.(aero) ;;
  validate_suspension setup.(suspension) ;;
  validate_tires setup.(tires) ;;
  validate_drivetrain setup.(drivetrain) ;;
  validate_gearing setup.(gearing) ;;
  validate_brakes setup.(brakes) ;;
  validate_electronics setup.(electronics) ;;
  validate_fuel setup.(fuel).

Definition validate_cross_field (orsf : ORSF D) : V unit :=
  when (has_value orsf.(context))
    (ctx <- value orsf.(context) ;;
     when (has_value ctx.(ambient_temp_c) && has_value ctx.(track_temp_c))
       (ambient <- value ctx.(ambient_temp_c) ;;
        track <- value ctx.(track_temp_c) ;;
        when (track <? ambient - dlit 5.0)%D
          (push_back {| severity := Warning; code := Incompatible;
                        field := "context.track_temp_c";
                        message := "Track temperature is significantly lower than ambient temperature";
                        expected := None; actual := None |}) ;;
        when (track >? ambient + dlit 40.0)%D
          (push_back {| severity := Warning; code := Incompatible;
                        field := "context.track_temp_c";
                        message := "Track temperature is unusually high compared to ambient";
                        expected := None; actual := None |}))).

(** The six checks in the order [validate] calls them. *)
Definition validate_body (orsf : ORSF D) : V unit :=
  validate_schema orsf ;;
  validate_metadata orsf.(metadata) ;;
  validate_car orsf.(car) ;;
  validate_context orsf.(context) ;;
  validate_setup orsf.(setup) ;;
  validate_cross_field orsf.

(** [Validator::validate]: a fresh vector, the checks, the vector. *)
Definition validate (orsf : ORSF D) : except (list ValidationError) :=
  match validate_body orsf [] with
  | Ok (_, errors) => Ok errors
  | Throw e => Throw e
  end.
End Validator.

(* ------------------------------------------------------------------ *)
(** ** Two implementations of [std::sort]

    Both are insertion sorts and both meet the standard's contract. They
    differ on equivalent elements only: the first keeps them in the order
    given, the second reverses them. *)

Section InsertionSorts.
Context {A : Type} (comp : A -> A -> bool).

(** Insert before the first element that is not below [x]. *)
Fixpoint insert_first (x : A) (l : list A) : list A :=
  match l with
  | [] => [x]
  | y :: l' => if comp y x then y :: insert_first x l' else x :: l
  end.

(** Insert before the first element that is above [x]. *)
Fixpoint insert_last (x : A) (l : list A) : list A :=
  match l with
  | [] => [x]
  | y :: l' => if comp x y then x :: l else y :: insert_last x l'
  end.

Definition stable_insertion_sort (l : list A) : list A :=
  fold_right insert_first [] l.

Definition reversing_insertion_sort (l : list A) : list A :=
  fold_right insert_last [] l.

Lemma insert_first_permutation x l : Permutation (x :: l) (insert_first x l).
Proof.
  induction l as [|y l IH]; simpl; [reflexivity|].
  destruct (comp y x); [|reflexivity].
  rewrite perm_swap. now apply perm_skip.
Qed.

Lemma insert_last_permutation x l : Permutation (x :: l) (insert_last x l).
Proof.
  induction l as [|y l IH]; simpl; [reflexivity|].
  destruct (comp x y); [reflexivity|].
  rewrite perm_swap. now apply perm_skip.
Qed.

Lemma stable_insertion_sort_permutation l : Permutation l (stable_insertion_sort l).
Proof.
  induction l as [|x l IH]; simpl; [constructor|].
  rewrite <- insert_first_permutation. now apply perm_skip.
Qed.

Lemma reversing_insertion_sort_permutation l :
  Permutation l (reversing_insertion_sort l).
Proof.
  induction l as [|x l IH]; simpl; [constructor|].
  rewrite <- insert_last_permutation. now apply perm_skip.
Qed.

Hypothesis comp_order : strict_weak_order comp.

Lemma comp_asym a b : comp a b = true -> comp b a = false.
Proof.
  destruct comp_order as (irr & trans & _). intros Hab.
  destruct (comp b a) eqn:Hba; [|reflexivity].
  rewrite <- (irr a). symmetry. now apply trans with b.
Qed.

Lemma insert_first_hd a x l :
  comp x a = false ->
  HdRel (fun a b => comp b a = false) a l ->
  HdRel (fun a b => comp b a = false) a (insert_first x l).
Proof.
  intros Hax Hl. destruct l as [|y l]; simpl; [now constructor|].
  destruct (comp y x); constructor; [now inversion Hl | assumption].
Qed.

Lemma insert_first_sorted x l :
  non_descending comp l -> non_descending comp (insert_first x l).
Proof.
  unfold non_descending. induction 1 as [|y l Hs IH Hhd]; simpl.
  - repeat constructor.
  - destruct (comp y x) eqn:Hyx.
    + constructor; [assumption|]. apply insert_first_hd; [|assumption].
      now apply comp_asym.
    + constructor; [now constructor | now constructor].
Qed.

Lemma insert_last_hd a x l :
  comp x a = false ->
  HdRel (fun a b => comp b a = false) a l ->
  HdRel (fun a b => comp b a = false) a (insert_last x l).
Proof.
  intros Hax Hl. destruct l as [|y l]; simpl; [now constructor|].
  destruct (comp x y); constructor; [assumption | now inversion Hl].
Qed.

Lemma insert_last_sorted x l :
  non_descending comp l -> non_descending comp (insert_last x l).
Proof.
  unfold non_descending. induction 1 as [|y l Hs IH Hhd]; simpl.
  - repeat constructor.
  - destruct (comp x y) eqn:Hxy.
    + constructor; [now constructor|]. constructor. now apply comp_asym.
    + constructor; [assumption|]. now apply insert_last_hd.
Qed.

Lemma stable_insertion_sort_sorted l : non_descending comp (stable_insertion_sort l).
Proof.
  induction l as [|x l IH]; simpl; [constructor|]. now apply insert_first_sorted.
Qed.

Lemma reversing_insertion_sort_sorted l :
  non_descending comp (reversing_insertion_sort l).
Proof.
  induction l as [|x l IH]; simpl; [constructor|]. now apply insert_last_sorted.
Qed.
End InsertionSorts.

Definition stable_sort : StdSort := {|
  std_sort := @stable_insertion_sort;
  std_sort_permutation := @stable_insertion_sort_permutation;
  std_sort_sorted := fun A comp l ord => @stable_insertion_sort_sorted A comp ord l
|}.

Definition reversing_sort : StdSort := {|
  std_sort := @reversing_insertion_sort;
  std_sort_permutation := @reversing_insertion_sort_permutation;
  std_sort_sorted := fun A comp l ord => @reversing_insertion_sort_sorted A comp ord l
|}.

(* ================================================================== *)
(** * Properties *)

(* ------------------------------------------------------------------ *)
(** ** Flat maps *)

Section FlatMapFacts.
Context {D : Type}.

Lemma flat_find_assign (key key' : string) (value : D) (flat : FlatSetup D) :
  flat_find key' (flat_assign key value flat)
  = if String.eqb key' key then Some value else flat_find key' flat.
Proof.
  induction flat as [|[k v] rest IH]; simpl; [reflexivity|].
  destruct (String.compare key k) eqn:Hc; simpl.
  - apply String.compare_eq_iff in Hc. subst k. now destruct (String.eqb key' key).
  - reflexivity.
  - rewrite IH. destruct (String.eqb key' key) eqn:Hk; [|reflexivity].
    apply String.eqb_eq in Hk. subst key'.
    destruct (String.eqb key k) eqn:Hk'; [|reflexivity].
    apply String.eqb_eq in Hk'. subst k.
    assert (String.compare key key = Eq) as Hrefl
        by (generalize (String.compare_antisym key key);
            destruct (String.compare key key); simpl; congruence).
    congruence.
Qed.

Lemma flat_find_assign_same (key : string) (value : D) (flat : FlatSetup D) :
  flat_find key (flat_assign key value flat) = Some value.
Proof. rewrite flat_find_assign. now rewrite String.eqb_refl. Qed.

Lemma flat_find_assign_other (key key' : string) (value : D) (flat : FlatSetup D) :
  String.eqb key' key = false ->
  flat_find key' (flat_assign key value flat) = flat_find key' flat.
Proof. intros Hk. rewrite flat_find_assign. now rewrite Hk. Qed.
End FlatMapFacts.

(* ------------------------------------------------------------------ *)
(** ** Path addressing: [get_value] and [set_value] *)

Section PathAddressing.
Context {D : Type} `{Double D}.

(** The leaf names [set_value] knows, per section it handles. *)
Definition aero_fields : list string :=
  ["front_wing"; "rear_wing"; "front_downforce_n"; "rear_downforce_n";
   "front_ride_height_mm"; "rear_ride_height_mm"; "rake_mm";
   "brake_duct_front_pct"; "brake_duct_rear_pct"; "radiator_opening_pct"].

Definition tires_fields : list string :=
  ["pressure_fl_kpa"; "pressure_fr_kpa"; "pressure_rl_kpa"; "pressure_rr_kpa";
   "stagger_mm"].

Definition brakes_fields : list string := ["brake_bias_pct"; "max_force_n"].

Definition handled_sections : list string := ["aero"; "tires"; "brakes"].

Definition known_fields (section : string) : list string :=
  if section =? "aero" then aero_fields
  else if section =? "tires" then tires_fields
  else if section =? "brakes" then brakes_fields
  else [].

(** The paths [set_value] writes. *)
Definition handled_paths : list string :=
  (map (append "setup.aero.") aero_fields
   ++ map (append "setup.tires.") tires_fields
   ++ map (append "setup.brakes.") brakes_fields)%list.

(** Assigning a struct its own optional member leaves it as it was. *)
Lemma set_aero_same (doc : ORSF D) a :
  doc.(setup).(aero) = Some a ->
  set_setup doc (set_aero doc.(setup) (Some a)) = doc.
Proof. destruct doc as [? ? ? ? [] ?]; simpl. now intros ->. Qed.

Lemma set_tires_same (doc : ORSF D) t :
  doc.(setup).(tires) = Some t ->
  set_setup doc (set_tires doc.(setup) (Some t)) = doc.
Proof. destruct doc as [? ? ? ? [] ?]; simpl. now intros ->. Qed.

Lemma set_brakes_same (doc : ORSF D) b :
  doc.(setup).(brakes) = Some b ->
  set_setup doc (set_brakes doc.(setup) (Some b)) = doc.
Proof. destruct doc as [? ? ? ? [] ?]; simpl. now intros ->. Qed.

(** On the paths it handles, [set_value] assigns the leaf and [get_value]
    reads it back, whether or not the block was there. *)
Lemma get_value_set_value_handled (doc : ORSF D) (path : string) (v : D) :
  In path handled_paths -> get_value (set_value doc path v) path = Some v.
Proof.
  intros Hin. cbv [handled_paths aero_fields tires_fields brakes_fields map app] in Hin.
  cbn [In append] in Hin.
  repeat (destruct Hin as [<- | Hin]; [vm_compute; reflexivity|]).
  contradiction.
Qed.

(** A path that is empty, does not start with [setup], has fewer than
    three parts or names a section [set_value] has no branch for leaves
    the document as it was. *)
Lemma set_value_ignored (doc : ORSF D) (path : string) (v : D) :
  let parts := split_path path in
  parts = [] \/ part parts 0 <> "setup" \/ (List.length parts < 3)%nat
  \/ ~ In (part parts 1) handled_sections ->
  set_value doc path v = doc.
Proof.
  intros parts Hbad. unfold set_value. fold parts.
  destruct (empty parts) eqn:He; [reflexivity|].
  destruct (part parts 0 =? "setup") eqn:H0; [|reflexivity].
  destruct (List.length parts <? 3)%nat eqn:H3; [reflexivity|]. simpl.
  destruct Hbad as [Hnil | [Hroot | [Hlen | Hsec]]].
  - rewrite Hnil in He. discriminate.
  - apply String.eqb_eq in H0. contradiction.
  - apply Nat.ltb_ge in H3. lia.
  - destruct (part parts 1 =? "aero") eqn:Ha.
    { apply String.eqb_eq in Ha. exfalso. apply Hsec. rewrite Ha. simpl. tauto. }
    destruct (part parts 1 =? "tires") eqn:Ht.
    { apply String.eqb_eq in Ht. exfalso. apply Hsec. rewrite Ht. simpl. tauto. }
    destruct (part parts 1 =? "brakes") eqn:Hb.
    { apply String.eqb_eq in Hb. exfalso. apply Hsec. rewrite Hb. simpl. tauto. }
    reflexivity.
Qed.
End PathAddressing.

Section UnknownLeaf.
Context {D : Type} `{Double D}.

(** The document with an empty block stored for a handled section. *)
Definition install_empty_block (section : string) (doc : ORSF D) : ORSF D :=
  if section =? "aero" then
    set_setup doc (set_aero doc.(setup) (Some Aerodynamics_default))
  else if section =? "tires" then
    set_setup doc (set_tires doc.(setup) (Some Tires_default))
  else if section =? "brakes" then
    set_setup doc (set_brakes doc.(setup) (Some Brakes_default))
  else doc.

(** The document has no block for the handled section named. *)
Definition block_absent (section : string) (doc : ORSF D) : Prop :=
  (section = "aero" /\ doc.(setup).(aero) = None)
  \/ (section = "tires" /\ doc.(setup).(tires) = None)
  \/ (section = "brakes" /\ doc.(setup).(brakes) = None).

Lemma not_in_eqb (x y : string) (l : list string) :
  ~ In x l -> In y l -> (x =? y) = false.
Proof.
  intros Hx Hy. destruct (x =? y) eqn:E; [|reflexivity].
  apply String.eqb_eq in E. now subst y.
Qed.

(** Rewrite every test of [x] against a member of [l] to [false]. *)
Ltac refute_known Hnot :=
  repeat match goal with
         | |- context [String.eqb ?x ?y] =>
             rewrite (not_in_eqb x y _ Hnot) by (simpl; tauto)
         end.

Ltac split_ifs :=
  repeat match goal with
         | |- context [if ?c then _ else _] => destruct c
         end.

Lemma set_value_unknown_leaf_result (doc : ORSF D) (path : string) (v : D) :
  let parts := split_path path in
  part parts 0 = "setup" -> (3 <= List.length parts)%nat ->
  block_absent (part parts 1) doc ->
  ~ In (part parts 2) (known_fields (part parts 1)) ->
  set_value doc path v = install_empty_block (part parts 1) doc.
Proof.
  intros parts Hroot Hlen Habsent Hleaf. unfold set_value. fold parts.
  rewrite Hroot. apply Nat.ltb_ge in Hlen. rewrite Hlen.
  replace (empty parts) with false by (destruct parts; [discriminate|reflexivity]).
  cbn [String.eqb Ascii.eqb Bool.eqb negb orb]. unfold install_empty_block.
  destruct Habsent as [[Hs Hb] | [[Hs Hb] | [Hs Hb]]];
    rewrite Hs in *; cbn [String.eqb Ascii.eqb Bool.eqb] in *;
    rewrite Hb; cbn [value_or_default];
    unfold known_fields in Hleaf; cbn [String.eqb Ascii.eqb Bool.eqb] in Hleaf;
    refute_known Hleaf; reflexivity.
Qed.

Lemma install_empty_block_flatten (section : string) (doc : ORSF D) :
  block_absent section doc ->
  flatten_orsf (install_empty_block section doc) = flatten_orsf doc.
Proof.
  intros [[Hs Hb] | [[Hs Hb] | [Hs Hb]]]; subst section;
    unfold install_empty_block, flatten_orsf;
    cbn [String.eqb Ascii.eqb Bool.eqb setup set_setup set_aero set_tires set_brakes
         aero suspension tires drivetrain gearing brakes electronics fuel];
    rewrite Hb; reflexivity.
Qed.

(** A block whose section the path does not name falls through. *)
Lemma get_value_aero_skip block parts (next : option D) :
  (part parts 1 =? "aero") = false -> get_value_aero block parts next = next.
Proof. unfold get_value_aero. now intros ->. Qed.

Lemma get_value_suspension_skip block parts (next : option D) :
  (part parts 1 =? "suspension") = false -> get_value_suspension block parts next = next.
Proof. unfold get_value_suspension. now intros ->. Qed.

Lemma get_value_tires_skip block parts (next : option D) :
  (part parts 1 =? "tires") = false -> get_value_tires block parts next = next.
Proof. unfold get_value_tires. now intros ->. Qed.

Lemma get_value_drivetrain_skip block parts (next : option D) :
  (part parts 1 =? "drivetrain") = false -> get_value_drivetrain block parts next = next.
Proof. unfold get_value_drivetrain. now intros ->. Qed.

Lemma get_value_brakes_skip block parts (next : option D) :
  (part parts 1 =? "brakes") = false -> get_value_brakes block parts next = next.
Proof. unfold get_value_brakes. now intros ->. Qed.

Lemma get_value_electronics_skip block parts (next : option D) :
  (part parts 1 =? "electronics") = false -> get_value_electronics block parts next = next.
Proof. unfold get_value_electronics. now intros ->. Qed.

Lemma get_value_fuel_skip block parts (next : option D) :
  (part parts 1 =? "fuel") = false -> get_value_fuel block parts next = next.
Proof. unfold get_value_fuel. now intros ->. Qed.

(** Skip every block the section named by [Hsec] is not the section of. *)
Ltac skip_blocks Hsec :=
  rewrite ?get_value_aero_skip, ?get_value_suspension_skip, ?get_value_tires_skip,
    ?get_value_drivetrain_skip, ?get_value_brakes_skip,
    ?get_value_electronics_skip, ?get_value_fuel_skip
    by (rewrite Hsec; reflexivity).

(** An empty block reads as no value, like an absent one. *)
Lemma get_value_aero_empty parts :
  get_value_aero (D := D) (Some Aerodynamics_default) parts None = None.
Proof. unfold get_value_aero. cbn. split_ifs; reflexivity. Qed.

Lemma get_value_tires_empty parts :
  get_value_tires (D := D) (Some Tires_default) parts None = None.
Proof. unfold get_value_tires. cbn. split_ifs; reflexivity. Qed.

Lemma get_value_brakes_empty parts :
  get_value_brakes (D := D) (Some Brakes_default) parts None = None.
Proof. unfold get_value_brakes. cbn. split_ifs; reflexivity. Qed.

Lemma install_empty_block_get_value (section : string) (doc : ORSF D) (p : string) :
  block_absent section doc ->
  get_value (install_empty_block section doc) p = get_value doc p.
Proof.
  intros [[Hs Hb] | [[Hs Hb] | [Hs Hb]]]; subst section;
    unfold install_empty_block, get_value;
    cbn [String.eqb Ascii.eqb Bool.eqb];
    set (parts := split_path p);
    destruct (empty parts); [reflexivity| |reflexivity| |reflexivity|];
    destruct (negb (part parts 0 =? "setup")); [reflexivity| |reflexivity| |reflexivity|];
    destruct (List.length parts <? 2)%nat; [reflexivity| |reflexivity| |reflexivity|];
    cbn [setup set_setup set_aero set_tires set_brakes
         aero suspension tires drivetrain gearing brakes electronics fuel];
    rewrite Hb.
  - destruct (part parts 1 =? "aero") eqn:E.
    + apply String.eqb_eq in E. skip_blocks E.
      rewrite get_value_aero_empty. unfold get_value_aero. now rewrite E.
    + now rewrite !get_value_aero_skip.
  - destruct (part parts 1 =? "tires") eqn:E.
    + apply String.eqb_eq in E. skip_blocks E.
      rewrite get_value_tires_empty. unfold get_value_tires. now rewrite E.
    + now rewrite !(get_value_tires_skip _ _ _ E).
  - destruct (part parts 1 =? "brakes") eqn:E.
    + apply String.eqb_eq in E. skip_blocks E.
      rewrite get_value_brakes_empty. unfold get_value_brakes. now rewrite E.
    + now rewrite !(get_value_brakes_skip _ _ _ E).
Qed.

Lemma install_empty_block_changes (section : string) (doc : ORSF D) :
  block_absent section doc -> install_empty_block section doc <> doc.
Proof.
  intros [[Hs Hb] | [[Hs Hb] | [Hs Hb]]] Heq; subst section;
    unfold install_empty_block in Heq; cbn [String.eqb Ascii.eqb Bool.eqb] in Heq;
    rewrite <- Heq in Hb; discriminate.
Qed.

(** C10. On a path rooted at [setup] whose section is one [set_value]
    handles ([aero], [tires] or [brakes]) and whose leaf is none of that
    section's fields, [set_value] on a document without that block stores
    an empty block: the document changes, no leaf is assigned, and every
    leaf reads and flattens as before. *)
Theorem set_value_unknown_leaf_creates_block (doc : ORSF D) (path : string) (v : D) :
  let parts := split_path path in
  part parts 0 = "setup" -> (3 <= List.length parts)%nat ->
  block_absent (part parts 1) doc ->
  ~ In (part parts 2) (known_fields (part parts 1)) ->
  set_value doc path v = install_empty_block (part parts 1) doc
  /\ set_value doc path v <> doc
  /\ flatten_orsf (set_value doc path v) = flatten_orsf doc
  /\ forall p, get_value (set_value doc path v) p = get_value doc p.
Proof.
  intros parts Hroot Hlen Habsent Hleaf.
  rewrite (set_value_unknown_leaf_result doc path v Hroot Hlen Habsent Hleaf).
  repeat split.
  - now apply install_empty_block_changes.
  - now apply install_empty_block_flatten.
  - intros p. now apply install_empty_block_get_value.
Qed.
End UnknownLeaf.

Lemma set_value_unknown_leaf_creates_block_witness :
  set_value (ORSF_default : ORSF Q) "setup.aero.wing_angle" 3
  = install_empty_block "aero" ORSF_default
  /\ set_value (ORSF_default : ORSF Q) "setup.aero.wing_angle" 3 <> ORSF_default
  /\ flatten_orsf (set_value (ORSF_default : ORSF Q) "setup.aero.wing_angle" 3)
     = flatten_orsf (ORSF_default : ORSF Q)
  /\ forall p, get_value (set_value (ORSF_default : ORSF Q) "setup.aero.wing_angle" 3) p
               = get_value (ORSF_default : ORSF Q) p.
Proof.
  apply (set_value_unknown_leaf_creates_block
           (ORSF_default : ORSF Q) "setup.aero.wing_angle" 3).
  - reflexivity.
  - apply le_n.
  - left. split; reflexivity.
  - vm_compute. intuition discriminate.
Defined.

Section PathAddressingDefects.
Context {D : Type} `{Double D}.

(** A document with a gear-ratio list and nothing else. *)
Definition gearing_only (ratios : list D) : ORSF D :=
  set_setup ORSF_default
    {| aero := None; suspension := None; tires := None; drivetrain := None;
       gearing := Some {| gear_ratios := Some ratios; reverse_ratio := None |};
       brakes := None; electronics := None; fuel := None; strategy := None |}.

(** A document with a starting fuel load and nothing else. *)
Definition fuel_only (v : D) : ORSF D :=
  set_setup ORSF_default
    {| aero := None; suspension := None; tires := None; drivetrain := None;
       gearing := None; brakes := None; electronics := None;
       fuel := Some {| start_fuel_l := Some v; per_lap_consumption_l := None;
                       stint_target_laps := None; mixture_setting := None |};
       strategy := None |}.

(** [get_value] has no block for the [gearing] section: whatever the
    document holds, a path into it reads as no value. *)
Lemma get_value_gearing (doc : ORSF D) (path : string) :
  part (split_path path) 1 = "gearing" -> get_value doc path = None.
Proof.
  intros Hsec. unfold get_value.
  destruct (empty (split_path path)); [reflexivity|].
  destruct (negb (part (split_path path) 0 =? "setup")); [reflexivity|].
  destruct (List.length (split_path path) <? 2)%nat; [reflexivity|].
  unfold get_value_aero, get_value_suspension, get_value_tires,
    get_value_drivetrain, get_value_brakes, get_value_electronics,
    get_value_fuel.
  rewrite Hsec. reflexivity.
Qed.

(** C2, at a failing input. The path [setup.suspension.front_left.camber_deg]
    is valid under the grammar (root, subsystem, corner, leaf), yet
    [set_value] has no branch for [suspension]: the call returns the
    document as it was, and [get_value] on the same path reads no value
    where the claim promises [v]. The same holds of [drivetrain],
    [gearing], [electronics] and [fuel] paths; one of each is evaluated. *)
Theorem set_value_loses_suspension_path (v : D) :
  (forall doc : ORSF D,
      set_value doc "setup.suspension.front_left.camber_deg" v = doc)
  /\ get_value (set_value ORSF_default "setup.suspension.front_left.camber_deg" v)
               "setup.suspension.front_left.camber_deg" = None
  /\ (forall doc : ORSF D,
         set_value doc "setup.drivetrain.final_drive_ratio" v = doc
         /\ set_value doc "setup.gearing.gear_0" v = doc
         /\ set_value doc "setup.electronics.pit_limiter_kph" v = doc
         /\ set_value doc "setup.fuel.start_fuel_l" v = doc).
Proof. repeat split. Qed.

(** C3, at a failing input. With the ratio list [r0; r1] stored,
    [flatten_orsf] emits [r0] under [setup.gearing.gear_0], but
    [get_value] on that path reads no value: it has no [gearing] block. *)
Theorem get_value_misses_gear_ratio (r0 r1 : D) :
  flat_find "setup.gearing.gear_0" (flatten_orsf (gearing_only [r0; r1])) = Some r0
  /\ get_value (gearing_only [r0; r1]) "setup.gearing.gear_0" = None.
Proof. split; reflexivity. Qed.

(** C1, at a failing input. The flat map with the one key
    [setup.fuel.start_fuel_l], which is what [flatten_orsf] makes of a
    document holding that leaf, is inflated into the empty document: [set_value] ignores the key, and
    flattening the result gives back no entry for it. *)
Theorem flatten_inflate_loses_fuel_key (v : D) :
  let flat := flat_assign "setup.fuel.start_fuel_l" v flat_empty in
  flatten_orsf (fuel_only v) = flat
  /\ flat_find "setup.fuel.start_fuel_l" flat = Some v
  /\ inflate_orsf flat ORSF_default = ORSF_default
  /\ flat_find "setup.fuel.start_fuel_l"
               (flatten_orsf (inflate_orsf flat ORSF_default)) = None.
Proof. repeat split. Qed.
End PathAddressingDefects.

(* ------------------------------------------------------------------ *)
(** ** What [flatten_orsf] addresses and what the pair restores *)

Section FlattenFacts.
Context {D : Type} `{Double D}.

Lemma flat_find_add_optional {T} (cast : T -> D) (flat : FlatSetup D)
      (key key' : string) (value : option T) :
  flat_find key' (add_optional cast flat key value)
  = if String.eqb key' key then
      match value with
      | Some v => Some (cast v)
      | None => flat_find key' flat
      end
    else flat_find key' flat.
Proof.
  destruct value as [v|]; simpl.
  - apply flat_find_assign.
  - now destruct (String.eqb key' key).
Qed.

(** Two keys differ when one starts with a prefix the other lacks. *)
Lemma eqb_prefix_differs (p key key' : string) :
  prefix p key' = false -> prefix p key = true -> String.eqb key' key = false.
Proof.
  intros Hk' Hk. destruct (String.eqb key' key) eqn:E; [|reflexivity].
  apply String.eqb_eq in E. congruence.
Qed.

Lemma prefix_append (p s t : string) : prefix p s = true -> prefix p (s ++ t) = true.
Proof.
  revert p. induction s as [|b s IH]; intros [|a p]; simpl; try discriminate.
  - now destruct t.
  - reflexivity.
  - destruct (ascii_dec a b); [apply IH | discriminate].
Qed.

(** Skip the writes of keys under the prefix [p], which [key] lacks. *)
Ltac skip_section p Hkey :=
  repeat (rewrite flat_find_add_optional;
          rewrite (eqb_prefix_differs p _ _ Hkey) by reflexivity).

Lemma flatten_aero_other (key : string) aero (flat : FlatSetup D) :
  prefix "setup.aero." key = false ->
  flat_find key (flatten_aero aero flat) = flat_find key flat.
Proof.
  intros Hkey. destruct aero as [a|]; [|reflexivity]. unfold flatten_aero.
  skip_section "setup.aero." Hkey. reflexivity.
Qed.

Lemma flatten_corner_other (key prefix_ : string) corner (flat : FlatSetup D) :
  prefix "setup.suspension." key = false ->
  prefix "setup.suspension." prefix_ = true ->
  flat_find key (flatten_corner corner prefix_ flat) = flat_find key flat.
Proof.
  intros Hkey Hprefix. destruct corner as [c|]; [|reflexivity]. unfold flatten_corner.
  assert (forall leaf, prefix "setup.suspension." (prefix_ ++ leaf) = true) as Hleaf
      by (intros leaf; now apply prefix_append).
  repeat (rewrite flat_find_add_optional;
          rewrite (eqb_prefix_differs "setup.suspension." _ _ Hkey) by apply Hleaf).
  reflexivity.
Qed.

Lemma flatten_suspension_other (key : string) susp (flat : FlatSetup D) :
  prefix "setup.suspension." key = false ->
  flat_find key (flatten_suspension susp flat) = flat_find key flat.
Proof.
  intros Hkey. destruct susp as [s|]; [|reflexivity]. unfold flatten_suspension.
  skip_section "setup.suspension." Hkey.
  now rewrite !flatten_corner_other by (assumption || reflexivity).
Qed.

Lemma flatten_tires_other (key : string) tires (flat : FlatSetup D) :
  prefix "setup.tires." key = false ->
  flat_find key (flatten_tires tires flat) = flat_find key flat.
Proof.
  intros Hkey. destruct tires as [t|]; [|reflexivity]. unfold flatten_tires.
  skip_section "setup.tires." Hkey. reflexivity.
Qed.

Lemma flatten_drivetrain_other (key : string) drivetrain (flat : FlatSetup D) :
  prefix "setup.drivetrain." key = false ->
  flat_find key (flatten_drivetrain drivetrain flat) = flat_find key flat.
Proof.
  intros Hkey. destruct drivetrain as [d|]; [|reflexivity]. unfold flatten_drivetrain.
  skip_section "setup.drivetrain." Hkey. reflexivity.
Qed.

Lemma flatten_gear_ratios_other (key : string) (ratios : list D) (i : nat)
      (flat : FlatSetup D) :
  prefix "setup.gearing." key = false ->
  flat_find key (flatten_gear_ratios i ratios flat) = flat_find key flat.
Proof.
  intros Hkey. revert i flat. induction ratios as [|ratio rest IH]; intros i flat; simpl.
  - reflexivity.
  - rewrite IH, flat_find_assign.
    now rewrite (eqb_prefix_differs "setup.gearing." _ _ Hkey) by reflexivity.
Qed.

Lemma flatten_gearing_other (key : string) gearing (flat : FlatSetup D) :
  prefix "setup.gearing." key = false ->
  flat_find key (flatten_gearing gearing flat) = flat_find key flat.
Proof.
  intros Hkey. destruct gearing as [g|]; [|reflexivity]. unfold flatten_gearing.
  skip_section "setup.gearing." Hkey.
  destruct (gear_ratios g); [now apply flatten_gear_ratios_other | reflexivity].
Qed.

Lemma flatten_brakes_other (key : string) brakes (flat : FlatSetup D) :
  prefix "setup.brakes." key = false ->
  flat_find key (flatten_brakes brakes flat) = flat_find key flat.
Proof.
  intros Hkey. destruct brakes as [b|]; [|reflexivity]. unfold flatten_brakes.
  skip_section "setup.brakes." Hkey. reflexivity.
Qed.

Lemma flatten_electronics_other (key : string) electronics (flat : FlatSetup D) :
  prefix "setup.electronics." key = false ->
  flat_find key (flatten_electronics electronics flat) = flat_find key flat.
Proof.
  intros Hkey. destruct electronics as [e|]; [|reflexivity]. unfold flatten_electronics.
  skip_section "setup.electronics." Hkey. reflexivity.
Qed.

Lemma flatten_fuel_other (key : string) fuel (flat : FlatSetup D) :
  prefix "setup.fuel." key = false ->
  flat_find key (flatten_fuel fuel flat) = flat_find key flat.
Proof.
  intros Hkey. destruct fuel as [f|]; [|reflexivity]. unfold flatten_fuel.
  skip_section "setup.fuel." Hkey. reflexivity.
Qed.

(** *** Gear ratios *)

Definition gear_key (i : nat) : string := "setup.gearing.gear_" ++ string_of_nat i.

Lemma string_of_nat_inj (n n' : nat) : string_of_nat n = string_of_nat n' -> n = n'.
Proof.
  unfold string_of_nat. intros Heq. apply Unsigned.to_uint_inj.
  assert (forall m, Nat.to_uint m <> Decimal.Nil) as Hnn.
  { intros m Hm. apply (unorm_nonnil (Nat.to_uint m)).
    rewrite <- Unsigned.to_of, Unsigned.of_to. exact Hm. }
  pose proof (NilZero.usu _ (Hnn n)) as Hn.
  pose proof (NilZero.usu _ (Hnn n')) as Hn'.
  rewrite Heq in Hn. congruence.
Qed.

Lemma gear_key_eqb (i j : nat) : String.eqb (gear_key i) (gear_key j) = Nat.eqb i j.
Proof.
  destruct (Nat.eqb i j) eqn:E.
  - apply Nat.eqb_eq in E. subst j. apply String.eqb_refl.
  - apply Nat.eqb_neq in E. destruct (String.eqb (gear_key i) (gear_key j)) eqn:Ek;
      [|reflexivity].
    apply String.eqb_eq in Ek. unfold gear_key in Ek. simpl in Ek.
    exfalso. apply E, string_of_nat_inj. now injection Ek.
Qed.

(** The loop writes the ratio at position [i - start] under the key of
    [i], for the indices from [start] on, and no key of an index below. *)
Lemma flatten_gear_ratios_find (ratios : list D) (start i : nat) (flat : FlatSetup D) :
  flat_find (gear_key i) (flatten_gear_ratios start ratios flat)
  = if (i <? start)%nat then flat_find (gear_key i) flat
    else match nth_error ratios (i - start) with
         | Some ratio => Some ratio
         | None => flat_find (gear_key i) flat
         end.
Proof.
  revert start flat.
  induction ratios as [|ratio rest IH]; intros start flat; cbn [flatten_gear_ratios].
  - destruct (i <? start)%nat; [reflexivity|]. now destruct (i - start)%nat.
  - change ("setup.gearing.gear_" ++ string_of_nat start) with (gear_key start).
    rewrite IH, flat_find_assign, gear_key_eqb. cbn [nth_error].
    destruct (i <? start)%nat eqn:Hlt.
    + apply Nat.ltb_lt in Hlt.
      replace (i <? S start)%nat with true by (symmetry; apply Nat.ltb_lt; lia).
      replace (i =? start)%nat with false by (symmetry; apply Nat.eqb_neq; lia).
      reflexivity.
    + apply Nat.ltb_ge in Hlt. destruct (i =? start)%nat eqn:Heq.
      * apply Nat.eqb_eq in Heq. subst i.
        replace (start <? S start)%nat with true by (symmetry; apply Nat.ltb_lt; lia).
        now rewrite Nat.sub_diag.
      * apply Nat.eqb_neq in Heq.
        replace (i <? S start)%nat with false by (symmetry; apply Nat.ltb_ge; lia).
        replace (i - start)%nat with (S (i - S start)) by lia. reflexivity.
Qed.

(** The sentence of the specification on gear ratios, for [flatten_orsf]:
    the key [setup.gearing.gear_<i>] holds the ratio at the zero-based
    position [i] of the list, and no value when [i] is out of range. *)
Lemma flatten_orsf_gear_ratio (doc : ORSF D) g (ratios : list D) (i : nat) :
  doc.(setup).(gearing) = Some g -> g.(gear_ratios) = Some ratios ->
  flat_find (gear_key i) (flatten_orsf doc) = nth_error ratios i.
Proof.
  intros Hg Hratios. unfold flatten_orsf.
  rewrite flatten_fuel_other, flatten_electronics_other, flatten_brakes_other
    by reflexivity.
  rewrite Hg. unfold flatten_gearing. rewrite Hratios.
  rewrite flat_find_add_optional.
  replace (String.eqb (gear_key i) "setup.gearing.reverse_ratio") with false
    by reflexivity.
  rewrite flatten_gear_ratios_find. simpl (i <? 0)%nat. rewrite Nat.sub_0_r.
  rewrite flatten_drivetrain_other, flatten_tires_other, flatten_suspension_other,
    flatten_aero_other by reflexivity.
  now destruct (nth_error ratios i).
Qed.
End FlattenFacts.

Section RestoredKeys.
Context {D : Type} `{Double D}.

(** The sections [set_value] has no branch for, as key prefixes. *)
Definition unhandled_prefixes : list string :=
  ["setup.suspension."; "setup.drivetrain."; "setup.gearing.";
   "setup.electronics."; "setup.fuel."].

(** The keys [flatten_orsf] can emit, read generously outside the handled
    sections: a leaf [set_value] writes, or any path into a section it has
    no branch for. *)
Definition canonical_key (key : string) : Prop :=
  In key handled_paths
  \/ exists p rest, In p unhandled_prefixes /\ key = p ++ rest.

Ltac each_key Hin :=
  cbv [handled_paths aero_fields tires_fields brakes_fields unhandled_prefixes
       map app] in Hin;
  cbn [In append] in Hin;
  repeat (destruct Hin as [<- | Hin]); try contradiction.

Lemma set_value_unhandled_prefix (doc : ORSF D) (p rest : string) (v : D) :
  In p unhandled_prefixes -> set_value doc (p ++ rest) v = doc.
Proof.
  intros Hin. apply set_value_ignored. do 3 right.
  each_key Hin; cbn; intuition discriminate.
Qed.

(** Read a key of the block just unfolded: every write of another key is
    skipped, and the member of the key decides. *)
Ltac find_in_block :=
  repeat (rewrite flat_find_add_optional; cbn [String.eqb Ascii.eqb Bool.eqb]);
  rewrite ?flatten_gearing_other, ?flatten_drivetrain_other, ?flatten_tires_other,
    ?flatten_suspension_other, ?flatten_aero_other by reflexivity;
  cbn;
  repeat match goal with
         | |- context [match ?x with _ => _ end] => destruct x
         end; reflexivity.

Lemma flatten_orsf_get_value_aero (doc : ORSF D) (key : string) :
  In key (map (append "setup.aero.") aero_fields) ->
  flat_find key (flatten_orsf doc) = get_value doc key.
Proof.
  intros Hin. destruct doc as [? ? ? ? [a su t dt g b e f st] ?].
  unfold flatten_orsf. cbn [setup aero suspension tires drivetrain gearing brakes
                            electronics fuel].
  each_key Hin;
    rewrite flatten_fuel_other, flatten_electronics_other, flatten_brakes_other,
      flatten_gearing_other, flatten_drivetrain_other, flatten_tires_other,
      flatten_suspension_other by reflexivity;
    (destruct a as [a|]; [unfold flatten_aero; find_in_block | reflexivity]).
Qed.

Lemma flatten_orsf_get_value_tires (doc : ORSF D) (key : string) :
  In key (map (append "setup.tires.") tires_fields) ->
  flat_find key (flatten_orsf doc) = get_value doc key.
Proof.
  intros Hin. destruct doc as [? ? ? ? [a su t dt g b e f st] ?].
  unfold flatten_orsf. cbn [setup aero suspension tires drivetrain gearing brakes
                            electronics fuel].
  each_key Hin;
    rewrite flatten_fuel_other, flatten_electronics_other, flatten_brakes_other,
      flatten_gearing_other, flatten_drivetrain_other by reflexivity;
    (destruct t as [t|];
     [unfold flatten_tires; find_in_block
     | cbn [flatten_tires];
       now rewrite flatten_suspension_other, flatten_aero_other by reflexivity]).
Qed.

Lemma flatten_orsf_get_value_brakes (doc : ORSF D) (key : string) :
  In key (map (append "setup.brakes.") brakes_fields) ->
  flat_find key (flatten_orsf doc) = get_value doc key.
Proof.
  intros Hin. destruct doc as [? ? ? ? [a su t dt g b e f st] ?].
  unfold flatten_orsf. cbn [setup aero suspension tires drivetrain gearing brakes
                            electronics fuel].
  each_key Hin;
    rewrite flatten_fuel_other, flatten_electronics_other by reflexivity;
    (destruct b as [b|];
     [unfold flatten_brakes; find_in_block
     | cbn [flatten_brakes];
       now rewrite flatten_gearing_other, flatten_drivetrain_other,
         flatten_tires_other, flatten_suspension_other, flatten_aero_other
         by reflexivity]).
Qed.

(** On a leaf [set_value] writes, the flat map holds what [get_value]
    reads. *)
Lemma flatten_orsf_get_value (doc : ORSF D) (key : string) :
  In key handled_paths -> flat_find key (flatten_orsf doc) = get_value doc key.
Proof.
  unfold handled_paths. intros Hin.
  apply in_app_or in Hin. destruct Hin as [Hin | Hin].
  - now apply flatten_orsf_get_value_aero.
  - apply in_app_or in Hin. destruct Hin as [Hin | Hin].
    + now apply flatten_orsf_get_value_tires.
    + now apply flatten_orsf_get_value_brakes.
Qed.

(** Writing one handled leaf leaves the others as they read before. *)
Lemma get_value_set_value_other (doc : ORSF D) (key key' : string) (v : D) :
  In key handled_paths -> In key' handled_paths -> key <> key' ->
  get_value (set_value doc key' v) key = get_value doc key.
Proof.
  intros Hkey Hkey' Hneq. destruct doc as [? ? ? ? [a su t dt g b e f st] ?].
  each_key Hkey; each_key Hkey'; try (exfalso; apply Hneq; reflexivity);
    destruct a, t, b; vm_compute; reflexivity.
Qed.

Lemma flat_find_absent (key : string) (flat : FlatSetup D) :
  ~ In key (map fst flat) -> flat_find key flat = None.
Proof.
  induction flat as [|[k v] rest IH]; simpl; [reflexivity|]. intros Hnot.
  destruct (String.eqb key k) eqn:E.
  - apply String.eqb_eq in E. exfalso. apply Hnot. now left.
  - apply IH. intros Hin. apply Hnot. now right.
Qed.

(** After [inflate_orsf], a handled leaf reads as the flat map has it, or
    as the template had it when the flat map has no entry for it. *)
Lemma get_value_inflate_orsf (flat : FlatSetup D) (template_orsf : ORSF D) (key : string) :
  In key handled_paths ->
  NoDup (map fst flat) ->
  (forall k, In k (map fst flat) -> canonical_key k) ->
  get_value (inflate_orsf flat template_orsf) key
  = match flat_find key flat with
    | Some v => Some v
    | None => get_value template_orsf key
    end.
Proof.
  intros Hkey. unfold inflate_orsf. revert template_orsf.
  induction flat as [|[k v] rest IH]; intros doc Hnodup Hcanon; simpl; [reflexivity|].
  inversion Hnodup as [|? ? Hfresh Hnodup']; subst.
  rewrite IH; [|assumption|intros k' Hk'; apply Hcanon; now right].
  destruct (String.eqb key k) eqn:E.
  - apply String.eqb_eq in E. subst k.
    rewrite (flat_find_absent key rest Hfresh).
    now apply get_value_set_value_handled.
  - destruct (flat_find key rest); [reflexivity|].
    destruct (Hcanon k (or_introl eq_refl)) as [Hk | (p & s & Hp & ->)].
    + apply get_value_set_value_other; [assumption|assumption|].
      intros ->. now rewrite String.eqb_refl in E.
    + now rewrite set_value_unhandled_prefix.
Qed.

Lemma flat_wf_NoDup (flat : FlatSetup D) : flat_wf flat -> NoDup (map fst flat).
Proof.
  induction 1 as [|[k v] rest Hs IH Hall]; simpl; constructor; [|assumption].
  intros Hin. apply in_map_iff in Hin. destruct Hin as ([k' v'] & Hk & Hin).
  simpl in Hk. subst k'. rewrite Forall_forall in Hall. specialize (Hall _ Hin).
  simpl in Hall.
  assert (String.compare k k = Eq) as Hrefl
      by (generalize (String.compare_antisym k k);
          destruct (String.compare k k); simpl; congruence).
  congruence.
Qed.

(** The part of C1 the code does deliver: for a flat map whose keys are
    canonical, [flatten_orsf (inflate_orsf flat template)] has every key of
    [flat] that names an [aero], [tires] or [brakes] leaf, with the value
    it has in [flat]. *)
Theorem flatten_inflate_restores_handled (flat : FlatSetup D) (template_orsf : ORSF D)
        (key : string) (v : D) :
  flat_wf flat ->
  (forall k, In k (map fst flat) -> canonical_key k) ->
  In key handled_paths ->
  flat_find key flat = Some v ->
  flat_find key (flatten_orsf (inflate_orsf flat template_orsf)) = Some v.
Proof.
  intros Hwf Hcanon Hkey Hfind.
  rewrite flatten_orsf_get_value by assumption.
  rewrite get_value_inflate_orsf; [|assumption|now apply flat_wf_NoDup|assumption].
  now rewrite Hfind.
Qed.
End RestoredKeys.

(* ------------------------------------------------------------------ *)
(** ** The mapping engine: [map_to_native] and [map_to_orsf] *)

Section MappingEngine.
Context {D : Type} `{Double D}.

(** The loop over a concatenation is the loop over the first list, then
    over the second from where the first arrived; a [throw] in the first
    is the outcome of the whole. *)
Lemma map_to_native_from_app (orsf : ORSF D) (l1 l2 : list (FieldMapping D))
      (native : FlatSetup D) :
  map_to_native_from orsf (l1 ++ l2) native
  = except_bind (map_to_native_from orsf l1 native) (map_to_native_from orsf l2).
Proof.
  revert native. induction l1 as [|m l1 IH]; intros native; simpl; [reflexivity|].
  destruct (get_value orsf (orsf_path m)) as [v|].
  - destruct (apply_transform (to_native m) v) as [v'|e]; simpl; [apply IH|reflexivity].
  - destruct (required m); [reflexivity|apply IH].
Qed.

Lemma map_to_orsf_from_app (native : FlatSetup D) (l1 l2 : list (FieldMapping D))
      (result : ORSF D) :
  map_to_orsf_from native (l1 ++ l2) result
  = except_bind (map_to_orsf_from native l1 result) (map_to_orsf_from native l2).
Proof.
  revert result. induction l1 as [|m l1 IH]; intros result; simpl; [reflexivity|].
  destruct (flat_find (native_key m) native) as [v|].
  - destruct (apply_transform (to_orsf m) v) as [v'|e]; simpl; [apply IH|reflexivity].
  - destruct (required m); [reflexivity|apply IH].
Qed.

(** A required mapping whose canonical value is absent makes the call
    throw, wherever it stands in the list: no map is returned. *)
Lemma map_to_native_required_absent (orsf : ORSF D) (mappings : list (FieldMapping D))
      (m : FieldMapping D) :
  In m mappings -> required m = true -> get_value orsf (orsf_path m) = None ->
  exists e, map_to_native orsf mappings = Throw e.
Proof.
  intros Hin Hreq Habs. apply in_split in Hin. destruct Hin as (l1 & l2 & ->).
  unfold map_to_native. rewrite map_to_native_from_app.
  destruct (map_to_native_from orsf l1 flat_empty) as [native|e]; simpl.
  - rewrite Habs, Hreq. eauto.
  - eauto.
Qed.

Lemma map_to_orsf_required_absent (native : FlatSetup D) (mappings : list (FieldMapping D))
      (template_orsf : ORSF D) (m : FieldMapping D) :
  In m mappings -> required m = true -> flat_find (native_key m) native = None ->
  exists e, map_to_orsf native mappings template_orsf = Throw e.
Proof.
  intros Hin Hreq Habs. apply in_split in Hin. destruct Hin as (l1 & l2 & ->).
  unfold map_to_orsf. rewrite map_to_orsf_from_app.
  destruct (map_to_orsf_from native l1 template_orsf) as [result|e]; simpl.
  - rewrite Habs, Hreq. eauto.
  - eauto.
Qed.

(** The loop of [map_to_native], by what [get_value] answers at the path
    of a mapping. Of a mapping list [before ++ m :: after] whose mappings
    before [m] went through, giving the map [native]:
    - [m] required and [get_value] without a value: the call throws the
      required-field error naming the path of [m], and returns no map;
    - [m] optional and [get_value] without a value: [m] contributes
      nothing, the call is the call without [m];
    - [get_value] with the value [v]: the forward transform is applied (none
      declared: [v] itself) and the result stored under the native key
      of [m] before the mappings after [m] run; a transform that throws
      ends the call.
    [map_to_orsf] fails the same way on a required mapping whose native
    key is missing from the input, naming the key. *)
Theorem map_to_native_by_mapping (orsf : ORSF D) (before after : list (FieldMapping D))
        (m : FieldMapping D) (native : FlatSetup D) :
  map_to_native orsf before = Ok native ->
  (get_value orsf (orsf_path m) = None -> required m = true ->
   map_to_native orsf (before ++ m :: after)
   = Throw (runtime_error ("Required field missing: " ++ orsf_path m))
   /\ forall partial, map_to_native orsf (before ++ m :: after) <> Ok partial)
  /\ (get_value orsf (orsf_path m) = None -> required m = false ->
      map_to_native orsf (before ++ [m]) = Ok native
      /\ map_to_native orsf (before ++ m :: after)
         = map_to_native orsf (before ++ after))
  /\ (forall v, get_value orsf (orsf_path m) = Some v ->
        (to_native m = None ->
         map_to_native orsf (before ++ [m])
         = Ok (flat_assign (native_key m) v native))
        /\ (forall f v', to_native m = Some f -> f v = Ok v' ->
              map_to_native orsf (before ++ [m])
              = Ok (flat_assign (native_key m) v' native)
              /\ map_to_native orsf (before ++ m :: after)
                 = map_to_native_from orsf after
                     (flat_assign (native_key m) v' native))
        /\ (forall f e, to_native m = Some f -> f v = Throw e ->
              map_to_native orsf (before ++ m :: after) = Throw e))
  /\ (forall input template_orsf result,
        map_to_orsf input before template_orsf = Ok result ->
        flat_find (native_key m) input = None -> required m = true ->
        map_to_orsf input (before ++ m :: after) template_orsf
        = Throw (runtime_error ("Required native field missing: " ++ native_key m))).
Proof.
  unfold map_to_native, map_to_orsf. intros Hbefore.
  assert (forall l, map_to_native_from orsf (before ++ l) flat_empty
                    = map_to_native_from orsf l native) as Hrun
      by (intros l; now rewrite map_to_native_from_app, Hbefore).
  split; [|split; [|split]].
  - intros Habs Hreq.
    assert (map_to_native_from orsf (before ++ m :: after) flat_empty
            = Throw (runtime_error ("Required field missing: " ++ orsf_path m))) as Hthrow
        by (rewrite Hrun; simpl; now rewrite Habs, Hreq).
    split; [exact Hthrow|]. intros partial. rewrite Hthrow. discriminate.
  - intros Habs Hreq. rewrite !Hrun. simpl. now rewrite Habs, Hreq.
  - intros v Hv. split; [|split].
    + intros Hnone. rewrite Hrun. simpl. now rewrite Hv, Hnone.
    + intros f v' Hf Hfv. rewrite !Hrun. simpl. rewrite Hv, Hf. simpl.
      now rewrite Hfv.
    + intros f e Hf Hfv. rewrite Hrun. simpl. rewrite Hv, Hf. simpl.
      now rewrite Hfv.
  - intros input template_orsf result Hres Habs Hreq.
    rewrite map_to_orsf_from_app, Hres. simpl. now rewrite Habs, Hreq.
Qed.
End MappingEngine.

Section MappingEngineDefects.
Context {D : Type} `{Double D}.

(** A mapping of the first gear ratio, as an adapter declares it. *)
Definition gear_0_mapping (required : bool) : FieldMapping D :=
  {| orsf_path := "setup.gearing.gear_0"; native_key := "gear_1";
     to_native := None; to_orsf := None; required := required |}.

(** C7, at a failing input. The document holds the ratios [r0; r1], and
    its flat view has [r0] under [setup.gearing.gear_0]. [map_to_native]
    reads the path through [get_value], which has no [gearing] block and
    answers with no value: a required mapping of the path makes the call
    throw the required-field error although the value is there, and an
    optional one emits nothing where the value should be emitted under
    the native key. *)
Theorem map_to_native_misses_gear_ratio (r0 r1 : D) :
  let doc := gearing_only [r0; r1] in
  flat_find "setup.gearing.gear_0" (flatten_orsf doc) = Some r0
  /\ get_value doc "setup.gearing.gear_0" = None
  /\ map_to_native doc [gear_0_mapping true]
     = Throw (runtime_error "Required field missing: setup.gearing.gear_0")
  /\ map_to_native doc [gear_0_mapping false] = Ok flat_empty.
Proof. repeat split. Qed.
End MappingEngineDefects.

(* ------------------------------------------------------------------ *)
(** ** Unit conversion, in exact arithmetic *)

Section UnitConversion.
Local Open Scope Q_scope.

(** Converting to the base unit and back is the identity, and so is the
    other way round. *)
Lemma from_base_to_base (x : Q) (u : Unit) : from_base (to_base x u) u == x.
Proof. destruct u; cbn; field. Qed.

Lemma to_base_from_base (x : Q) (u : Unit) : to_base (from_base x u) u == x.
Proof. destruct u; cbn; field. Qed.
End UnitConversion.

Section UnitConversionClaims.
Local Open Scope Q_scope.


Scheme Equality for Dimension.






End UnitConversionClaims.

(* ------------------------------------------------------------------ *)
(** ** Lookup tables, in exact arithmetic *)

Section LookupTableFacts.
Local Open Scope Q_scope.

Definition entry (x y : Q) : LUTEntry Q := {| input := x; output := y |}.

(** Ascending by input. *)
Definition ascending : list (LUTEntry Q) -> Prop :=
  Sorted (fun a b => input a <= input b).

Lemma dleb_Q (a b : Q) : (a <=? b)%D = true <-> a <= b.
Proof. apply Qle_bool_iff. Qed.

Lemma dleb_Q_false (a b : Q) : (a <=? b)%D = false <-> b < a.
Proof.
  cbn. rewrite <- Bool.not_true_iff_false, Qle_bool_iff. split.
  - apply Qnot_le_lt.
  - apply Qlt_not_le.
Qed.

Lemma dltb_Q (a b : Q) : (a <? b)%D = true <-> a < b.
Proof. cbn. rewrite Bool.negb_true_iff. apply dleb_Q_false. Qed.

Lemma dltb_Q_false (a b : Q) : (a <? b)%D = false <-> b <= a.
Proof. cbn. rewrite Bool.negb_false_iff. apply dleb_Q. Qed.

Lemma by_input_order : strict_weak_order (by_input (D := Q)).
Proof.
  unfold by_input. repeat split.
  - intros a. apply dltb_Q_false. apply Qle_refl.
  - intros a b c Hab Hbc. apply dltb_Q in Hab, Hbc. apply dltb_Q.
    now apply Qlt_trans with (input b).
  - apply dltb_Q_false. apply dltb_Q_false in H, H0, H1, H2.
    now apply Qle_trans with (input b).
  - apply dltb_Q_false. apply dltb_Q_false in H, H0, H1, H2.
    now apply Qle_trans with (input b).
Qed.

Lemma non_descending_ascending (l : list (LUTEntry Q)) :
  non_descending by_input l -> ascending l.
Proof.
  unfold non_descending, ascending.
  induction 1 as [|a l Hs IH Hhd]; constructor; [assumption|].
  destruct Hhd as [|b l Hab]; constructor. now apply dltb_Q_false in Hab.
Qed.

Lemma ascending_strongly (l : list (LUTEntry Q)) :
  ascending l -> StronglySorted (fun a b => input a <= input b) l.
Proof.
  apply Sorted_StronglySorted. intros a b c. apply Qle_trans.
Qed.

(** The first entry of an ascending table has the least input, the last
    the greatest. *)
Lemma ascending_front_least (front : LUTEntry Q) (rest : list (LUTEntry Q)) e :
  ascending (front :: rest) -> In e (front :: rest) -> input front <= input e.
Proof.
  intros Hs Hin. apply ascending_strongly in Hs. inversion Hs as [|? ? _ Hall]; subst.
  destruct Hin as [<- | Hin]; [apply Qle_refl|].
  rewrite Forall_forall in Hall. now apply Hall.
Qed.

Lemma ascending_back_greatest (l : list (LUTEntry Q)) d e :
  ascending l -> In e l -> input e <= input (last l d).
Proof.
  intros Hs. apply ascending_strongly in Hs. revert e.
  induction Hs as [|a l Hs IH Hall]; intros e Hin; [contradiction|].
  destruct l as [|b l].
  - destruct Hin as [<- | []]. apply Qle_refl.
  - change (last (a :: b :: l) d) with (last (b :: l) d).
    destruct Hin as [<- | Hin]; [|now apply IH].
    apply Qle_trans with (input b).
    + rewrite Forall_forall in Hall. apply Hall. now left.
    + apply IH. now left.
Qed.

Lemma last_in {A} (l : list A) (d : A) : l <> [] -> In (last l d) l.
Proof.
  induction l as [|a l IH]; [congruence|]. intros _.
  destruct l as [|b l]; [now left|]. right. apply IH. discriminate.
Qed.

(** An ascending table that is a permutation of a table with strictly
    ascending inputs is that table. *)
Lemma ascending_permutation_unique (l l' : list (LUTEntry Q)) :
  StronglySorted (fun a b => input a < input b) l ->
  Permutation l l' -> ascending l' -> l' = l.
Proof.
  intros Hl. revert l'. induction Hl as [|a r Hr IH Hall]; intros l' Hperm Hl'.
  - now apply Permutation_nil in Hperm.
  - destruct l' as [|b r'].
    { apply Permutation_sym, Permutation_nil in Hperm. discriminate. }
    assert (input b <= input a) as Hba.
    { apply (ascending_front_least b r' a Hl').
      apply (Permutation_in _ Hperm). now left. }
    assert (b = a) as ->.
    { assert (In b (a :: r)) as [Heq | Hin]
          by (apply (Permutation_in _ (Permutation_sym Hperm)); now left).
      - now symmetry.
      - rewrite Forall_forall in Hall. apply Hall in Hin.
        exfalso. apply (Qlt_not_le _ _ Hin Hba). }
    f_equal. apply IH.
    + now apply Permutation_cons_inv in Hperm.
    + now inversion Hl'.
Qed.

End LookupTableFacts.

Section LookupTableClaims.
Context (S : StdSort).
Local Open Scope Q_scope.

(** The call returns a value equal to [y] as a rational. *)
Definition returns (r : except Q) (y : Q) : Prop :=
  exists y', r = Ok y' /\ y' == y.

Lemma constructor_permutation (table : list (LUTEntry Q)) :
  Permutation table (table_ (make_LookupTableConverter table)).
Proof. apply std_sort_permutation. Qed.

Lemma constructor_ascending (table : list (LUTEntry Q)) :
  ascending (table_ (make_LookupTableConverter table)).
Proof. apply non_descending_ascending, std_sort_sorted, by_input_order. Qed.

(** A table given with strictly ascending inputs is stored as given,
    whatever the implementation of the sort. *)
Lemma constructor_keeps_strictly_ascending (table : list (LUTEntry Q)) :
  StronglySorted (fun a b => input a < input b) table ->
  table_ (make_LookupTableConverter table) = table.
Proof.
  intros Hs. apply ascending_permutation_unique; [assumption| |].
  - apply constructor_permutation.
  - apply constructor_ascending.
Qed.

(** The entries before an entry of an ascending table are not above it. *)
Lemma ascending_prefix (l1 l2 : list (LUTEntry Q)) p e :
  ascending (l1 ++ p :: l2) -> In e l1 -> input e <= input p.
Proof.
  intros Hs Hin. apply ascending_strongly in Hs.
  induction l1 as [|a l1 IH]; [contradiction|].
  simpl in Hs. inversion Hs as [|? ? Hs' Hall]; subst.
  destruct Hin as [<- | Hin]; [|now apply IH].
  rewrite Forall_forall in Hall. apply Hall, in_elt.
Qed.

(** The search stops at the pair [p], [q] when the value is above the
    input of [p], not above that of [q], and no entry before [p] is above
    [p]. *)
Lemma find_surrounding_segment (l1 l2 : list (LUTEntry Q)) p q (x : Q) :
  (forall e, In e l1 -> input e <= input p) ->
  input p < x -> x <= input q ->
  find_surrounding x (l1 ++ p :: q :: l2)
  = Some (lerp x (input p) (input q) (output p) (output q)).
Proof.
  intros Hl1 Hp Hq. induction l1 as [|e l1 IH].
  - simpl.
    assert (Qle_bool (input p) x = true) as -> by (apply Qle_bool_iff; lra).
    assert (Qle_bool x (input q) = true) as -> by (now apply Qle_bool_iff).
    reflexivity.
  - assert (forall e', In e' l1 -> input e' <= input p) as Hl1'
        by (intros e' He'; apply Hl1; now right).
    specialize (IH Hl1').
    destruct l1 as [|e' l1]; simpl in *.
    + assert (Qle_bool x (input p) = false) as -> by (now apply dleb_Q_false).
      rewrite Bool.andb_false_r. exact IH.
    + assert (Qle_bool x (input e') = false) as ->
          by (apply dleb_Q_false;
              apply Qle_lt_trans with (input p); [apply Hl1'; now left | assumption]).
      rewrite Bool.andb_false_r. exact IH.
Qed.

End LookupTableClaims.

Section InterpolationClaims.
Local Open Scope Q_scope.

(** The table of the test suite. *)
Definition test_table : list (LUTEntry Q) :=
  [entry 0 0; entry 50 25; entry 100 75].



Lemma interpolate_below (S : StdSort) (table : list (LUTEntry Q)) lo rest (x : Q) :
  table_ (make_LookupTableConverter table) = lo :: rest ->
  x <= input lo -> interpolate (make_LookupTableConverter table) x = Ok (output lo).
Proof.
  intros Htable Hx. unfold interpolate, clamp_or_search. rewrite Htable.
  cbn [dleb Q_Double]. now apply Qle_bool_iff in Hx as ->.
Qed.

Lemma interpolate_above (S : StdSort) (table : list (LUTEntry Q)) lo rest (x : Q) :
  table_ (make_LookupTableConverter table) = lo :: rest ->
  input (last (lo :: rest) lo) <= x -> input lo < x ->
  interpolate (make_LookupTableConverter table) x
  = Ok (output (last (lo :: rest) lo)).
Proof.
  intros Htable Hhi Hlo. unfold interpolate, clamp_or_search. rewrite Htable.
  cbn [dleb Q_Double]. apply dleb_Q_false in Hlo. cbn [dleb Q_Double] in Hlo.
  rewrite Hlo. now apply Qle_bool_iff in Hhi as ->.
Qed.

(** The two clamps of [interpolate], in any arithmetic: they are decided
    by the two comparisons alone. *)
Lemma interpolate_clamps {D : Type} `{Double D} (S : StdSort)
      (table : list (LUTEntry D)) lo rest (x : D) :
  table_ (make_LookupTableConverter table) = lo :: rest ->
  ((x <=? input lo)%D = true ->
   interpolate (make_LookupTableConverter table) x = Ok (output lo))
  /\ ((x <=? input lo)%D = false ->
      (x >=? input (last (lo :: rest) lo))%D = true ->
      interpolate (make_LookupTableConverter table) x
      = Ok (output (last (lo :: rest) lo))).
Proof.
  intros Htable. unfold interpolate, clamp_or_search. rewrite Htable. split.
  - now intros ->.
  - now intros -> ->.
Qed.


(** C4, as the code has it. The constructor stores a permutation of the
    entries it is given, ascending by input: the order of the argument
    does not matter to which entries are stored. Nothing is promised of
    the order of entries that share an input ([std::sort] is not stable:
    of two sorts that meet its contract one stores (5,1) before (5,2)
    and the other after); which of them answers a query is a matter of
    where they are stored:
    with [lo] stored first and [hi] stored last, no input of the table
    is below that of [lo] or above that of [hi], a query at or below the
    input of [lo] returns the output of [lo], and a query above the
    input of [lo] and at or above the input of [hi] returns the output
    of [hi] (the two tests compare only, and decide the same way in any
    arithmetic). So with (5,1) stored before (5,2), a query at 5 returns 1
    on the table (5,1), (5,2), and 2 on the table (0,0), (5,1), (5,2). *)
Theorem constructor_sorts_by_input :
  (forall (S : StdSort) (table : list (LUTEntry Q)),
      let lut := make_LookupTableConverter table in
      Permutation table (table_ lut)
      /\ ascending (table_ lut)
      /\ (forall table', Permutation table table' ->
            Permutation (table_ lut) (table_ (make_LookupTableConverter table')))
      /\ (forall lo rest,
            table_ lut = lo :: rest ->
            let hi := last (lo :: rest) lo in
            (forall e, In e table -> input lo <= input e <= input hi)
            /\ (forall x, x <= input lo -> interpolate lut x = Ok (output lo))
            /\ (forall x, input lo < x -> input hi <= x ->
                  interpolate lut x = Ok (output hi))))
  /\ (forall (D : Type) (HD : Double D) (S : StdSort) (table : list (LUTEntry D))
             lo rest (x : D),
        table_ (make_LookupTableConverter table) = lo :: rest ->
        ((x <=? input lo)%D = true ->
         interpolate (make_LookupTableConverter table) x = Ok (output lo))
        /\ ((x <=? input lo)%D = false ->
            (x >=? input (last (lo :: rest) lo))%D = true ->
            interpolate (make_LookupTableConverter table) x
            = Ok (output (last (lo :: rest) lo))))
  /\ (table_ (make_LookupTableConverter (S := stable_sort) [entry 5 1; entry 5 2])
      = [entry 5 1; entry 5 2]
      /\ table_ (make_LookupTableConverter (S := reversing_sort)
                    [entry 5 1; entry 5 2])
         = [entry 5 2; entry 5 1])
  /\ (forall S : StdSort,
        (table_ (make_LookupTableConverter [entry 5 1; entry 5 2])
         = [entry 5 1; entry 5 2] ->
         interpolate (make_LookupTableConverter [entry 5 1; entry 5 2]) 5 = Ok 1)
        /\ (table_ (make_LookupTableConverter [entry 0 0; entry 5 1; entry 5 2])
            = [entry 0 0; entry 5 1; entry 5 2] ->
            interpolate (make_LookupTableConverter [entry 0 0; entry 5 1; entry 5 2]) 5
            = Ok 2)).
Proof.
  split; [|split; [|split]].
  - intros S table. cbv zeta. split; [apply constructor_permutation|].
    split; [apply constructor_ascending|]. split.
    + intros table' Hperm.
      rewrite <- (constructor_permutation S table),
              <- (constructor_permutation S table').
      exact Hperm.
    + intros lo rest Htable.
      pose proof (constructor_permutation S table) as Hperm.
      pose proof (constructor_ascending S table) as Hasc.
      rewrite Htable in Hperm, Hasc.
      split; [|split].
      * intros e He. apply (Permutation_in _ Hperm) in He. split.
        -- now apply (ascending_front_least lo rest).
        -- now apply ascending_back_greatest.
      * intros x Hx. now apply (interpolate_below S table lo rest).
      * intros x Hlo Hhi. now apply (interpolate_above S table lo rest).
  - intros D HD S table lo rest x Htable.
    exact (interpolate_clamps S table lo rest x Htable).
  - split; reflexivity.
  - intros S. split; intros Hstored.
    + now apply (interpolate_below S _ (entry 5 1) [entry 5 2]).
    + apply (interpolate_above S _ (entry 0 0) [entry 5 1; entry 5 2] 5 Hstored);
        [discriminate | reflexivity].
Qed.




(** C4 fails as stated. First, on an implementation of [std::sort] that
    meets the standard and reverses equivalent elements: of the two
    entries with input 5, the later one is stored first, and its output
    is what a query at 5 returns. Second, whatever the implementation: on
    (0,0), (5,1), (5,2) no sort both stores (5,1) before (5,2) and makes
    the query at 5 return 1, because a query at the greatest input
    returns the output of the entry stored last. *)
Lemma earlier_duplicate_need_not_win :
  (let lut := make_LookupTableConverter (S := reversing_sort) [entry 5 1; entry 5 2] in
   table_ lut = [entry 5 2; entry 5 1] /\ interpolate lut 5 = Ok 2)
  /\ ~ (exists S : StdSort,
          let lut := make_LookupTableConverter [entry 0 0; entry 5 1; entry 5 2] in
          table_ lut = [entry 0 0; entry 5 1; entry 5 2]
          /\ interpolate lut 5 = Ok 1)
  /\ (let lut := make_LookupTableConverter (S := stable_sort)
                   [entry 0 0; entry 5 1; entry 5 2] in
      table_ lut = [entry 0 0; entry 5 1; entry 5 2] /\ interpolate lut 5 = Ok 2).
Proof.
  split; [split; reflexivity|]. split; [|split; reflexivity].
  intros (S & Hstored & Hret). unfold interpolate in Hret.
  rewrite Hstored in Hret. vm_compute in Hret. discriminate.
Qed.
End InterpolationClaims.

(* ------------------------------------------------------------------ *)
(** ** The validator *)

Section ValidatorMonad.
Local Open Scope validator_scope.

(** The computation does not throw and leaves the vector it is given with
    [new] appended, whatever the vector holds. *)
Definition appends (m : V unit) (new : list ValidationError) : Prop :=
  forall errors, m errors = Ok (tt, (errors ++ new)%list).

(** What a check reports when run on an empty vector. *)
Definition findings (m : V unit) : list ValidationError :=
  match m [] with
  | Ok (_, errors) => errors
  | Throw _ => []
  end.

(** The check appends its own findings, and never throws. *)
Definition independent (m : V unit) : Prop := appends m (findings m).

Lemma appends_findings m new : appends m new -> findings m = new.
Proof. intros Hm. unfold findings. now rewrite Hm. Qed.

Lemma appends_independent m new : appends m new -> independent m.
Proof. intros Hm. unfold independent. now rewrite (appends_findings m new). Qed.

Lemma appends_ret : appends (V_ret tt) [].
Proof. intros errors. unfold V_ret. now rewrite List.app_nil_r. Qed.

Lemma appends_push_back e : appends (push_back e) [e].
Proof. intros errors. reflexivity. Qed.

Lemma appends_seq m k l1 l2 :
  appends m l1 -> appends k l2 -> appends (m ;; k) (l1 ++ l2).
Proof.
  intros Hm Hk errors. unfold V_bind. rewrite Hm, Hk. now rewrite List.app_assoc.
Qed.

Lemma appends_when (c : bool) m l :
  appends m l -> appends (when c m) (if c then l else []).
Proof. intros Hm. destruct c; [exact Hm | apply appends_ret]. Qed.

(** [o.value()] behind a successful test of [o.has_value()]. *)
Lemma appends_value {A} (a : A) (k : A -> V unit) l :
  appends (k a) l -> appends (v <- value (Some a) ;; k v) l.
Proof. intros Hk errors. unfold V_bind. simpl. apply Hk. Qed.

Lemma independent_ret : independent (V_ret tt).
Proof. exact (appends_independent _ _ appends_ret). Qed.

Lemma independent_push_back e : independent (push_back e).
Proof. exact (appends_independent _ _ (appends_push_back e)). Qed.

Lemma independent_seq m k :
  independent m -> independent k -> independent (m ;; k).
Proof. intros Hm Hk. exact (appends_independent _ _ (appends_seq _ _ _ _ Hm Hk)). Qed.

Lemma independent_when (c : bool) m : independent m -> independent (when c m).
Proof. intros Hm. exact (appends_independent _ _ (appends_when c _ _ Hm)). Qed.

Lemma independent_value {A} (a : A) (k : A -> V unit) :
  independent (k a) -> independent (v <- value (Some a) ;; k v).
Proof. intros Hk. exact (appends_independent _ _ (appends_value a k _ Hk)). Qed.

(** [if (o.has_value()) { ... o.value() ... }]: the call of [value] is
    only reached on a present value. *)
Lemma independent_guarded {A} (o : option A) (k : A -> V unit) :
  (forall a, independent (k a)) ->
  independent (when (has_value o) (v <- value o ;; k v)).
Proof.
  intros Hk. destruct o as [a|]; simpl.
  - now apply independent_value.
  - apply independent_ret.
Qed.

(** [if (!o.has_value()) return; ... o.value() ...]. *)
Lemma independent_unless_absent {A} (o : option A) (k : A -> V unit) :
  (forall a, independent (k a)) ->
  independent (if negb (has_value o) then V_ret tt else v <- value o ;; k v).
Proof.
  intros Hk. destruct o as [a|]; simpl.
  - now apply independent_value.
  - apply independent_ret.
Qed.

Lemma findings_seq m k :
  independent m -> independent k -> findings (m ;; k) = (findings m ++ findings k)%list.
Proof. intros Hm Hk. apply appends_findings. now apply appends_seq. Qed.
End ValidatorMonad.

Create HintDb validator.

#[local] Hint Resolve independent_ret independent_push_back independent_seq
  independent_when independent_value independent_guarded
  independent_unless_absent : validator.

Section ValidatorFacts.
Context {D : Type} `{Double D}.
Local Open Scope validator_scope.

Lemma independent_check_required field is_present :
  independent (check_required field is_present).
Proof. unfold check_required. auto with validator. Qed.

Lemma independent_check_range field v lo hi sev :
  independent (check_range field v lo hi sev).
Proof. unfold check_range. auto with validator. Qed.

Lemma independent_check_percentage field v : independent (check_percentage field v).
Proof. apply independent_check_range. Qed.

Lemma independent_check_pressure field v : independent (check_pressure field v).
Proof. apply independent_check_range. Qed.

Lemma independent_check_positive field v : independent (check_positive field v).
Proof. unfold check_positive. auto with validator. Qed.

Lemma independent_check_non_negative field v :
  independent (check_non_negative field v).
Proof. unfold check_non_negative. auto with validator. Qed.

Lemma independent_check_iso8601 field v : independent (check_iso8601 field v).
Proof. unfold check_iso8601. auto with validator. Qed.

Lemma independent_check_present (member : option D) (check : D -> V unit) :
  (forall v, independent (check v)) -> independent (check_present member check).
Proof. intros Hc. unfold check_present. auto with validator. Qed.

Lemma independent_check_positive_int member field message :
  independent (check_positive_int member field message).
Proof. unfold check_positive_int. auto with validator. Qed.
End ValidatorFacts.

#[local] Hint Resolve independent_check_required independent_check_range
  independent_check_percentage independent_check_pressure
  independent_check_positive independent_check_non_negative
  independent_check_iso8601 independent_check_present
  independent_check_positive_int : validator.

Section ValidatorChecks.
Context {D : Type} `{Double D}.
Local Open Scope validator_scope.

Lemma independent_validate_schema (orsf : ORSF D) : independent (validate_schema orsf).
Proof. unfold validate_schema. auto with validator. Qed.

Lemma independent_validate_metadata metadata : independent (validate_metadata metadata).
Proof.
  unfold validate_metadata. destruct (updated_at metadata); simpl;
    auto 20 with validator.
Qed.

Lemma independent_validate_car car : independent (validate_car car).
Proof.
  unfold validate_car. destruct (car_class car); simpl; auto 20 with validator.
Qed.

Lemma independent_validate_context (context : option (Context_ D)) :
  independent (validate_context context).
Proof.
  unfold validate_context. destruct context as [ctx|]; simpl; [|auto with validator].
  apply independent_value. destruct (rubber ctx); simpl; auto 20 with validator.
Qed.

Lemma independent_validate_aero (aero : option (Aerodynamics D)) :
  independent (validate_aero aero).
Proof. unfold validate_aero. auto 20 with validator. Qed.

Lemma independent_validate_corner_suspension (corner : option (CornerSuspension D)) name :
  independent (validate_corner_suspension corner name).
Proof. unfold validate_corner_suspension. auto 30 with validator. Qed.

Lemma independent_validate_suspension (suspension : option (Suspension D)) :
  independent (validate_suspension suspension).
Proof.
  unfold validate_suspension.
  auto 20 using independent_validate_corner_suspension with validator.
Qed.

Lemma independent_validate_tires (tires : option (Tires D)) :
  independent (validate_tires tires).
Proof. unfold validate_tires. auto 20 with validator. Qed.

Lemma independent_validate_drivetrain (drivetrain : option (Drivetrain D)) :
  independent (validate_drivetrain drivetrain).
Proof. unfold validate_drivetrain. auto 20 with validator. Qed.

Lemma independent_validate_gear_ratios (ratios : list D) (i : nat) :
  independent (validate_gear_ratios i ratios).
Proof.
  revert i. induction ratios as [|ratio rest IH]; intros i; simpl;
    auto with validator.
Qed.

Lemma independent_validate_gearing (gearing : option (Gearing D)) :
  independent (validate_gearing gearing).
Proof.
  unfold validate_gearing.
  auto 20 using independent_validate_gear_ratios with validator.
Qed.

Lemma independent_validate_brakes (brakes : option (Brakes D)) :
  independent (validate_brakes brakes).
Proof. unfold validate_brakes. auto 20 with validator. Qed.

Lemma independent_validate_electronics (electronics : option (Electronics D)) :
  independent (validate_electronics electronics).
Proof. unfold validate_electronics. auto 20 with validator. Qed.

Lemma independent_validate_fuel (fuel : option (Fuel D)) :
  independent (validate_fuel fuel).
Proof. unfold validate_fuel. auto 20 with validator. Qed.
End ValidatorChecks.

Section ValidatorClaims.
Context {D : Type} `{Double D}.
Local Open Scope validator_scope.

Lemma independent_validate_setup (setup : Setup D) : independent (validate_setup setup).
Proof.
  unfold validate_setup.
  auto 20 using independent_validate_aero, independent_validate_suspension,
    independent_validate_tires, independent_validate_drivetrain,
    independent_validate_gearing, independent_validate_brakes,
    independent_validate_electronics, independent_validate_fuel with validator.
Qed.

Lemma independent_validate_cross_field (orsf : ORSF D) :
  independent (validate_cross_field orsf).
Proof.
  unfold validate_cross_field. apply independent_guarded. intros ctx.
  destruct (ambient_temp_c ctx), (track_temp_c ctx); simpl; auto 20 with validator.
Qed.

(** The checks [validate] runs, in order, and those [validate_setup]
    runs. *)
Definition checks (orsf : ORSF D) : list (V unit) :=
  [validate_schema orsf; validate_metadata orsf.(metadata);
   validate_car orsf.(car); validate_context orsf.(context);
   validate_setup orsf.(setup); validate_cross_field orsf].

Definition setup_checks (setup : Setup D) : list (V unit) :=
  [validate_aero setup.(aero); validate_suspension setup.(suspension);
   validate_tires setup.(tires); validate_drivetrain setup.(drivetrain);
   validate_gearing setup.(gearing); validate_brakes setup.(brakes);
   validate_electronics setup.(electronics); validate_fuel setup.(fuel)].

Lemma checks_independent (orsf : ORSF D) : Forall independent (checks orsf).
Proof.
  repeat constructor;
    auto using independent_validate_schema, independent_validate_metadata,
      independent_validate_car, independent_validate_context,
      independent_validate_setup, independent_validate_cross_field.
Qed.

Lemma setup_checks_independent (setup : Setup D) :
  Forall independent (setup_checks setup).
Proof.
  repeat constructor;
    auto using independent_validate_aero, independent_validate_suspension,
      independent_validate_tires, independent_validate_drivetrain,
      independent_validate_gearing, independent_validate_brakes,
      independent_validate_electronics, independent_validate_fuel.
Qed.

(** [validate] reports the findings of each check, in order. *)
Lemma validate_body_findings (orsf : ORSF D) :
  appends (validate_body orsf) (List.concat (map findings (checks orsf))).
Proof.
  unfold checks. cbn [map List.concat]. rewrite List.app_nil_r. unfold validate_body.
  repeat apply appends_seq.
  - apply independent_validate_schema.
  - apply independent_validate_metadata.
  - apply independent_validate_car.
  - apply independent_validate_context.
  - apply independent_validate_setup.
  - apply independent_validate_cross_field.
Qed.

Lemma validate_setup_findings (setup : Setup D) :
  appends (validate_setup setup) (List.concat (map findings (setup_checks setup))).
Proof.
  unfold setup_checks. cbn [map List.concat]. rewrite List.app_nil_r. unfold validate_setup.
  repeat apply appends_seq.
  - apply independent_validate_aero.
  - apply independent_validate_suspension.
  - apply independent_validate_tires.
  - apply independent_validate_drivetrain.
  - apply independent_validate_gearing.
  - apply independent_validate_brakes.
  - apply independent_validate_electronics.
  - apply independent_validate_fuel.
Qed.

(** A document without an id whose car class is not one of the known
    classes. *)
Definition unknown_class_without_id : ORSF D :=
  {| schema := "orsf://v1";
     metadata := {| id := ""; name := "Severity Test"; notes := None;
                    created_at := "2024-01-15T10:00:00Z"; updated_at := None;
                    created_by := None; tags := None; source := None;
                    origin_sim := None |};
     car := {| make := "Test"; model := "Car"; variant := None;
               car_class := Some "Kart"; bop_id := None |};
     context := None; setup := Setup_default; compat := None |}.
End ValidatorClaims.

Section GearRatioClaims.
Local Open Scope validator_scope.

(** The text occurs somewhere in the other. *)
Fixpoint contains (needle haystack : string) : bool :=
  prefix needle haystack
  || match haystack with
     | EmptyString => false
     | String _ rest => contains needle rest
     end.

(** The finding for the ratio at index [i]. *)
Definition gear_ratio_error (i : nat) : ValidationError :=
  {| severity := Error; code := OutOfRange;
     field := "setup.gearing.gear_ratios[" ++ string_of_nat i ++ "]";
     message := "Gear ratio must be positive";
     expected := None; actual := None |}.

Definition empty_ratios_warning : ValidationError :=
  {| severity := Warning; code := InvalidFormat;
     field := "setup.gearing.gear_ratios";
     message := "Gear ratios array is empty";
     expected := None; actual := None |}.

(** The indices, counted from [i], of the ratios that are zero or below. *)
Fixpoint non_positive_indices {D} `{Double D} (i : nat) (ratios : list D) : list nat :=
  match ratios with
  | [] => []
  | ratio :: rest =>
      if (ratio <=? dlit 0.0)%D then i :: non_positive_indices (S i) rest
      else non_positive_indices (S i) rest
  end.

Lemma validate_gear_ratios_appends {D} `{Double D} (ratios : list D) (i : nat) :
  appends (validate_gear_ratios i ratios)
          (map gear_ratio_error (non_positive_indices i ratios)).
Proof.
  revert i. induction ratios as [|ratio rest IH]; intros i; simpl.
  - apply appends_ret.
  - destruct (ratio <=? dlit 0.0)%D; simpl.
    + apply (appends_seq _ _ [gear_ratio_error i]); [apply appends_push_back|apply IH].
    + apply (appends_seq _ _ []); [apply appends_ret|apply IH].
Qed.

Definition gearing_of {D} (ratios : list D) (reverse : option D) : option (Gearing D) :=
  Some {| gear_ratios := Some ratios; reverse_ratio := reverse |}.

(** Example 6 of [validation_example.cpp]. *)
Definition gearing_test {D} `{Double D} : ORSF D :=
  {| schema := "orsf://v1";
     metadata := {| id := "gearing-test"; name := "Gearing Test"; notes := None;
                    created_at := "2024-01-15T10:00:00Z"; updated_at := None;
                    created_by := None; tags := None; source := None;
                    origin_sim := None |};
     car := {| make := "Test"; model := "Car"; variant := None;
               car_class := None; bop_id := None |};
     context := None;
     setup := {| aero := None; suspension := None; tires := None;
                 drivetrain := None;
                 gearing := gearing_of [dlit 3.5; dlit (-2.8); dlit 2.3;
                                        dlit 0.0; dlit 1.6] None;
                 brakes := None; electronics := None; fuel := None;
                 strategy := None |};
     compat := None |}.

(** C8, as the code has it. On a present ratio list, [validate_gearing]
    reports a Warning when the list is empty, then one OutOfRange Error
    for each ratio that is zero or below, in index order; the index is in
    the field path of the finding, [setup.gearing.gear_ratios[<index>]],
    and the message is the same for all. The check of the reverse ratio
    follows. For the ratios 3.5, -2.8, 2.3, 0.0, 1.6 the document of the
    example has exactly two findings, both OutOfRange Errors, at indices
    1 and 3, in exact arithmetic and in binary64. *)
Theorem validate_gearing_reports_by_index :
  (forall (D : Type) (H : Double D) (ratios : list D) (reverse : option D),
      findings (validate_gearing (gearing_of ratios reverse))
      = ((if empty ratios then [empty_ratios_warning] else [])
         ++ map gear_ratio_error (non_positive_indices 0 ratios)
         ++ findings (check_present reverse
                        (check_positive "setup.gearing.reverse_ratio")))%list)
  /\ validate (gearing_test (D := Q)) = Ok [gear_ratio_error 1; gear_ratio_error 3]
  /\ validate (gearing_test (D := float)) = Ok [gear_ratio_error 1; gear_ratio_error 3]
  /\ (forall i, (gear_ratio_error i).(severity) = Error
                /\ (gear_ratio_error i).(code) = OutOfRange).
Proof.
  split; [|repeat split; vm_compute; reflexivity].
  intros D H ratios reverse. apply appends_findings.
  unfold validate_gearing, gearing_of. apply appends_value.
  rewrite List.app_assoc. apply appends_seq.
  - apply appends_value.
    apply (appends_seq _ _ (if empty ratios then [empty_ratios_warning] else [])).
    + apply appends_when, appends_push_back.
    + apply validate_gear_ratios_appends.
  - apply independent_check_present. intros v. apply independent_check_positive.
Qed.

(** C8 fails as stated: the two findings of the example carry the index
    in their field path and not in their message, which has no digit of
    it. *)
Lemma gear_ratio_index_not_in_message :
  exists e1 e3,
    validate (gearing_test (D := Q)) = Ok [e1; e3]
    /\ e1.(field) = "setup.gearing.gear_ratios[1]"
    /\ e3.(field) = "setup.gearing.gear_ratios[3]"
    /\ e1.(message) = "Gear ratio must be positive"
    /\ e3.(message) = "Gear ratio must be positive"
    /\ contains "1" e1.(message) = false
    /\ contains "3" e3.(message) = false.
Proof.
  exists (gear_ratio_error 1), (gear_ratio_error 3).
  repeat split; vm_compute; reflexivity.
Qed.
End GearRatioClaims.

(* ------------------------------------------------------------------ *)
(** ** The validator: the findings that are due, leaf by leaf *)

Section FindingsDue.
Context {D : Type} `{Double D}.
Local Open Scope validator_scope.

(** One finding when the test holds, none otherwise. *)
Definition reported (test : bool) (e : ValidationError) : list ValidationError :=
  if test then [e] else [].

(** The findings of a member that is there; none for an absent one. *)
Definition of_present {A} (member : option A) (due : A -> list ValidationError)
  : list ValidationError :=
  match member with
  | Some v => due v
  | None => []
  end.

Definition required_due (field text : string) : list ValidationError :=
  reported (text =? "")
    {| severity := Error; code := Required; field := field;
       message := "Required field is missing"; expected := None; actual := None |}.

Definition range_due (field : string) (min max : D) (severity : ValidationSeverity)
           (v : D) : list ValidationError :=
  reported ((v <? min)%D || (v >? max)%D)
    {| severity := severity; code := OutOfRange; field := field;
       message := "Value out of range";
       expected := Some (d_put min ++ " to " ++ d_put max);
       actual := Some (d_to_string v) |}.

Definition percentage_due (field : string) : D -> list ValidationError :=
  range_due field (dlit 0.0) (dlit 100.0) Error.

Definition pressure_due (field : string) : D -> list ValidationError :=
  range_due field (dlit 50.0) (dlit 400.0) Warning.

Definition positive_due (field : string) (v : D) : list ValidationError :=
  reported (v <=? dlit 0.0)%D
    {| severity := Error; code := OutOfRange; field := field;
       message := "Value must be positive";
       expected := Some "> 0"; actual := Some (d_to_string v) |}.

Definition non_negative_due (field : string) (v : D) : list ValidationError :=
  reported (v <? dlit 0.0)%D
    {| severity := Error; code := OutOfRange; field := field;
       message := "Value must be non-negative";
       expected := Some ">= 0"; actual := Some (d_to_string v) |}.

Definition positive_int_due (field message : string) (n : Z) : list ValidationError :=
  reported (n <=? 0)%Z
    {| severity := Error; code := OutOfRange; field := field;
       message := message; expected := None; actual := None |}.

Definition iso8601_due (field text : string) : list ValidationError :=
  reported (negb (is_valid_iso8601 text))
    {| severity := Warning; code := InvalidFormat; field := field;
       message := "Invalid ISO8601 timestamp format";
       expected := Some "YYYY-MM-DDTHH:MM:SS(.sss)?(Z|[+-]HH:MM)?";
       actual := Some text |}.

(** A text outside an allow-list. *)
Definition listed_due (field message text : string) (allowed : list string)
  : list ValidationError :=
  reported (negb (existsb (fun a => text =? a) allowed))
    {| severity := Warning; code := InvalidFormat; field := field;
       message := message ++ text; expected := None; actual := None |}.

Definition schema_due (orsf : ORSF D) : list ValidationError :=
  reported (negb (schema orsf =? "orsf://v1"))
    {| severity := Error; code := SchemaInvalid; field := "schema";
       message := "Invalid schema version";
       expected := Some "orsf://v1"; actual := Some (schema orsf) |}.

Definition metadata_due (m : Metadata) : list ValidationError :=
  (required_due "metadata.id" (id m)
  ++ required_due "metadata.name" (name m)
  ++ required_due "metadata.created_at" (created_at m)
  ++ (if created_at m =? "" then []
      else iso8601_due "metadata.created_at" (created_at m))
  ++ of_present (updated_at m)
       (fun updated =>
          if updated =? "" then [] else iso8601_due "metadata.updated_at" updated)
  ++ of_present (updated_at m)
       (fun updated =>
          reported (String.ltb updated (created_at m))
            {| severity := Warning; code := Incompatible;
               field := "metadata.updated_at";
               message := "Updated timestamp is before created timestamp";
               expected := None; actual := None |}))%list.

Definition car_due (c : Car) : list ValidationError :=
  (required_due "car.make" (make c)
  ++ required_due "car.model" (model c)
  ++ of_present (car_class c)
       (fun class => listed_due "car.class" "Unknown car class: " class valid_classes))%list.

Definition context_due (context : option (Context_ D)) : list ValidationError :=
  (of_present context
    (fun ctx =>
       of_present (ambient_temp_c ctx)
         (range_due "context.ambient_temp_c" (dlit (-50.0)) (dlit 70.0) Warning)
       ++ of_present (track_temp_c ctx)
            (range_due "context.track_temp_c" (dlit (-20.0)) (dlit 80.0) Warning)
       ++ of_present (wetness ctx)
            (range_due "context.wetness" (dlit 0.0) (dlit 1.0) Error)
       ++ of_present (rubber ctx)
            (fun level =>
               listed_due "context.rubber" "Unknown rubber level: " level valid_levels)))%list.

Definition aero_due (aero : option (Aerodynamics D)) : list ValidationError :=
  (of_present aero
    (fun a =>
       of_present (front_ride_height_mm a) (positive_due "setup.aero.front_ride_height_mm")
       ++ of_present (rear_ride_height_mm a) (positive_due "setup.aero.rear_ride_height_mm")
       ++ of_present (brake_duct_front_pct a)
            (percentage_due "setup.aero.brake_duct_front_pct")
       ++ of_present (brake_duct_rear_pct a)
            (percentage_due "setup.aero.brake_duct_rear_pct")
       ++ of_present (radiator_opening_pct a)
            (percentage_due "setup.aero.radiator_opening_pct")
       ++ of_present (front_downforce_n a)
            (non_negative_due "setup.aero.front_downforce_n")
       ++ of_present (rear_downforce_n a)
            (non_negative_due "setup.aero.rear_downforce_n")))%list.

Definition corner_due (corner : option (CornerSuspension D)) (corner_name : string)
  : list ValidationError :=
  (of_present corner
    (fun c =>
       of_present (camber_deg c)
         (range_due (corner_name ++ ".camber_deg") (dlit (-10.0)) (dlit 5.0) Warning)
       ++ of_present (spring_rate_n_mm c)
            (positive_due (corner_name ++ ".spring_rate_n_mm"))
       ++ of_present (ride_height_mm c) (positive_due (corner_name ++ ".ride_height_mm"))
       ++ of_present (bumpstop_gap_mm c)
            (non_negative_due (corner_name ++ ".bumpstop_gap_mm"))
       ++ of_present (bumpstop_rate_n_mm c)
            (positive_due (corner_name ++ ".bumpstop_rate_n_mm"))
       ++ of_present (damper_bump_slow_n_s_m c)
            (non_negative_due (corner_name ++ ".damper_bump_slow_n_s_m"))
       ++ of_present (damper_bump_fast_n_s_m c)
            (non_negative_due (corner_name ++ ".damper_bump_fast_n_s_m"))
       ++ of_present (damper_rebound_slow_n_s_m c)
            (non_negative_due (corner_name ++ ".damper_rebound_slow_n_s_m"))
       ++ of_present (damper_rebound_fast_n_s_m c)
            (non_negative_due (corner_name ++ ".damper_rebound_fast_n_s_m"))))%list.

Definition suspension_due (suspension : option (Suspension D)) : list ValidationError :=
  (of_present suspension
    (fun s =>
       corner_due (front_left s) "setup.suspension.front_left"
       ++ corner_due (front_right s) "setup.suspension.front_right"
       ++ corner_due (rear_left s) "setup.suspension.rear_left"
       ++ corner_due (rear_right s) "setup.suspension.rear_right"
       ++ of_present (heave_spring_n_mm s)
            (positive_due "setup.suspension.heave_spring_n_mm")))%list.

Definition tires_due (tires : option (Tires D)) : list ValidationError :=
  (of_present tires
    (fun t =>
       of_present (pressure_fl_kpa t) (pressure_due "setup.tires.pressure_fl_kpa")
       ++ of_present (pressure_fr_kpa t) (pressure_due "setup.tires.pressure_fr_kpa")
       ++ of_present (pressure_rl_kpa t) (pressure_due "setup.tires.pressure_rl_kpa")
       ++ of_present (pressure_rr_kpa t) (pressure_due "setup.tires.pressure_rr_kpa")))%list.

Definition drivetrain_due (drivetrain : option (Drivetrain D)) : list ValidationError :=
  (of_present drivetrain
    (fun d =>
       of_present (diff_preload_nm d)
         (non_negative_due "setup.drivetrain.diff_preload_nm")
       ++ of_present (diff_power_ramp_pct d)
            (percentage_due "setup.drivetrain.diff_power_ramp_pct")
       ++ of_present (diff_coast_ramp_pct d)
            (percentage_due "setup.drivetrain.diff_coast_ramp_pct")
       ++ of_present (final_drive_ratio d)
            (positive_due "setup.drivetrain.final_drive_ratio")
       ++ of_present (lsd_clutch_plates d)
            (positive_int_due "setup.drivetrain.lsd_clutch_plates"
               "LSD clutch plates must be positive")))%list.

Definition gearing_due (gearing : option (Gearing D)) : list ValidationError :=
  (of_present gearing
    (fun g =>
       of_present (gear_ratios g)
         (fun ratios =>
            reported (empty ratios) empty_ratios_warning
            ++ map gear_ratio_error (non_positive_indices 0 ratios))
       ++ of_present (reverse_ratio g) (positive_due "setup.gearing.reverse_ratio")))%list.

Definition brakes_due (brakes : option (Brakes D)) : list ValidationError :=
  (of_present brakes
    (fun b =>
       of_present (brake_bias_pct b) (percentage_due "setup.brakes.brake_bias_pct")
       ++ of_present (max_force_n b) (positive_due "setup.brakes.max_force_n")))%list.

Definition electronics_due (electronics : option (Electronics D))
  : list ValidationError :=
  (of_present electronics
    (fun e =>
       of_present (pit_limiter_kph e) (positive_due "setup.electronics.pit_limiter_kph")))%list.

Definition fuel_due (fuel : option (Fuel D)) : list ValidationError :=
  (of_present fuel
    (fun f =>
       of_present (start_fuel_l f) (non_negative_due "setup.fuel.start_fuel_l")
       ++ of_present (per_lap_consumption_l f)
            (positive_due "setup.fuel.per_lap_consumption_l")
       ++ of_present (stint_target_laps f)
            (positive_int_due "setup.fuel.stint_target_laps"
               "Stint target laps must be positive")))%list.

Definition setup_due (s : Setup D) : list ValidationError :=
  (aero_due (aero s) ++ suspension_due (suspension s) ++ tires_due (tires s)
  ++ drivetrain_due (drivetrain s) ++ gearing_due (gearing s)
  ++ brakes_due (brakes s) ++ electronics_due (electronics s) ++ fuel_due (fuel s))%list.

Definition cross_field_due (orsf : ORSF D) : list ValidationError :=
  (of_present (context orsf)
    (fun ctx =>
       of_present (ambient_temp_c ctx)
         (fun ambient =>
            of_present (track_temp_c ctx)
              (fun track =>
                 reported (track <? ambient - dlit 5.0)%D
                   {| severity := Warning; code := Incompatible;
                      field := "context.track_temp_c";
                      message := "Track temperature is significantly lower than ambient temperature";
                      expected := None; actual := None |}
                 ++ reported (track >? ambient + dlit 40.0)%D
                      {| severity := Warning; code := Incompatible;
                         field := "context.track_temp_c";
                         message := "Track temperature is unusually high compared to ambient";
                         expected := None; actual := None |}))))%list.

(** Every finding that is due on a document, in the order of the checks:
    each term is decided by the one member it names (the two
    temperatures together, for the cross-field check). *)
Definition findings_due (orsf : ORSF D) : list ValidationError :=
  (schema_due orsf ++ metadata_due (metadata orsf) ++ car_due (car orsf)
  ++ context_due (context orsf) ++ setup_due (setup orsf) ++ cross_field_due orsf)%list.

(** *** The checks append what is due *)

Lemma appends_reported (test : bool) e :
  appends (when test (push_back e)) (reported test e).
Proof. destruct test; [apply appends_push_back | apply appends_ret]. Qed.

Lemma appends_guarded {A} (o : option A) (k : A -> V unit) due :
  (forall a, appends (k a) (due a)) ->
  appends (when (has_value o) (v <- value o ;; k v)) (of_present o due).
Proof.
  intros Hk. destruct o as [a|]; cbn; [now apply appends_value | apply appends_ret].
Qed.

Lemma appends_unless_absent {A} (o : option A) (k : A -> V unit) due :
  (forall a, appends (k a) (due a)) ->
  appends (if negb (has_value o) then V_ret tt else v <- value o ;; k v)
          (of_present o due).
Proof.
  intros Hk. destruct o as [a|]; cbn; [now apply appends_value | apply appends_ret].
Qed.

Lemma appends_check_required field text :
  appends (check_required field (negb (text =? ""))) (required_due field text).
Proof.
  unfold check_required, required_due. rewrite Bool.negb_involutive.
  apply appends_reported.
Qed.

Lemma appends_check_range field lo hi sev v :
  appends (check_range field v lo hi sev) (range_due field lo hi sev v).
Proof. apply appends_reported. Qed.

Lemma appends_check_positive field v :
  appends (check_positive field v) (positive_due field v).
Proof. apply appends_reported. Qed.

Lemma appends_check_non_negative field v :
  appends (check_non_negative field v) (non_negative_due field v).
Proof. apply appends_reported. Qed.

Lemma appends_check_iso8601 field text :
  appends (check_iso8601 field text) (iso8601_due field text).
Proof. apply appends_reported. Qed.

Lemma appends_check_present (member : option D) check due :
  (forall v, appends (check v) (due v)) ->
  appends (check_present member check) (of_present member due).
Proof. intros Hc. now apply appends_guarded. Qed.

Lemma appends_check_positive_int member field message :
  appends (check_positive_int member field message)
          (of_present member (positive_int_due field message)).
Proof. apply appends_guarded. intros n. apply appends_reported. Qed.

(** A block of checks on the members of a container. *)
Ltac leaf_checks :=
  repeat first
    [ apply appends_seq
    | apply appends_check_present; intros ?
    | apply appends_check_positive_int
    | apply appends_check_range
    | apply appends_check_positive
    | apply appends_check_non_negative ].

Lemma validate_schema_due (orsf : ORSF D) :
  appends (validate_schema orsf) (schema_due orsf).
Proof. apply appends_reported. Qed.

Lemma validate_metadata_due (m : Metadata) :
  appends (validate_metadata m) (metadata_due m).
Proof.
  unfold validate_metadata, metadata_due.
  repeat apply appends_seq; try apply appends_check_required.
  - destruct (created_at m =? ""); [apply appends_ret | apply appends_check_iso8601].
  - destruct (updated_at m) as [u|]; cbn [has_value when of_present];
      [|apply appends_ret].
    apply appends_value. destruct (u =? ""); cbn [negb when]; [apply appends_ret|].
    apply appends_value, appends_check_iso8601.
  - apply appends_guarded. intros updated. apply appends_reported.
Qed.

Lemma validate_car_due (c : Car) : appends (validate_car c) (car_due c).
Proof.
  unfold validate_car, car_due.
  repeat apply appends_seq; try apply appends_check_required.
  destruct (car_class c) as [class|]; cbn [has_value when of_present];
    [|apply appends_ret].
  apply appends_value. unfold listed_due.
  destruct (existsb (fun cls => class =? cls) valid_classes);
    cbn [negb when reported]; [apply appends_ret|].
  apply appends_value, appends_push_back.
Qed.

Lemma validate_context_due (context : option (Context_ D)) :
  appends (validate_context context) (context_due context).
Proof.
  unfold validate_context, context_due. apply appends_unless_absent. intros ctx.
  repeat apply appends_seq;
    try (apply appends_guarded; intros v; apply appends_check_range).
  destruct (rubber ctx) as [level|]; cbn [has_value when of_present];
    [|apply appends_ret].
  apply appends_value. unfold listed_due.
  destruct (existsb (fun l => level =? l) valid_levels);
    cbn [negb when reported]; [apply appends_ret|].
  apply appends_value, appends_push_back.
Qed.

Lemma validate_aero_due (aero : option (Aerodynamics D)) :
  appends (validate_aero aero) (aero_due aero).
Proof.
  unfold validate_aero, aero_due, percentage_due, check_percentage.
  apply appends_unless_absent. intros a. leaf_checks.
Qed.

Lemma validate_corner_suspension_due (corner : option (CornerSuspension D)) name :
  appends (validate_corner_suspension corner name) (corner_due corner name).
Proof.
  unfold validate_corner_suspension, corner_due.
  apply appends_unless_absent. intros c. leaf_checks.
Qed.

Lemma validate_suspension_due (suspension : option (Suspension D)) :
  appends (validate_suspension suspension) (suspension_due suspension).
Proof.
  unfold validate_suspension, suspension_due.
  apply appends_unless_absent. intros s.
  repeat apply appends_seq; try apply validate_corner_suspension_due.
  leaf_checks.
Qed.

Lemma validate_tires_due (tires : option (Tires D)) :
  appends (validate_tires tires) (tires_due tires).
Proof.
  unfold validate_tires, tires_due, pressure_due, check_pressure.
  apply appends_unless_absent. intros t. leaf_checks.
Qed.

Lemma validate_drivetrain_due (drivetrain : option (Drivetrain D)) :
  appends (validate_drivetrain drivetrain) (drivetrain_due drivetrain).
Proof.
  unfold validate_drivetrain, drivetrain_due, percentage_due, check_percentage.
  apply appends_unless_absent. intros d. leaf_checks.
Qed.

Lemma validate_gearing_due (gearing : option (Gearing D)) :
  appends (validate_gearing gearing) (gearing_due gearing).
Proof.
  unfold validate_gearing, gearing_due.
  apply appends_unless_absent. intros g. apply appends_seq; [|leaf_checks].
  apply appends_guarded. intros ratios. apply appends_seq.
  - apply appends_reported.
  - apply validate_gear_ratios_appends.
Qed.

Lemma validate_brakes_due (brakes : option (Brakes D)) :
  appends (validate_brakes brakes) (brakes_due brakes).
Proof.
  unfold validate_brakes, brakes_due, percentage_due, check_percentage.
  apply appends_unless_absent. intros b. leaf_checks.
Qed.

Lemma validate_electronics_due (electronics : option (Electronics D)) :
  appends (validate_electronics electronics) (electronics_due electronics).
Proof.
  unfold validate_electronics, electronics_due.
  apply appends_unless_absent. intros e. leaf_checks.
Qed.

Lemma validate_fuel_due (fuel : option (Fuel D)) :
  appends (validate_fuel fuel) (fuel_due fuel).
Proof.
  unfold validate_fuel, fuel_due.
  apply appends_unless_absent. intros f. leaf_checks.
Qed.

Lemma validate_setup_due (s : Setup D) : appends (validate_setup s) (setup_due s).
Proof.
  unfold validate_setup, setup_due.
  apply appends_seq; [apply validate_aero_due|].
  apply appends_seq; [apply validate_suspension_due|].
  apply appends_seq; [apply validate_tires_due|].
  apply appends_seq; [apply validate_drivetrain_due|].
  apply appends_seq; [apply validate_gearing_due|].
  apply appends_seq; [apply validate_brakes_due|].
  apply appends_seq; [apply validate_electronics_due | apply validate_fuel_due].
Qed.

Lemma validate_cross_field_due (orsf : ORSF D) :
  appends (validate_cross_field orsf) (cross_field_due orsf).
Proof.
  unfold validate_cross_field, cross_field_due. apply appends_guarded. intros ctx.
  destruct (ambient_temp_c ctx) as [ambient|], (track_temp_c ctx) as [track|];
    cbn [has_value andb when of_present]; try apply appends_ret.
  apply appends_value, appends_value, appends_seq; apply appends_reported.
Qed.

Lemma validate_body_due (orsf : ORSF D) :
  appends (validate_body orsf) (findings_due orsf).
Proof.
  unfold validate_body, findings_due.
  apply appends_seq; [apply validate_schema_due|].
  apply appends_seq; [apply validate_metadata_due|].
  apply appends_seq; [apply validate_car_due|].
  apply appends_seq; [apply validate_context_due|].
  apply appends_seq; [apply validate_setup_due | apply validate_cross_field_due].
Qed.

(** A document with something wrong in every part: the schema, two of
    the metadata, the car class, the context, each of the eight blocks
    of the setup, and the two temperatures against each other. *)
Definition wrong_in_every_part : ORSF D :=
  {| schema := "orsf://v2";
     metadata := {| id := ""; name := "Every part"; notes := None;
                    created_at := "yesterday"; updated_at := None;
                    created_by := None; tags := None; source := None;
                    origin_sim := None |};
     car := {| make := "Test"; model := "Car"; variant := None;
               car_class := Some "Kart"; bop_id := None |};
     context := Some {| track := None; layout := None;
                        ambient_temp_c := Some (dlit 30.0);
                        track_temp_c := Some (dlit 10.0);
                        rubber := None; wetness := Some (dlit 1.5);
                        session_type := None; fuel_rule := None |};
     setup :=
       {| aero := Some (set_front_ride_height_mm Aerodynamics_default
                          (Some (dlit (-1.0))));
          suspension :=
            Some {| front_left :=
                      Some {| camber_deg := Some (dlit (-12.0)); toe_deg := None;
                              caster_deg := None; spring_rate_n_mm := None;
                              ride_height_mm := None; bumpstop_gap_mm := None;
                              bumpstop_rate_n_mm := None; packer_mm := None;
                              damper_bump_slow_n_s_m := None;
                              damper_bump_fast_n_s_m := None;
                              damper_rebound_slow_n_s_m := None;
                              damper_rebound_fast_n_s_m := None |};
                    front_right := None; rear_left := None; rear_right := None;
                    front_arb := None; rear_arb := None;
                    heave_spring_n_mm := None; heave_packer_mm := None |};
          tires := Some (set_pressure_fl_kpa Tires_default (Some (dlit 30.0)));
          drivetrain :=
            Some {| diff_preload_nm := None; diff_power_ramp_pct := None;
                    diff_coast_ramp_pct := None; final_drive_ratio := None;
                    lsd_clutch_plates := Some 0%Z |};
          gearing := gearing_of [dlit 3.5; dlit (-2.8)] None;
          brakes := Some (set_brake_bias_pct Brakes_default (Some (dlit 120.0)));
          electronics :=
            Some {| tc_level := None; tc2_level := None; abs_level := None;
                    engine_map := None; engine_brake_level := None;
                    pit_limiter_kph := Some (dlit 0.0) |};
          fuel := Some {| start_fuel_l := Some (dlit (-1.0));
                          per_lap_consumption_l := None;
                          stint_target_laps := None; mixture_setting := None |};
          strategy := None |};
     compat := None |}.

(** Severity, code and field of a finding. *)
Definition summary (e : ValidationError)
  : ValidationSeverity * ValidationCode * string :=
  (severity e, code e, field e).

(** The fourteen findings of [wrong_in_every_part], in order. *)
Definition every_part_summary : list (ValidationSeverity * ValidationCode * string) :=
  [(Error, SchemaInvalid, "schema");
   (Error, Required, "metadata.id");
   (Warning, InvalidFormat, "metadata.created_at");
   (Warning, InvalidFormat, "car.class");
   (Error, OutOfRange, "context.wetness");
   (Error, OutOfRange, "setup.aero.front_ride_height_mm");
   (Warning, OutOfRange, "setup.suspension.front_left.camber_deg");
   (Warning, OutOfRange, "setup.tires.pressure_fl_kpa");
   (Error, OutOfRange, "setup.drivetrain.lsd_clutch_plates");
   (Error, OutOfRange, "setup.gearing.gear_ratios[1]");
   (Error, OutOfRange, "setup.brakes.brake_bias_pct");
   (Error, OutOfRange, "setup.electronics.pit_limiter_kph");
   (Error, OutOfRange, "setup.fuel.start_fuel_l");
   (Warning, Incompatible, "context.track_temp_c")].
End FindingsDue.

Section EveryFinding.
Local Open Scope validator_scope.

(** C9. [validate] returns its findings as a list and does not throw,
    and the list is exactly the findings that are due, in the order of
    the checks: each leaf contributes what its own value calls for,
    whatever the members before it were found to be, so no check is
    skipped or cut short by an earlier finding. Each of the six checks,
    and each of the eight checks of the setup, appends its own findings
    to the vector whatever the vector already holds. One document can
    have Errors and Warnings in the same list: a document with something
    wrong in every part has its fourteen findings, in exact arithmetic
    and in binary64. The document is passed by reference to const: no
    function of the validator returns or stores a document. *)
Theorem validate_returns_every_finding :
  (forall (D : Type) (H : Double D) (orsf : ORSF D),
      validate orsf = Ok (findings_due orsf)
      /\ Forall independent (checks orsf)
      /\ Forall independent (setup_checks orsf.(setup))
      /\ validate orsf = Ok (List.concat (map findings (checks orsf)))
      /\ findings (validate_setup orsf.(setup))
         = List.concat (map findings (setup_checks orsf.(setup))))
  /\ (exists errors,
        validate (wrong_in_every_part (D := Q)) = Ok errors
        /\ map summary errors = every_part_summary)
  /\ (exists errors,
        validate (wrong_in_every_part (D := float)) = Ok errors
        /\ map summary errors = every_part_summary)
  /\ (forall (D : Type) (H : Double D),
        exists e w,
          validate (unknown_class_without_id (D := D)) = Ok [e; w]
          /\ e.(severity) = Error /\ e.(code) = Required
          /\ e.(field) = "metadata.id"
          /\ w.(severity) = Warning /\ w.(field) = "car.class").
Proof.
  split; [|split; [|split]].
  - intros D H orsf. split.
    + unfold validate. now rewrite validate_body_due.
    + split; [apply checks_independent|].
      split; [apply setup_checks_independent|]. split.
      * unfold validate. now rewrite validate_body_findings.
      * apply appends_findings, validate_setup_findings.
  - eexists. split; vm_compute; reflexivity.
  - eexists. split; vm_compute; reflexivity.
  - intros D H. eexists. eexists. split; [reflexivity|]. repeat split.
Qed.
End EveryFinding.

(* ------------------------------------------------------------------ *)
(** ** The scenarios of the test suite *)

Section TestSuite.
Local Open Scope Q_scope.

(** [create_test_setup] of [test_mapping.cpp]. *)
Definition create_test_setup : ORSF Q :=
  {| schema := "orsf://v1";
     metadata := {| id := "test-123"; name := "Test Setup"; notes := None;
                    created_at := "2024-01-01T00:00:00Z"; updated_at := None;
                    created_by := None; tags := None; source := None;
                    origin_sim := None |};
     car := {| make := "Porsche"; model := "911 GT3 R"; variant := None;
               car_class := None; bop_id := None |};
     context := None;
     setup := {| aero := Some (set_rear_wing
                                 (set_front_wing Aerodynamics_default (Some 2))
                                 (Some 4));
                 suspension := None;
                 tires := Some (set_pressure_rr_kpa
                                  (set_pressure_rl_kpa
                                     (set_pressure_fr_kpa
                                        (set_pressure_fl_kpa Tires_default (Some 170))
                                        (Some 170))
                                     (Some 165))
                                  (Some 165));
                 drivetrain := None; gearing := None;
                 brakes := Some (set_brake_bias_pct Brakes_default (Some 58));
                 electronics := None; fuel := None; strategy := None |};
     compat := None |}.

Definition tire_fl_psi : FieldMapping Q :=
  {| orsf_path := "setup.tires.pressure_fl_kpa"; native_key := "tire_fl_psi";
     to_native := Some (unit_convert KPA PSI);
     to_orsf := Some (unit_convert PSI KPA); required := false |}.

Definition brake_balance : FieldMapping Q :=
  {| orsf_path := "setup.brakes.brake_bias_pct"; native_key := "brake_balance";
     to_native := Some percent_to_ratio;
     to_orsf := Some ratio_to_percent; required := false |}.

(** A required mapping of a leaf the test setup does not hold. *)
Definition start_fuel_required : FieldMapping Q :=
  {| orsf_path := "setup.fuel.start_fuel_l"; native_key := "fuel";
     to_native := None; to_orsf := None; required := true |}.

Example flatten_test_setup :
  flatten_orsf create_test_setup
  = [("setup.aero.front_wing", 2); ("setup.aero.rear_wing", 4);
     ("setup.brakes.brake_bias_pct", 58);
     ("setup.tires.pressure_fl_kpa", 170); ("setup.tires.pressure_fr_kpa", 170);
     ("setup.tires.pressure_rl_kpa", 165); ("setup.tires.pressure_rr_kpa", 165)].
Proof. reflexivity. Qed.

Example get_value_test_setup :
  get_value create_test_setup "setup.aero.front_wing" = Some 2
  /\ get_value create_test_setup "setup.tires.pressure_fl_kpa" = Some 170
  /\ get_value create_test_setup "setup.nonexistent.field" = None.
Proof. repeat split. Qed.

Example map_to_native_test_setup :
  exists psi ratio,
    map_to_native create_test_setup [tire_fl_psi; brake_balance]
    = Ok [("brake_balance", ratio); ("tire_fl_psi", psi)]
    /\ Qabs (psi - 24.66) <= 0.1 /\ ratio == 0.58.
Proof.
  eexists. eexists. split; [vm_compute; reflexivity|].
  split; [apply Qle_bool_iff|]; vm_compute; reflexivity.
Qed.

(** Flattening the test setup, inflating the flat map into an empty
    document and flattening again gives the same flat map: all its leaves
    are [aero], [tires] and [brakes] leaves. *)
Example flatten_inflate_test_setup :
  flatten_orsf (inflate_orsf (flatten_orsf create_test_setup) ORSF_default)
  = flatten_orsf create_test_setup
  /\ flat_find "setup.tires.pressure_rl_kpa"
               (flatten_orsf (inflate_orsf (flatten_orsf create_test_setup)
                                           ORSF_default)) = Some 165.
Proof.
  split; [reflexivity|].
  apply flatten_inflate_restores_handled.
  - repeat constructor.
  - intros k Hk. left. vm_compute in Hk. vm_compute. tauto.
  - vm_compute. tauto.
  - reflexivity.
Qed.

Lemma map_to_native_by_mapping_witness :
  map_to_native create_test_setup [tire_fl_psi; start_fuel_required; brake_balance]
  = Throw (runtime_error "Required field missing: setup.fuel.start_fuel_l").
Proof.
  exact (proj1 (proj1 (map_to_native_by_mapping
                         create_test_setup [tire_fl_psi] [brake_balance]
                         start_fuel_required _ eq_refl)
                      eq_refl eq_refl)).
Defined.

End TestSuite.

(* ------------------------------------------------------------------ *)
(** * More of the library

    The rest of [utils.cpp] that can be read without the C library's
    locale or clock ([UnitConverter::clamp], [round_to_step],
    [Transform::clamp], [StringUtils::join], [starts_with], [ends_with]),
    and the adapter registry of [adapter.cpp], with what the code
    guarantees of them and of the functions embedded above. *)

(* ------------------------------------------------------------------ *)
(** ** utils.cpp: clamping and rounding *)

(** [std::round]: to the nearest integer, halfway cases away from zero. *)
Class Rounding (D : Type) : Type := { dround : D -> D }.

Definition round_half_away (q : Q) : Z :=
  if Qle_bool 0 q then Qfloor (q + (1 # 2)) else Qceiling (q - (1 # 2)).

#[export] Instance Q_Rounding : Rounding Q := {
  dround q := inject_Z (round_half_away q)
}.

(** In binary64 a finite value with a non-negative exponent is an integer
    already; below that the magnitude is under 2^53, its rounding is exact
    and takes the sign of the argument (so -0.3 rounds to -0.0). Zeros,
    infinities and NaN are returned as they are. *)
Definition float_round (f : float) : float :=
  match Prim2SF f with
  | S754_finite s m e =>
      if (0 <=? e)%Z then f
      else
        let z := round_half_away (inject_Z (Zpos m) * Qpower 2 e) in
        if s then PrimFloat.opp (float_of_Z z) else float_of_Z z
  | _ => f
  end.

#[export] Instance float_Rounding : Rounding float := { dround := float_round }.

Section Clamping.
Context {D : Type} `{Double D} `{Rounding D}.
Local Open Scope double_scope.

(** [std::min(a, b)] is [(b < a) ? b : a], [std::max(a, b)] is
    [(a < b) ? b : a]. *)
Definition std_min (a b : D) : D := if b <? a then b else a.
Definition std_max (a b : D) : D := if a <? b then b else a.

Definition round_to_step (value step : D) : D :=
  if step <=? dlit 0.0 then value
  else dround (value / step) * step.

(** [UnitConverter::clamp]; [step] defaults to [0.0]. *)
Definition clamp (value min max step : D) : D :=
  let clamped := std_max min (std_min max value) in
  if step >? dlit 0.0 then round_to_step clamped step else clamped.

(** [Transform::clamp]. *)
Definition Transform_clamp (min max : D) : TransformFunc D :=
  fun x => Ok (clamp x min max (dlit 0.0)).
End Clamping.

(** The runs of the test suite, in binary64. *)
Example clamp_test_suite :
  clamp (dlit 50.0 : float) (dlit 0.0) (dlit 100.0) (dlit 0.0) = dlit 50.0
  /\ clamp (dlit (-10.0) : float) (dlit 0.0) (dlit 100.0) (dlit 0.0) = dlit 0.0
  /\ clamp (dlit 150.0 : float) (dlit 0.0) (dlit 100.0) (dlit 0.0) = dlit 100.0
  /\ clamp (dlit 52.3 : float) (dlit 0.0) (dlit 100.0) (dlit 5.0) = dlit 50.0
  /\ round_to_step (dlit 53.0 : float) (dlit 5.0) = dlit 55.0
  /\ round_to_step (dlit 14.7 : float) (dlit 0.5) = dlit 14.5.
Proof. vm_compute. repeat split. Qed.

(* ------------------------------------------------------------------ *)
(** ** utils.cpp: joining and testing strings *)

(** [StringUtils::join]: the first part, then the delimiter and a part for
    each part after it. *)
Definition join (parts : list string) (delim : string) : string :=
  match parts with
  | [] => ""
  | first :: rest => fold_left (fun oss part => oss ++ delim ++ part) rest first
  end.

(** [str.compare(pos, len, other) == 0]: the [len] characters of [str] at
    [pos] are [other]. *)
Definition starts_with (str prefix : string) : bool :=
  (String.length prefix <=? String.length str)%nat
  && String.eqb (substring 0 (String.length prefix) str) prefix.

Definition ends_with (str suffix : string) : bool :=
  (String.length suffix <=? String.length str)%nat
  && String.eqb (substring (String.length str - String.length suffix)
                           (String.length suffix) str) suffix.

Example string_utils_test_suite :
  join ["a"; "b"; "c"] "," = "a,b,c"
  /\ join ["a"; "b"; "c"] " - " = "a - b - c"
  /\ join [] "," = ""
  /\ starts_with "hello world" "hello" = true
  /\ starts_with "hello world" "world" = false
  /\ ends_with "hello world" "world" = true
  /\ ends_with "hello world" "hello" = false
  /\ split "a,b,c" "," = ["a"; "b"; "c"].
Proof. vm_compute. repeat split. Qed.

(* ------------------------------------------------------------------ *)
(** ** Clamping and rounding, in exact arithmetic *)

Section ClampingFacts.
Local Open Scope Q_scope.

Lemma std_min_Q (a b : Q) : std_min a b <= a /\ std_min a b <= b
                            /\ (std_min a b = a \/ std_min a b = b).
Proof.
  unfold std_min. destruct (b <? a)%D eqn:Hlt.
  - apply dltb_Q in Hlt. split; [lra|]. split; [lra|]. now right.
  - apply dltb_Q_false in Hlt. split; [lra|]. split; [lra|]. now left.
Qed.

Lemma std_max_Q (a b : Q) : a <= std_max a b /\ b <= std_max a b
                            /\ (std_max a b = a \/ std_max a b = b).
Proof.
  unfold std_max. destruct (a <? b)%D eqn:Hlt.
  - apply dltb_Q in Hlt. split; [lra|]. split; [lra|]. now right.
  - apply dltb_Q_false in Hlt. split; [lra|]. split; [lra|]. now left.
Qed.

(** The rounding is within a half of its argument. *)
Lemma round_half_away_close (q : Q) :
  Qabs (inject_Z (round_half_away q) - q) <= 1 # 2.
Proof.
  unfold round_half_away. apply Qabs_Qle_condition.
  destruct (Qle_bool 0 q).
  - pose proof (Qfloor_le (q + (1 # 2))) as Hlo.
    pose proof (Qlt_floor (q + (1 # 2))) as Hhi.
    rewrite inject_Z_plus in Hhi. change (inject_Z 1) with 1 in Hhi.
    set (f := inject_Z (Qfloor (q + (1 # 2)))) in *.
    split; lra.
  - pose proof (Qle_ceiling (q - (1 # 2))) as Hhi.
    pose proof (Qceiling_lt (q - (1 # 2))) as Hlo.
    unfold Z.sub in Hlo. rewrite inject_Z_plus in Hlo.
    change (inject_Z (Z.opp 1)) with (-1) in Hlo.
    set (c := inject_Z (Qceiling (q - (1 # 2)))) in *.
    split; lra.
Qed.

Lemma Zle_between (a b : Z) (e : Q) :
  inject_Z a <= inject_Z b + e -> e < 1 -> (a <= b)%Z.
Proof.
  intros Hab He. apply Z.lt_succ_r. rewrite Zlt_Qlt. unfold Z.succ.
  rewrite inject_Z_plus. change (inject_Z 1) with 1.
  set (qa := inject_Z a) in *. set (qb := inject_Z b) in *. lra.
Qed.

Lemma round_half_away_comp (x y : Q) :
  x == y -> round_half_away x = round_half_away y.
Proof.
  intros Hxy. unfold round_half_away.
  assert (Qle_bool 0 x = Qle_bool 0 y) as ->.
  { apply Bool.eq_true_iff_eq. rewrite !Qle_bool_iff. now rewrite Hxy. }
  destruct (Qle_bool 0 y); [apply Qfloor_comp | apply Qceiling_comp];
    now rewrite Hxy.
Qed.

(** An integer is its own rounding. *)
Lemma round_half_away_Z (z : Z) : round_half_away (inject_Z z) = z.
Proof.
  unfold round_half_away. destruct (Qle_bool 0 (inject_Z z)).
  - pose proof (Qfloor_le (inject_Z z + (1 # 2))) as Hlo.
    pose proof (Qlt_floor (inject_Z z + (1 # 2))) as Hhi.
    set (f := Qfloor (inject_Z z + (1 # 2))) in *.
    rewrite inject_Z_plus in Hhi. change (inject_Z 1) with 1 in Hhi.
    assert (f <= z)%Z by (apply (Zle_between f z (1 # 2)); [exact Hlo | reflexivity]).
    assert (z <= f)%Z.
    { apply (Zle_between z f (1 # 2)); [|reflexivity].
      set (qf := inject_Z f) in *. set (qz := inject_Z z) in *. lra. }
    lia.
  - pose proof (Qle_ceiling (inject_Z z - (1 # 2))) as Hhi.
    pose proof (Qceiling_lt (inject_Z z - (1 # 2))) as Hlo.
    set (c := Qceiling (inject_Z z - (1 # 2))) in *.
    unfold Z.sub in Hlo. rewrite inject_Z_plus in Hlo.
    change (inject_Z (Z.opp 1)) with (-1) in Hlo.
    assert (c <= z)%Z.
    { apply (Zle_between c z (1 # 2)); [|reflexivity].
      set (qc := inject_Z c) in *. set (qz := inject_Z z) in *. lra. }
    assert (z <= c)%Z.
    { apply (Zle_between z c (1 # 2)); [|reflexivity].
      set (qc := inject_Z c) in *. set (qz := inject_Z z) in *. lra. }
    lia.
Qed.

Lemma clamp_in_range (value min max step : Q) :
  min <= max -> step <= 0 ->
  let r := clamp value min max step in
  min <= r <= max
  /\ (min <= value <= max -> r == value)
  /\ (value < min -> r == min)
  /\ (max < value -> r == max).
Proof.
  intros Hmm Hstep r. subst r. unfold clamp.
  assert ((step >? dlit 0.0)%D = false) as ->.
  { apply dltb_Q_false. cbn [dlit Q_Double]. lra. }
  unfold std_max, std_min.
  destruct (value <? max)%D eqn:H1;
    [apply dltb_Q in H1 | apply dltb_Q_false in H1].
  - destruct (min <? value)%D eqn:H2;
      [apply dltb_Q in H2 | apply dltb_Q_false in H2];
      (split; [lra|]); (split; [intros; lra|]); (split; intros; lra).
  - destruct (min <? max)%D eqn:H2;
      [apply dltb_Q in H2 | apply dltb_Q_false in H2];
      (split; [lra|]); (split; [intros; lra|]); (split; intros; lra).
Qed.

Lemma clamp_inverted (value min max step : Q) :
  max < min -> step <= 0 -> clamp value min max step = min.
Proof.
  intros Hmm Hstep. unfold clamp.
  assert ((step >? dlit 0.0)%D = false) as ->.
  { apply dltb_Q_false. cbn [dlit Q_Double]. lra. }
  unfold std_max. destruct (std_min_Q max value) as (Hle & _ & _).
  destruct (min <? std_min max value)%D eqn:H1; [|reflexivity].
  apply dltb_Q in H1. lra.
Qed.

(** Without a step ([step <= 0]; the default is 0), [clamp] with
    [min <= max] returns a value of the range: the value itself when it
    is in the range, the bound it passed otherwise. With the bounds the
    wrong way round it returns [min] whatever the value. The transform
    [Transform::clamp] is this call: it never throws. *)
Theorem clamp_without_step (value min max step : Q) :
  step <= 0 ->
  (min <= max ->
   let r := clamp value min max step in
   min <= r <= max
   /\ (min <= value <= max -> r == value)
   /\ (value < min -> r == min)
   /\ (max < value -> r == max))
  /\ (max < min -> clamp value min max step = min)
  /\ exists r, Transform_clamp min max value = Ok r
               /\ r = clamp value min max step.
Proof.
  intros Hstep. split; [|split].
  - intros Hmm. now apply clamp_in_range.
  - intros Hmm. now apply clamp_inverted.
  - eexists. split; [reflexivity|]. unfold clamp.
    assert ((step >? dlit 0.0)%D = false) as ->
        by (apply dltb_Q_false; cbn [dlit Q_Double]; lra).
    reflexivity.
Qed.

(** With a step, the result of [round_to_step] is a whole number of steps
    and lies within half a step of the value. *)
Lemma round_to_step_nearest (value step : Q) :
  0 < step ->
  exists k : Z,
    round_to_step value step == inject_Z k * step
    /\ Qabs (round_to_step value step - value) <= step / 2.
Proof.
  intros Hstep. unfold round_to_step.
  assert ((step <=? dlit 0.0)%D = false) as ->
      by (apply dleb_Q_false; cbn [dlit Q_Double]; lra).
  exists (round_half_away (value / step)). split; [reflexivity|].
  cbn [dround Q_Rounding dmul ddiv Q_Double].
  pose proof (round_half_away_close (value / step)) as Hclose.
  set (k := inject_Z (round_half_away (value / step))) in *.
  apply Qabs_Qle_condition in Hclose. apply Qabs_Qle_condition.
  assert (value == (value / step) * step) as Hv by (field; lra).
  set (t := value / step) in *.
  destruct Hclose as [Hlo Hhi]. clearbody t k.
  assert ((k - t) * step <= (1 # 2) * step) as Hup
      by (apply Qmult_le_compat_r; lra).
  assert ((- (1 # 2)) * step <= (k - t) * step) as Hdown
      by (apply Qmult_le_compat_r; lra).
  assert (step / 2 == (1 # 2) * step) as -> by field.
  split; lra.
Qed.

(** With a step, [clamp] lands on a whole number of steps within half a
    step of the value clamped to the range; that may be outside the range
    (on [0, 100] with step 40, the value 100 gives 120). *)
Theorem clamp_with_step (value min max step : Q) :
  0 < step ->
  let r := clamp value min max step in
  (exists k : Z, r == inject_Z k * step)
  /\ Qabs (r - clamp value min max 0) <= step / 2
  /\ clamp 100 0 100 40 == 120.
Proof.
  intros Hstep r. subst r. unfold clamp.
  assert ((step >? dlit 0.0)%D = true) as ->
      by (apply dltb_Q; cbn [dlit Q_Double]; lra).
  assert ((0 >? dlit 0.0)%D = false) as -> by reflexivity.
  destruct (round_to_step_nearest (std_max min (std_min max value)) step Hstep)
    as (k & Hk & Hclose).
  split; [now exists k|]. split; [exact Hclose|]. reflexivity.
Qed.

(** Rounding to a step twice is rounding once. *)
Theorem round_to_step_idempotent (value step : Q) :
  round_to_step (round_to_step value step) step == round_to_step value step.
Proof.
  unfold round_to_step. destruct (step <=? dlit 0.0)%D eqn:Hstep; [reflexivity|].
  apply dleb_Q_false in Hstep. cbn [dlit Q_Double] in Hstep.
  cbn [dround Q_Rounding dmul ddiv Q_Double].
  rewrite (round_half_away_comp
             (inject_Z (round_half_away (value / step)) * step / step)
             (inject_Z (round_half_away (value / step)))) by (field; lra).
  now rewrite round_half_away_Z.
Qed.
End ClampingFacts.

(* ------------------------------------------------------------------ *)
(** ** Transforms *)

Section TransformFacts.
Context {D : Type} `{Double D}.

Lemma compose_app (l1 l2 : list (TransformFunc D)) (x : D) :
  compose (l1 ++ l2)%list x = except_bind (compose l1 x) (compose l2).
Proof.
  revert x. induction l1 as [|f l1 IH]; intros x; [reflexivity|].
  cbn [compose app]. destruct (f x) as [y|e]; [apply IH | reflexivity].
Qed.

(** [compose] applies its transforms from left to right: composing a
    concatenation is composing the first list and feeding the result to
    the second; the empty composition returns its argument and a single
    transform is itself. An exception of a transform ends the call: what
    follows it is not applied. *)
Theorem compose_in_order (l1 l2 : list (TransformFunc D)) (x : D) :
  compose [] x = Ok x
  /\ (forall f, compose [f] x = f x)
  /\ compose (l1 ++ l2)%list x = except_bind (compose l1 x) (compose l2)
  /\ (forall e, compose l1 x = Throw e -> compose (l1 ++ l2)%list x = Throw e).
Proof.
  split; [reflexivity|]. split; [|split].
  - intros f. cbn. now destruct (f x).
  - apply compose_app.
  - intros e He. now rewrite compose_app, He.
Qed.
End TransformFacts.

Section TransformInverses.
Local Open Scope Q_scope.

(** The pairs of transforms a field mapping uses for its two directions
    undo each other in exact arithmetic: percent and ratio, negation, an
    offset and the opposite offset, a non-zero scale and its reciprocal,
    a linear map and its inverse, and a unit conversion within one family
    and the conversion back. *)
Theorem transform_inverse_pairs (x : Q) :
  returns (compose [percent_to_ratio; ratio_to_percent] x) x
  /\ returns (compose [ratio_to_percent; percent_to_ratio] x) x
  /\ returns (compose [negate; negate] x) x
  /\ (forall a, returns (compose [offset a; offset (- a)] x) x)
  /\ (forall f, ~ f == 0 -> returns (compose [scale f; scale (1 / f)] x) x)
  /\ (forall a b, ~ a == 0 ->
        returns (compose [linear a b; linear (1 / a) (- b / a)] x) x)
  /\ (forall A B, dimension A = dimension B ->
        returns (compose [unit_convert A B; unit_convert B A] x) x).
Proof.
  unfold returns.
  split; [eexists; split; [reflexivity | cbn; field]|].
  split; [eexists; split; [reflexivity | cbn; field]|].
  split; [eexists; split; [reflexivity | cbn; ring]|].
  split; [intros a; eexists; split; [reflexivity | cbn; ring]|].
  split; [intros f Hf; eexists; split; [reflexivity | cbn; now field]|].
  split; [intros a b Ha; eexists; split; [reflexivity | cbn; now field]|].
  intros A B Hdim. eexists. split; [reflexivity|].
  cbn [unit_convert]. destruct A, B; try discriminate Hdim; cbn; field.
Qed.

Lemma invert_Q (x : Q) :
  invert x = if Qle_bool (1e-10) (Qabs x) then Ok (1.0 / x)
             else Throw (runtime_error "Cannot invert zero value").
Proof.
  unfold invert. cbn [dltb dabs dlit Q_Double ddiv].
  now destruct (Qle_bool 1e-10 (Qabs x)).
Qed.

(** [invert] throws on the values within 1e-10 of zero and returns the
    reciprocal otherwise. Applied twice it gives the value back exactly
    when the magnitude is between 1e-10 and 1e10: on a greater value the
    reciprocal is within 1e-10 of zero and the second call throws. *)
Theorem invert_twice (x : Q) :
  (Qabs x < 1e-10 ->
     invert x = Throw (runtime_error "Cannot invert zero value"))
  /\ (1e-10 <= Qabs x -> exists y, invert x = Ok y /\ y * x == 1)
  /\ (1e-10 <= Qabs x <= 1e10 -> returns (compose [invert; invert] x) x)
  /\ (1e10 < Qabs x ->
        compose [invert; invert] x
        = Throw (runtime_error "Cannot invert zero value")).
Proof.
  rewrite !invert_Q.
  assert (forall a b : Q, a < b -> Qle_bool b a = false) as Hfalse.
  { intros a b Hab. apply (dleb_Q_false b a). exact Hab. }
  assert (forall a b : Q, a <= b -> Qle_bool a b = true) as Htrue.
  { intros a b Hab. now apply Qle_bool_iff. }
  assert (1e-10 <= Qabs x -> ~ x == 0) as Hnz.
  { intros Hx Hz. rewrite Hz in Hx. now vm_compute in Hx. }
  assert (Qabs (1.0 / x) == 1 / Qabs x) as Habs.
  { unfold Qdiv. rewrite Qabs_Qmult, Qabs_Qinv.
    assert (Qabs 1.0 == 1) as -> by reflexivity. reflexivity. }
  assert (0 < 1e-10) as Heps by reflexivity.
  split; [|split; [|split]].
  - intros Hx. now rewrite (Hfalse _ _ Hx).
  - intros Hx. rewrite (Htrue _ _ Hx). eexists. split; [reflexivity|].
    field. now apply Hnz.
  - intros [Hlo Hhi]. cbn [compose except_bind]. rewrite invert_Q, (Htrue _ _ Hlo).
    cbn [except_bind]. rewrite invert_Q.
    assert (Qle_bool 1e-10 (Qabs (1.0 / x)) = true) as ->.
    { apply Qle_bool_iff. rewrite Habs.
      assert (0 < Qabs x) as Hpos by lra.
      apply Qle_shift_div_l; [exact Hpos|].
      assert (1e-10 * Qabs x <= 1e-10 * 1e10) as Hm
          by (apply Qmult_le_l; [reflexivity | exact Hhi]).
      assert (1e-10 * 1e10 == 1) as Hone by reflexivity.
      lra. }
    cbn [except_bind]. eexists. split; [reflexivity|]. field. now apply Hnz.
  - intros Hx.
    assert (1e-10 <= 1e10) as Hwide by (apply Qle_bool_iff; reflexivity).
    assert (1e-10 <= Qabs x) as Hlo by lra.
    cbn [compose except_bind]. rewrite invert_Q, (Htrue _ _ Hlo).
    cbn [except_bind]. rewrite invert_Q.
    assert (Qle_bool 1e-10 (Qabs (1.0 / x)) = false) as ->; [|reflexivity].
    apply Hfalse. rewrite Habs.
    assert (0 < Qabs x) as Hpos by lra.
    apply Qlt_shift_div_r; [exact Hpos|].
    assert (1e-10 * 1e10 < 1e-10 * Qabs x) as Hm
        by (apply Qmult_lt_l; [reflexivity | exact Hx]).
    assert (1e-10 * 1e10 == 1) as Hone by reflexivity.
    lra.
Qed.
End TransformInverses.

(* ------------------------------------------------------------------ *)
(** ** Lookup tables: range, table points, reverse lookup *)

Section LookupTableRange.
Context (S : StdSort).
Local Open Scope Q_scope.

(** What the search returns is [lerp] on two entries of the table whose
    inputs bracket the value. *)
Lemma find_surrounding_some (x : Q) (l : list (LUTEntry Q)) (r : Q) :
  find_surrounding x l = Some r ->
  exists a b, In a l /\ In b l /\ input a <= x <= input b
              /\ r = lerp x (input a) (input b) (output a) (output b).
Proof.
  induction l as [|a l IH]; [discriminate|].
  destruct l as [|b l]; [discriminate|].
  cbn [find_surrounding].
  destruct ((x >=? input a)%D && (x <=? input b)%D) eqn:Htest.
  - intros [= <-]. apply andb_prop in Htest as [Ha Hb].
    apply dleb_Q in Ha, Hb.
    exists a, b. split; [now left|]. split; [right; now left|]. now split.
  - intros Hfind. destruct (IH Hfind) as (a' & b' & Ha' & Hb' & Hx & Hr).
    exists a', b'. split; [now right|]. split; [now right|]. now split.
Qed.

(** [lerp] at a value between the two inputs lies between the two
    outputs. *)
Lemma lerp_between (x x0 x1 y0 y1 : Q) :
  x0 <= x <= x1 ->
  (y0 <= lerp x x0 x1 y0 y1 <= y1) \/ (y1 <= lerp x x0 x1 y0 y1 <= y0).
Proof.
  intros [Hlo Hhi]. unfold lerp.
  destruct (dabs (x1 - x0)%D <? dlit 1e-10)%D eqn:Hgap.
  - destruct (Qlt_le_dec y0 y1); [left | right]; lra.
  - apply dltb_Q_false in Hgap. cbn [dabs dlit dsub Q_Double] in Hgap.
    rewrite Qabs_pos in Hgap by lra.
    assert (0 < x1 - x0) as Hd by (assert (0 < 1e-10) by reflexivity; lra).
    cbn [dadd dsub dmul ddiv Q_Double].
    set (u := (x - x0) / (x1 - x0)).
    assert (0 <= u) as Hu0.
    { unfold u. apply Qle_shift_div_l; [exact Hd | lra]. }
    assert (u <= 1) as Hu1.
    { unfold u. apply Qle_shift_div_r; [exact Hd | lra]. }
    assert (y0 + (y1 - y0) * (x - x0) / (x1 - x0) == y0 + (y1 - y0) * u) as ->.
    { unfold u. field. lra. }
    clearbody u.
    destruct (Qlt_le_dec y0 y1); [left | right]; split; nra.
Qed.

(** [interpolate] never leaves the outputs of the table: on a non-empty
    table it returns (it does not throw), and what it returns lies between
    the outputs of two entries of the table. *)
Theorem interpolate_within_outputs (table : list (LUTEntry Q)) (x : Q) :
  table <> [] ->
  exists y lo hi,
    interpolate (make_LookupTableConverter table) x = Ok y
    /\ In lo table /\ In hi table /\ output lo <= y <= output hi.
Proof.
  intros Hne.
  pose proof (constructor_permutation S table) as Hperm.
  unfold interpolate.
  destruct (table_ (make_LookupTableConverter table)) as [|front rest] eqn:Htable.
  { apply Permutation_sym, Permutation_nil in Hperm. contradiction. }
  assert (forall e, In e (front :: rest) -> In e table) as Hin
      by (intros e; apply (Permutation_in _ (Permutation_sym Hperm))).
  assert (In (last (front :: rest) front) table) as Hback
      by (apply Hin, last_in; discriminate).
  assert (In front table) as Hfront by (apply Hin; now left).
  unfold clamp_or_search.
  destruct (x <=? input front)%D.
  { exists (output front), front, front. repeat split; try assumption; lra. }
  destruct (x >=? input (last (front :: rest) front))%D.
  { eexists _, _, _. split; [reflexivity|].
    split; [exact Hback|]. split; [exact Hback|]. lra. }
  destruct (find_surrounding x (front :: rest)) as [r|] eqn:Hfind.
  - destruct (find_surrounding_some _ _ _ Hfind) as (a & b & Ha & Hb & Hx & ->).
    destruct (lerp_between x (input a) (input b) (output a) (output b) Hx)
      as [Hup | Hdown].
    + exists (lerp x (input a) (input b) (output a) (output b)), a, b.
      split; [reflexivity|]. split; [now apply Hin|]. split; [now apply Hin|].
      exact Hup.
    + exists (lerp x (input a) (input b) (output a) (output b)), b, a.
      split; [reflexivity|]. split; [now apply Hin|]. split; [now apply Hin|].
      exact Hdown.
  - eexists _, _, _. split; [reflexivity|].
    split; [exact Hback|]. split; [exact Hback|]. lra.
Qed.

(** The empty table makes both lookups throw; a table of one entry makes
    them constant. *)
Theorem lookup_degenerate_tables :
  (forall x : Q, interpolate (make_LookupTableConverter []) x
                 = Throw (runtime_error "Empty lookup table"))
  /\ (forall y : Q, reverse_lookup (make_LookupTableConverter []) y
                    = Throw (runtime_error "Empty lookup table"))
  /\ (forall (e : LUTEntry Q) x,
        interpolate (make_LookupTableConverter [e]) x = Ok (output e))
  /\ (forall (e : LUTEntry Q) y,
        reverse_lookup (make_LookupTableConverter [e]) y = Ok (input e)).
Proof.
  assert (forall A (comp : A -> A -> bool), std_sort comp [] = []) as Hnil.
  { intros A comp. apply Permutation_nil, std_sort_permutation. }
  assert (forall A (comp : A -> A -> bool) a, std_sort comp [a] = [a]) as Hone.
  { intros A comp a. apply Permutation_length_1_inv, std_sort_permutation. }
  unfold interpolate, reverse_lookup, make_LookupTableConverter. cbn [table_].
  split; [|split; [|split]].
  - intros x. now rewrite Hnil.
  - intros y. now rewrite Hnil.
  - intros e x. rewrite Hone. unfold clamp_or_search. cbn [last find_surrounding].
    now destruct (x <=? input e)%D, (x >=? input e)%D.
  - intros e y. rewrite Hone. cbn [map]. rewrite Hone. cbn [hd].
    unfold clamp_or_search. cbn [last find_surrounding reversed input output].
    now destruct (y <=? output e)%D, (y >=? output e)%D.
Qed.
End LookupTableRange.

Section LookupTablePoints.
Local Open Scope Q_scope.

(** Inputs, or outputs, that rise by at least the threshold under which
    [lerp] takes two inputs for one. *)
Definition spaced (f : LUTEntry Q -> Q) : list (LUTEntry Q) -> Prop :=
  StronglySorted (fun a b => f a + 1e-10 <= f b).

Lemma spaced_strictly (f : LUTEntry Q -> Q) (l : list (LUTEntry Q)) :
  spaced f l -> StronglySorted (fun a b => f a < f b) l.
Proof.
  induction 1 as [|a l Hs IH Hall]; constructor; [assumption|].
  apply (Forall_impl _ (P := fun b => f a + 1e-10 <= f b)); [|assumption].
  intros b Hb. assert (0 < 1e-10) by reflexivity. lra.
Qed.

Lemma strictly_ascending (l : list (LUTEntry Q)) :
  StronglySorted (fun a b => input a < input b) l -> ascending l.
Proof.
  intros Hs. apply StronglySorted_Sorted in Hs. unfold ascending.
  induction Hs as [|a l Hs IH Hhd]; constructor; [assumption|].
  destruct Hhd as [|b l Hab]; constructor. lra.
Qed.

(** In a spaced list, an entry and a later entry. *)
Lemma spaced_later (f : LUTEntry Q -> Q) (l1 l2 : list (LUTEntry Q)) p e :
  spaced f (l1 ++ p :: l2)%list -> In e l2 -> f p + 1e-10 <= f e.
Proof.
  intros Hs Hin. induction l1 as [|a l1 IH].
  - apply StronglySorted_inv in Hs as [_ Hall].
    rewrite Forall_forall in Hall. now apply Hall.
  - apply StronglySorted_inv in Hs as [Hs _]. now apply IH.
Qed.

(** On an ascending table, at a value above the input of [p], not above
    that of its neighbour [q] and below the last input, the clamps do not
    apply and the search stops at the pair [p], [q]. *)
Lemma clamp_or_search_inner (l1 l2 : list (LUTEntry Q)) p q front (x : Q) :
  ascending (l1 ++ p :: q :: l2)%list ->
  hd front (l1 ++ p :: q :: l2)%list = front ->
  input p < x -> x <= input q ->
  x < input (last (l1 ++ p :: q :: l2)%list front) ->
  clamp_or_search front (l1 ++ p :: q :: l2)%list x
  = lerp x (input p) (input q) (output p) (output q).
Proof.
  intros Hasc Hfront Hp Hq Hback. unfold clamp_or_search.
  assert ((x <=? input front)%D = false) as ->.
  { apply dleb_Q_false. apply Qle_lt_trans with (input p); [|assumption].
    destruct l1 as [|a l1]; cbn [hd app] in Hfront; subst front.
    - apply Qle_refl.
    - apply (ascending_front_least a (l1 ++ p :: q :: l2)%list p Hasc).
      right. apply in_elt. }
  assert ((x >=? input (last (l1 ++ p :: q :: l2)%list front))%D = false) as ->
      by (now apply dleb_Q_false).
  rewrite find_surrounding_segment; [reflexivity| |assumption|assumption].
  intros e He. now apply (ascending_prefix l1 (q :: l2)).
Qed.

Lemma last_middle {A} (l1 l2 : list A) (a d d' : A) :
  last (l1 ++ a :: l2)%list d = last (a :: l2) d'.
Proof.
  induction l1 as [|b l1 IH].
  - cbn [app]. revert a. induction l2 as [|c l2 IH2]; intros a; [reflexivity|].
    change (last (a :: c :: l2) d) with (last (c :: l2) d).
    change (last (a :: c :: l2) d') with (last (c :: l2) d'). apply IH2.
  - cbn [app]. rewrite <- IH. destruct (l1 ++ a :: l2)%list eqn:Heq.
    + destruct l1; discriminate.
    + reflexivity.
Qed.

(** [lerp] at the right end of a segment whose inputs differ by the
    threshold or more is the right output. *)
Lemma lerp_right_end (x0 x1 y0 y1 : Q) :
  x0 + 1e-10 <= x1 -> lerp x1 x0 x1 y0 y1 == y1.
Proof.
  intros Hgap. unfold lerp.
  assert (0 < 1e-10) as Heps by reflexivity.
  assert ((dabs (x1 - x0)%D <? dlit 1e-10)%D = false) as ->.
  { apply dltb_Q_false. cbn [dabs dlit dsub Q_Double].
    rewrite Qabs_pos; lra. }
  cbn [dadd dsub dmul ddiv Q_Double]. field. lra.
Qed.

(** At the input of an entry, a table whose inputs rise by 1e-10 or more
    from each entry to the next returns the output of that entry. *)
Theorem interpolate_at_table_point (S : StdSort) (table : list (LUTEntry Q)) e :
  spaced input table -> In e table ->
  returns (interpolate (make_LookupTableConverter table) (input e)) (output e).
Proof.
  intros Hsp Hin. pose proof (spaced_strictly _ _ Hsp) as Hstrict.
  pose proof (constructor_keeps_strictly_ascending S table Hstrict) as Htable.
  pose proof (strictly_ascending _ Hstrict) as Hasc.
  destruct (in_split _ _ Hin) as (l1 & l2 & Hsplit).
  destruct l1 as [|a l1].
  - (* the first entry *)
    exists (output e). split; [|reflexivity].
    apply (interpolate_below S table e l2); [now rewrite Htable|apply Qle_refl].
  - destruct (@exists_last _ (a :: l1)) as (l1' & p & Hl1); [discriminate|].
    rewrite Hl1, <- List.app_assoc in Hsplit. cbn [app] in Hsplit.
    assert (input p + 1e-10 <= input e) as Hgap.
    { apply (spaced_later input l1' (e :: l2)); [now rewrite <- Hsplit | now left]. }
    assert (0 < 1e-10) as Heps by reflexivity.
    destruct table as [|front rest]; [destruct l1'; discriminate|].
    assert (hd front (l1' ++ p :: e :: l2)%list = front) as Hhd
        by (now rewrite <- Hsplit).
    assert (input front <= input p) as Hfp.
    { apply (ascending_front_least front rest p Hasc).
      rewrite Hsplit. apply in_elt. }
    destruct l2 as [|n l2].
    + (* the last entry *)
      exists (output e). split; [|reflexivity].
      assert (last (front :: rest) front = e) as Hlast.
      { rewrite Hsplit.
        change (l1' ++ [p; e])%list with (l1' ++ [p] ++ [e])%list.
        rewrite List.app_assoc. apply last_last. }
      rewrite <- Hlast at 2.
      apply (interpolate_above S (front :: rest) front rest);
        [exact Htable | rewrite Hlast; apply Qle_refl | lra].
    + (* an inner entry *)
      exists (lerp (input e) (input p) (input e) (output p) (output e)).
      split; [|now apply lerp_right_end].
      unfold interpolate. rewrite Htable. f_equal.
      rewrite Hsplit. apply clamp_or_search_inner.
      * now rewrite <- Hsplit.
      * exact Hhd.
      * lra.
      * apply Qle_refl.
      * rewrite (last_middle l1' (e :: n :: l2) p front e).
        change (last (p :: e :: n :: l2) e) with (last (n :: l2) e).
        assert (In (last (n :: l2) e) (n :: l2)) as Hl
            by (apply last_in; discriminate).
        pose proof (spaced_later input (l1' ++ [p])%list (n :: l2) e
                      (last (n :: l2) e)) as Hlater.
        rewrite <- List.app_assoc in Hlater. cbn [app] in Hlater.
        rewrite <- Hsplit in Hlater. specialize (Hlater Hsp Hl). lra.
Qed.
End LookupTablePoints.

Section ReverseLookup.
Local Open Scope Q_scope.

Lemma spaced_map_reversed (l : list (LUTEntry Q)) :
  spaced output l -> spaced input (map reversed l).
Proof.
  induction 1 as [|a l Hs IH Hall]; constructor; [assumption|].
  apply Forall_map. exact Hall.
Qed.

Lemma last_map {A B} (f : A -> B) (l : list A) (d : A) :
  last (map f l) (f d) = f (last l d).
Proof.
  induction l as [|a l IH]; [reflexivity|].
  destruct l as [|b l]; [reflexivity|]. exact IH.
Qed.

(** A value above the first input and not above the last one lies in a
    segment of the table. *)
Lemma bracketing_pair (rest : list (LUTEntry Q)) (lo : LUTEntry Q) (x : Q) :
  input lo < x -> x <= input (last (lo :: rest) lo) ->
  exists l1 p q l2,
    lo :: rest = (l1 ++ p :: q :: l2)%list /\ input p < x /\ x <= input q.
Proof.
  revert lo. induction rest as [|b rest IH]; intros lo Hlo Hhi.
  - cbn in Hhi. lra.
  - destruct (Qlt_le_dec (input b) x) as [Hb | Hb].
    + destruct (IH b Hb) as (l1 & p & q & l2 & Hsplit & Hp & Hq).
      { rewrite <- (last_middle [] rest b lo b).
        change (last (lo :: b :: rest) lo) with (last (b :: rest) lo) in Hhi.
        exact Hhi. }
      exists (lo :: l1), p, q, l2. cbn [app]. rewrite <- Hsplit. now split.
    + exists [], lo, b, rest. now split.
Qed.

(** Where the inputs differ by the threshold or more, [lerp] is the line
    through the two points. *)
Lemma lerp_spaced (x x0 x1 y0 y1 : Q) :
  x0 + 1e-10 <= x1 ->
  lerp x x0 x1 y0 y1 = y0 + (y1 - y0) * (x - x0) / (x1 - x0).
Proof.
  intros Hgap. unfold lerp.
  assert (0 < 1e-10) as Heps by reflexivity.
  assert ((dabs (x1 - x0)%D <? dlit 1e-10)%D = false) as ->; [|reflexivity].
  apply dltb_Q_false. cbn [dabs dlit dsub Q_Double]. rewrite Qabs_pos; lra.
Qed.

(** On a rising segment the line stays above the left output to the right
    of the left input, and at or below the right output up to the right
    input. *)
Lemma line_rising (x x0 x1 y0 y1 : Q) :
  x0 < x1 -> y0 < y1 -> x0 < x -> x <= x1 ->
  let y := y0 + (y1 - y0) * (x - x0) / (x1 - x0) in
  y0 < y /\ y <= y1 /\ (x < x1 -> y < y1).
Proof.
  intros Hx Hy Hlo Hhi y.
  set (u := (x - x0) / (x1 - x0)).
  assert (0 < u) as Hu0.
  { unfold u. apply Qlt_shift_div_l; lra. }
  assert (u <= 1) as Hu1.
  { unfold u. apply Qle_shift_div_r; lra. }
  assert (x < x1 -> u < 1) as Hu2.
  { intros Hlt. unfold u. apply Qlt_shift_div_r; lra. }
  assert (y == y0 + (y1 - y0) * u) as Hy'.
  { unfold y, u. field. lra. }
  clearbody u y. split; [|split].
  - nra.
  - nra.
  - intros Hlt. specialize (Hu2 Hlt). nra.
Qed.

(** On a table whose inputs and outputs both rise by 1e-10 or more from
    each entry to the next, [reverse_lookup] undoes [interpolate] on
    every value between the first and the last input. *)
Theorem reverse_lookup_undoes_interpolate
    (S : StdSort) (lo : LUTEntry Q) (rest : list (LUTEntry Q)) (x : Q) :
  let table := lo :: rest in
  let lut := make_LookupTableConverter table in
  spaced input table -> spaced output table ->
  input lo <= x <= input (last table lo) ->
  exists y, interpolate lut x = Ok y /\ returns (reverse_lookup lut y) x.
Proof.
  intros table lut Hin Hout [Hlo Hhi].
  assert (0 < 1e-10) as Heps by reflexivity.
  pose proof (spaced_strictly _ _ Hin) as Hstrict.
  pose proof (constructor_keeps_strictly_ascending S table Hstrict) as Htable.
  pose proof (strictly_ascending _ Hstrict) as Hasc.
  pose proof (spaced_map_reversed _ Hout) as Hrin.
  pose proof (spaced_strictly _ _ Hrin) as Hrstrict.
  pose proof (strictly_ascending _ Hrstrict) as Hrasc.
  assert (std_sort by_input (map reversed table) = map reversed table) as Hrt.
  { apply ascending_permutation_unique; [exact Hrstrict| |].
    - apply std_sort_permutation.
    - apply non_descending_ascending, std_sort_sorted, by_input_order. }
  assert (forall y, reverse_lookup lut y
                    = Ok (clamp_or_search (reversed lo) (map reversed table) y))
    as Hrev.
  { intros y. unfold reverse_lookup. fold lut in Htable. rewrite Htable.
    unfold table at 1. rewrite Hrt. reflexivity. }
  assert (last (map reversed table) (reversed lo) = reversed (last table lo))
    as Hrlast by apply last_map.
  set (hi := last table lo) in *.
  destruct (Qlt_le_dec (input lo) x) as [Habove | Hbelow].
  2:{ (* at the first input *)
    exists (output lo). split.
    - apply (interpolate_below S table lo rest); assumption.
    - rewrite Hrev. unfold clamp_or_search.
      assert ((output lo <=? input (reversed lo))%D = true) as ->
          by (apply dleb_Q; apply Qle_refl).
      exists (input lo). split; [reflexivity|]. cbn [reversed output]. lra. }
  destruct (Qlt_le_dec x (input hi)) as [Hinner | Hlast].
  2:{ (* at the last input *)
    exists (output hi). split.
    - apply (interpolate_above S table lo rest); assumption.
    - rewrite Hrev. unfold clamp_or_search. rewrite Hrlast.
      assert (output lo + 1e-10 <= output hi) as Hgap.
      { destruct rest as [|b rest'].
        - unfold hi, table in Hhi. cbn in Hhi. lra.
        - apply (spaced_later output [] (b :: rest') lo hi Hout).
          unfold hi, table.
          change (last (lo :: b :: rest') lo) with (last (b :: rest') lo).
          apply last_in. discriminate. }
      assert ((output hi <=? input (reversed lo))%D = false) as ->
          by (apply dleb_Q_false; cbn [reversed input]; lra).
      assert ((output hi >=? input (reversed hi))%D = true) as ->
          by (apply dleb_Q; apply Qle_refl).
      exists (input hi). split; [reflexivity|]. lra. }
  (* inside a segment *)
  destruct (bracketing_pair rest lo x Habove Hhi)
    as (l1 & p & q & l2 & Hsplit & Hp & Hq).
  fold table in Hsplit.
  assert (input p + 1e-10 <= input q) as Hdx.
  { apply (spaced_later input l1 (q :: l2)); [now rewrite <- Hsplit | now left]. }
  assert (output p + 1e-10 <= output q) as Hdy.
  { apply (spaced_later output l1 (q :: l2)); [now rewrite <- Hsplit | now left]. }
  set (y := output p + (output q - output p) * (x - input p) / (input q - input p)).
  destruct (line_rising x (input p) (input q) (output p) (output q))
    as (Hy0 & Hy1 & Hy2); try lra.
  fold y in Hy0, Hy1, Hy2.
  assert (y < output hi) as Hyhi.
  { destruct l2 as [|n l2].
    - assert (hi = q) as Hq'.
      { unfold hi. rewrite Hsplit.
        change (l1 ++ [p; q])%list with (l1 ++ [p] ++ [q])%list.
        rewrite List.app_assoc. apply last_last. }
      rewrite Hq' in *. now apply Hy2.
    - assert (output q + 1e-10 <= output hi) as Hlater; [|lra].
      pose proof (spaced_later output (l1 ++ [p])%list (n :: l2) q hi) as Hl.
      rewrite <- List.app_assoc in Hl. cbn [app] in Hl.
      rewrite <- Hsplit in Hl. apply (Hl Hout).
      unfold hi. rewrite Hsplit.
      rewrite (last_middle l1 (q :: n :: l2) p lo n).
      change (last (p :: q :: n :: l2) n) with (last (n :: l2) n).
      apply last_in. discriminate. }
  exists y. split.
  - unfold interpolate. fold lut in Htable. rewrite Htable. unfold table at 1.
    f_equal. fold table. rewrite Hsplit.
    rewrite clamp_or_search_inner; try assumption.
    + now apply lerp_spaced.
    + now rewrite <- Hsplit.
    + now rewrite <- Hsplit.
    + rewrite <- Hsplit. exact Hinner.
  - rewrite Hrev.
    assert (map reversed table
            = (map reversed l1 ++ reversed p :: reversed q :: map reversed l2)%list)
      as Hrsplit by (rewrite Hsplit, map_app; reflexivity).
    rewrite Hrsplit in Hrasc, Hrlast |- *.
    rewrite clamp_or_search_inner; try assumption.
    + cbn [reversed input output].
      rewrite lerp_spaced by exact Hdy.
      eexists. split; [reflexivity|]. unfold y. field. lra.
    + now rewrite <- Hrsplit.
    + rewrite Hrlast. exact Hyhi.
Qed.
End ReverseLookup.

(* ------------------------------------------------------------------ *)
(** ** Strings: split, join, prefixes and suffixes *)

Section StringFacts.

(** The text has the character. *)
Fixpoint mentions (delim : ascii) (s : string) : bool :=
  match s with
  | EmptyString => false
  | String c s' => Ascii.eqb c delim || mentions delim s'
  end.

Lemma append_assoc (a b c : string) : (a ++ b) ++ c = a ++ (b ++ c).
Proof. induction a as [|x a IH]; [reflexivity|]. cbn. now rewrite IH. Qed.

Lemma append_empty_r (a : string) : a ++ "" = a.
Proof. induction a as [|x a IH]; [reflexivity|]. cbn. now rewrite IH. Qed.

Lemma append_empty (a b : string) : a ++ b = "" -> a = "" /\ b = "".
Proof. destruct a; [now split | discriminate]. Qed.

Lemma join_fold (delim x y : string) (l : list string) :
  fold_left (fun oss part => oss ++ delim ++ part) l (x ++ y)
  = x ++ fold_left (fun oss part => oss ++ delim ++ part) l y.
Proof.
  revert y. induction l as [|c l IH]; intros y; [reflexivity|].
  cbn [fold_left]. now rewrite append_assoc, IH.
Qed.

Lemma join_cons (a b : string) (l : list string) (delim : string) :
  join (a :: b :: l) delim = a ++ delim ++ join (b :: l) delim.
Proof. unfold join. cbn [fold_left]. now rewrite !join_fold. Qed.

(** A part without the delimiter, followed by the delimiter, is read as
    one part. *)
Lemma getline_loop_part (delim : ascii) (p rest acc : string) :
  mentions delim p = false ->
  getline_loop acc (p ++ String delim rest) delim
  = (acc ++ p) :: getline_loop "" rest delim.
Proof.
  revert acc. induction p as [|c p IH]; intros acc Hp.
  - cbn. now rewrite Ascii.eqb_refl, append_empty_r.
  - cbn in Hp. apply Bool.orb_false_elim in Hp as [Hc Hp].
    cbn. rewrite Hc, IH by assumption.
    now rewrite append_assoc.
Qed.

(** The last part: read to the end of the text, kept unless it is
    empty. *)
Lemma getline_loop_last (delim : ascii) (p acc : string) :
  mentions delim p = false ->
  getline_loop acc p delim = if String.eqb (acc ++ p) "" then [] else [acc ++ p].
Proof.
  revert acc. induction p as [|c p IH]; intros acc Hp.
  - cbn. now rewrite append_empty_r.
  - cbn in Hp. apply Bool.orb_false_elim in Hp as [Hc Hp].
    cbn. rewrite Hc, IH by assumption.
    now rewrite append_assoc.
Qed.

(** Splitting what [join] made gives the parts back, when no part has the
    delimiter in it and the last part is not empty. (An empty last part
    is lost: [split] reads no part after a final delimiter.) *)
Theorem split_join (parts : list string) (delim : ascii) :
  (forall p, In p parts -> mentions delim p = false) ->
  last parts "x" <> "" ->
  split (join parts (String delim "")) delim = parts.
Proof.
  unfold split. induction parts as [|a parts IH]; intros Hparts Hlast.
  - reflexivity.
  - destruct parts as [|b parts].
    + cbn [join fold_left]. rewrite getline_loop_last by (apply Hparts; now left).
      cbn [append last] in *. destruct (String.eqb_spec a ""); [contradiction|reflexivity].
    + rewrite join_cons. cbn [append].
      rewrite getline_loop_part by (apply Hparts; now left).
      cbn [append]. f_equal. apply IH.
      * intros p Hp. apply Hparts. now right.
      * exact Hlast.
Qed.

Lemma getline_loop_terminated (delim : ascii) (s acc : string) :
  getline_loop acc (s ++ String delim "") delim <> [].
Proof.
  revert acc. induction s as [|c s IH]; intros acc.
  - cbn. rewrite Ascii.eqb_refl. discriminate.
  - cbn. destruct (Ascii.eqb c delim); [discriminate | apply IH].
Qed.

Lemma join_getline_loop (delim : ascii) (s acc : string) :
  join (getline_loop acc (s ++ String delim "") delim) (String delim "") = acc ++ s.
Proof.
  revert acc. induction s as [|c s IH]; intros acc.
  - cbn. rewrite Ascii.eqb_refl. cbn. now rewrite append_empty_r.
  - cbn [append getline_loop]. destruct (Ascii.eqb_spec c delim) as [-> | Hc].
    + pose proof (getline_loop_terminated delim s "") as Hne.
      specialize (IH "").
      destruct (getline_loop "" (s ++ String delim "") delim) as [|b l];
        [contradiction|].
      rewrite join_cons, IH. reflexivity.
    + rewrite IH, append_assoc. reflexivity.
Qed.

(** A text that does not end with the delimiter is read like the text
    with one delimiter more. *)
Lemma getline_loop_unterminated (delim : ascii) (s acc : string) :
  s <> "" -> ends_with s (String delim "") = false ->
  getline_loop acc s delim = getline_loop acc (s ++ String delim "") delim.
Proof.
  revert acc. induction s as [|c s IH]; intros acc Hne Hend; [contradiction|].
  destruct s as [|c' s].
  - unfold ends_with in Hend. cbn in Hend.
    destruct (Ascii.eqb c delim) eqn:Hc; [discriminate|].
    cbn. rewrite Hc, Ascii.eqb_refl.
    destruct (acc ++ String c "") eqn:Heq; [|reflexivity].
    apply append_empty in Heq as [_ Heq]. discriminate.
  - assert (ends_with (String c' s) (String delim "") = false) as Hend'.
    { unfold ends_with in *. cbn [String.length Nat.leb Nat.sub andb] in *.
      rewrite Nat.sub_0_r in *. exact Hend. }
    assert (String c' s <> "") as Hne' by discriminate.
    set (t := String c' s) in *. cbn [append getline_loop].
    destruct (Ascii.eqb c delim); now rewrite IH.
Qed.

Lemma getline_loop_no_delim (delim : ascii) (s acc : string) :
  mentions delim acc = false ->
  forall p, In p (getline_loop acc s delim) -> mentions delim p = false.
Proof.
  revert acc. induction s as [|c s IH]; intros acc Hacc p.
  - cbn. destruct (String.eqb acc ""); [contradiction|].
    intros [<- | []]. exact Hacc.
  - cbn. destruct (Ascii.eqb c delim) eqn:Hc.
    + intros [<- | Hin]; [exact Hacc|]. now apply (IH "").
    + apply IH. clear IH. induction acc as [|a acc IHa].
      * cbn. now rewrite Hc.
      * cbn in *. apply Bool.orb_false_elim in Hacc as [Ha Hacc].
        now rewrite Ha, IHa.
Qed.

(** Joining the parts of a text with the delimiter gives the text back,
    less one final delimiter if it has one; and no part [split] returns
    has the delimiter in it. *)
Theorem join_split (s : string) (delim : ascii) :
  join (split (s ++ String delim "") delim) (String delim "") = s
  /\ (ends_with s (String delim "") = false ->
      join (split s delim) (String delim "") = s)
  /\ (forall p, In p (split s delim) -> mentions delim p = false).
Proof.
  unfold split. split; [|split].
  - apply (join_getline_loop delim s "").
  - intros Hend. destruct (String.eqb_spec s "") as [-> | Hne]; [reflexivity|].
    rewrite getline_loop_unterminated by assumption.
    apply (join_getline_loop delim s "").
  - now apply getline_loop_no_delim.
Qed.

Lemma substring_append_l (p rest : string) :
  substring 0 (String.length p) (p ++ rest) = p.
Proof. induction p as [|c p IH]; cbn; [now destruct rest | now rewrite IH]. Qed.

Lemma substring_append_r (front suffix : string) :
  substring (String.length front) (String.length suffix) (front ++ suffix) = suffix.
Proof.
  induction front as [|c front IH]; cbn; [|exact IH].
  induction suffix as [|c suffix IH]; cbn; [reflexivity | now rewrite IH].
Qed.

Lemma length_append (a b : string) :
  String.length (a ++ b) = (String.length a + String.length b)%nat.
Proof. induction a as [|c a IH]; cbn; [reflexivity | now rewrite IH]. Qed.

Lemma substring_whole (s : string) : substring 0 (String.length s) s = s.
Proof. induction s as [|c s IH]; cbn; [reflexivity | now rewrite IH]. Qed.

Lemma substring_none (s : string) : substring 0 0 s = "".
Proof. now destruct s. Qed.

(** A text is its first [n] characters and the rest. *)
Lemma substring_cut (n m : nat) (s : string) :
  (n + m)%nat = String.length s ->
  s = substring 0 n s ++ substring n m s.
Proof.
  revert s. induction n as [|n IH]; intros s Hlen.
  - cbn [Nat.add] in Hlen. subst m.
    now rewrite substring_none, substring_whole.
  - destruct s as [|c s]; [discriminate|].
    cbn. f_equal. apply IH. cbn in Hlen. lia.
Qed.

(** [starts_with] holds exactly of the texts that are the prefix followed
    by something, [ends_with] of those that are something followed by the
    suffix. *)
Theorem starts_ends_with_iff (str affix : string) :
  (starts_with str affix = true <-> exists rest, str = affix ++ rest)
  /\ (ends_with str affix = true <-> exists front, str = front ++ affix).
Proof.
  unfold starts_with, ends_with. split; split.
  - intros Htest. apply andb_prop in Htest as [Hlen Heq].
    apply Nat.leb_le in Hlen. apply String.eqb_eq in Heq.
    exists (substring (String.length affix)
                      (String.length str - String.length affix) str).
    rewrite <- Heq at 1. apply substring_cut. lia.
  - intros [rest ->]. rewrite length_append, substring_append_l, String.eqb_refl.
    rewrite Bool.andb_true_r. apply Nat.leb_le. lia.
  - intros Htest. apply andb_prop in Htest as [Hlen Heq].
    apply Nat.leb_le in Hlen. apply String.eqb_eq in Heq.
    exists (substring 0 (String.length str - String.length affix) str).
    rewrite <- Heq at 2. apply substring_cut. lia.
  - intros [front ->]. rewrite length_append.
    replace (String.length front + String.length affix - String.length affix)%nat
      with (String.length front) by lia.
    rewrite substring_append_r, String.eqb_refl.
    rewrite Bool.andb_true_r. apply Nat.leb_le. lia.
Qed.
End StringFacts.

(* ------------------------------------------------------------------ *)
(** ** adapter.hpp / adapter.cpp: the registry *)

(** The part of the abstract class [Adapter] the registry calls. *)
Class Adapter (A : Type) : Type := {
  get_id : A -> string;
  get_version : A -> string;
  get_car_key : A -> string
}.

Section Registry.
Context {A : Type} `{Adapter A}.

(** [adapters_]: the registered pointers in registration order, none of
    them null (the registry dereferences them unchecked). The mutex
    makes each member function atomic; a function is its effect on the
    vector. *)
Record AdapterRegistry : Type := { adapters_ : list A }.

Definition register_adapter (registry : AdapterRegistry) (adapter : A)
  : AdapterRegistry :=
  {| adapters_ := (adapters_ registry ++ [adapter])%list |}.

(** The test of the first loop of [resolve]. *)
Definition exact_match (id version car_key : string) (adapter : A) : bool :=
  let id_match := get_id adapter =? id in
  let version_match := (version =? "") || (get_version adapter =? version) in
  let car_match := (car_key =? "") || (get_car_key adapter =? car_key) in
  id_match && version_match && car_match.

(** [resolve]; [nullptr] is [None]. *)
Definition resolve (registry : AdapterRegistry) (id version car_key : string)
  : option A :=
  match find (exact_match id version car_key) (adapters_ registry) with
  | Some adapter => Some adapter
  | None => find (fun adapter => get_id adapter =? id) (adapters_ registry)
  end.

Definition get_all_adapters (registry : AdapterRegistry) : list A :=
  adapters_ registry.

Definition get_adapters_for_game (registry : AdapterRegistry) (id : string) : list A :=
  filter (fun adapter => get_id adapter =? id) (adapters_ registry).

(** [erase(remove_if(...))]: the adapters the predicate rejects, in
    order. *)
Definition unregister_adapter (registry : AdapterRegistry)
           (id version car_key : string) : AdapterRegistry :=
  {| adapters_ :=
       filter (fun adapter =>
                 negb ((get_id adapter =? id)
                       && (get_version adapter =? version)
                       && (get_car_key adapter =? car_key)))
              (adapters_ registry) |}.

Definition clear (registry : AdapterRegistry) : AdapterRegistry :=
  {| adapters_ := [] |}.

Definition make_key (id version car_key : string) : string :=
  id ++ ":" ++ version ++ ":" ++ car_key.
End Registry.

Arguments AdapterRegistry A : clear implicits.

(** [Adapter::Metadata], as [BaseAdapter] keeps it. *)
Record BaseAdapter : Type := {
  metadata_id : string;
  metadata_version : string;
  metadata_car_key : string;
  metadata_description : string;
  metadata_author : string
}.

#[export] Instance BaseAdapter_Adapter : Adapter BaseAdapter := {
  get_id := metadata_id;
  get_version := metadata_version;
  get_car_key := metadata_car_key
}.

(** [ExampleAdapter::ExampleAdapter()]. *)
Definition ExampleAdapter : BaseAdapter :=
  {| metadata_id := "example"; metadata_version := "1.0";
     metadata_car_key := "generic";
     metadata_description := "Example adapter for demonstration";
     metadata_author := "ORSF Team" |}.

Section AdapterMappings.
Context {D : Type} `{Double D}.

(** [ExampleAdapter::get_field_mappings]. *)
Definition ExampleAdapter_get_field_mappings : list (FieldMapping D) :=
  [ {| orsf_path := "setup.aero.front_wing"; native_key := "aero_front";
       to_native := None; to_orsf := None; required := false |};
    {| orsf_path := "setup.aero.rear_wing"; native_key := "aero_rear";
       to_native := None; to_orsf := None; required := false |};
    {| orsf_path := "setup.tires.pressure_fl_kpa"; native_key := "tire_fl_pressure";
       to_native := Some (unit_convert KPA PSI);
       to_orsf := Some (unit_convert PSI KPA); required := false |};
    {| orsf_path := "setup.brakes.brake_bias_pct"; native_key := "brake_balance";
       to_native := None; to_orsf := None; required := false |} ].

(** [BaseAdapter::orsf_to_flat] and [flat_to_orsf], on the mappings the
    virtual [get_field_mappings] returns. *)
Definition orsf_to_flat (get_field_mappings : list (FieldMapping D)) (orsf : ORSF D)
  : except (FlatSetup D) :=
  map_to_native orsf get_field_mappings.

Definition flat_to_orsf (get_field_mappings : list (FieldMapping D))
           (flat : FlatSetup D) (template_orsf : ORSF D) : except (ORSF D) :=
  map_to_orsf flat get_field_mappings template_orsf.

(** [BaseAdapter::validate_orsf]. *)
Definition validate_orsf (orsf : ORSF D) : except (list ValidationError) :=
  validate orsf.
End AdapterMappings.

(* ------------------------------------------------------------------ *)
(** ** The registry: what [resolve] returns *)

Section RegistryFacts.
Context {A : Type} `{Adapter A}.

Lemma find_first {B} (f : B -> bool) (l : list B) (b : B) :
  find f l = Some b ->
  exists l1 l2, l = (l1 ++ b :: l2)%list /\ f b = true
                /\ forall c, In c l1 -> f c = false.
Proof.
  induction l as [|a l IH]; [discriminate|]. cbn [find].
  destruct (f a) eqn:Hfa.
  - intros [= <-]. exists [], l. split; [reflexivity|]. split; [assumption|].
    intros c [].
  - intros Hfind. destruct (IH Hfind) as (l1 & l2 & -> & Hb & Hl1).
    exists (a :: l1), l2. split; [reflexivity|]. split; [assumption|].
    intros c [<- | Hc]; [assumption | now apply Hl1].
Qed.

Lemma find_hd_filter {B} (f : B -> bool) (l : list B) :
  find f l = hd_error (filter f l).
Proof.
  induction l as [|a l IH]; [reflexivity|]. cbn [find filter].
  now destruct (f a).
Qed.

Lemma exact_match_id (id version car_key : string) (adapter : A) :
  exact_match id version car_key adapter = true -> get_id adapter = id.
Proof.
  unfold exact_match. intros Hm.
  apply andb_prop in Hm as [Hm _]. apply andb_prop in Hm as [Hm _].
  now apply String.eqb_eq.
Qed.

Lemma resolve_none (registry : AdapterRegistry A) (id version car_key : string) :
  resolve registry id version car_key = None
  <-> get_adapters_for_game registry id = [].
Proof.
  unfold resolve, get_adapters_for_game.
  destruct (find (exact_match id version car_key) (adapters_ registry))
    as [a|] eqn:Hexact.
  - split; [discriminate|]. intros Hnone. exfalso.
    apply find_some in Hexact as [Hin Hm].
    assert (In a (filter (fun adapter => get_id adapter =? id) (adapters_ registry)))
      as Hf by (apply filter_In; split;
                [assumption | apply String.eqb_eq; now apply exact_match_id in Hm]).
    now rewrite Hnone in Hf.
  - rewrite find_hd_filter.
    destruct (filter _ (adapters_ registry)); cbn; split; intros; congruence.
Qed.

(** [resolve] returns null exactly when no adapter of the game is
    registered: a version or a car no adapter has does not make it fail.
    What it returns is a registered adapter of the game asked for. *)
Theorem resolve_null_iff_no_adapter_of_game
        (registry : AdapterRegistry A) (id version car_key : string) :
  (resolve registry id version car_key = None
   <-> get_adapters_for_game registry id = [])
  /\ (forall adapter, resolve registry id version car_key = Some adapter ->
        In adapter (get_all_adapters registry) /\ get_id adapter = id).
Proof.
  split; [apply resolve_none|].
  unfold resolve, get_all_adapters. intros adapter.
  destruct (find (exact_match id version car_key) (adapters_ registry))
    as [a|] eqn:Hexact.
  - intros [= <-]. apply find_some in Hexact as [Hin Hm].
    split; [assumption | now apply exact_match_id in Hm].
  - intros Hfind. apply find_some in Hfind as [Hin Hm].
    split; [assumption | now apply String.eqb_eq].
Qed.

(** When a registered adapter meets the version and the car asked for,
    [resolve] returns the first such; when none does, it falls back to
    the first adapter of the game, whatever its version and car. *)
Theorem resolve_exact_then_first_of_game
        (registry : AdapterRegistry A) (id version car_key : string) :
  ((exists adapter, In adapter (get_all_adapters registry)
                    /\ exact_match id version car_key adapter = true) ->
   exists before adapter after,
     resolve registry id version car_key = Some adapter
     /\ get_all_adapters registry = (before ++ adapter :: after)%list
     /\ exact_match id version car_key adapter = true
     /\ forall b, In b before -> exact_match id version car_key b = false)
  /\ ((forall adapter, In adapter (get_all_adapters registry) ->
                       exact_match id version car_key adapter = false) ->
      resolve registry id version car_key
      = hd_error (get_adapters_for_game registry id)).
Proof.
  unfold resolve, get_adapters_for_game, get_all_adapters. split.
  - intros (a & Hin & Hm).
    destruct (find (exact_match id version car_key) (adapters_ registry))
      as [b|] eqn:Hexact.
    + destruct (find_first _ _ _ Hexact) as (l1 & l2 & Hsplit & Hb & Hl1).
      exists l1, b, l2. now repeat split.
    + apply (find_none _ _ Hexact) in Hin. congruence.
  - intros Hnone.
    destruct (find (exact_match id version car_key) (adapters_ registry))
      as [b|] eqn:Hexact.
    + apply find_some in Hexact as [Hin Hm]. rewrite (Hnone b Hin) in Hm.
      discriminate.
    + apply find_hd_filter.
Qed.

Lemma find_app_first {B} (f : B -> bool) (l1 l2 : list B) :
  find f (l1 ++ l2)%list
  = match find f l1 with
    | Some b => Some b
    | None => find f l2
    end.
Proof.
  induction l1 as [|a l1 IH]; [reflexivity|]. cbn [find app].
  now destruct (f a).
Qed.

(** Registering an adapter makes its own identifier, version and car
    resolve to an adapter that meets them (with the same version and car
    when these are not empty), and makes a game that did not resolve
    resolve to it. It does not displace an adapter registered earlier
    that met the version and the car asked for: the earlier one keeps
    being returned. *)
Theorem register_adapter_keeps_earlier
        (registry : AdapterRegistry A) (adapter : A) :
  (exists found,
      resolve (register_adapter registry adapter)
              (get_id adapter) (get_version adapter) (get_car_key adapter)
      = Some found
      /\ get_id found = get_id adapter
      /\ (get_version adapter <> "" -> get_version found = get_version adapter)
      /\ (get_car_key adapter <> "" -> get_car_key found = get_car_key adapter))
  /\ (forall id version car_key,
        resolve registry id version car_key = None ->
        get_id adapter = id ->
        resolve (register_adapter registry adapter) id version car_key
        = Some adapter)
  /\ (forall id version car_key earlier,
        resolve registry id version car_key = Some earlier ->
        exact_match id version car_key earlier = true ->
        resolve (register_adapter registry adapter) id version car_key
        = Some earlier).
Proof.
  unfold resolve, register_adapter. cbn [adapters_].
  split; [|split].
  - destruct (find (exact_match (get_id adapter) (get_version adapter)
                                (get_car_key adapter))
                   (adapters_ registry ++ [adapter])%list) as [b|] eqn:Hexact.
    + exists b. split; [reflexivity|].
      apply find_some in Hexact as [_ Hm]. unfold exact_match in Hm.
      apply andb_prop in Hm as [Hm Hcar]. apply andb_prop in Hm as [Hid Hver].
      apply String.eqb_eq in Hid.
      split; [assumption|]. split; intros Hne.
      * apply Bool.orb_prop in Hver as [Hver | Hver];
          apply String.eqb_eq in Hver; [contradiction | assumption].
      * apply Bool.orb_prop in Hcar as [Hcar | Hcar];
          apply String.eqb_eq in Hcar; [contradiction | assumption].
    + exfalso.
      assert (In adapter (adapters_ registry ++ [adapter])%list) as Hin
          by (apply in_or_app; right; now left).
      apply (find_none _ _ Hexact) in Hin. unfold exact_match in Hin.
      now rewrite !String.eqb_refl, !Bool.orb_true_r in Hin.
  - intros id version car_key Hnone Hid. rewrite !find_app_first.
    destruct (find (exact_match id version car_key) (adapters_ registry));
      [discriminate|].
    rewrite Hnone. cbn [find].
    assert ((get_id adapter =? id) = true) as Hid' by (now apply String.eqb_eq).
    rewrite Hid'. unfold exact_match. rewrite Hid'. cbn [andb].
    now destruct ((version =? "") || (get_version adapter =? version))%bool,
                 ((car_key =? "") || (get_car_key adapter =? car_key))%bool.
  - intros id version car_key earlier Hres Hm. rewrite !find_app_first.
    destruct (find (exact_match id version car_key) (adapters_ registry))
      as [b|] eqn:Hexact; [assumption|].
    apply find_some in Hres as [Hin _].
    apply (find_none _ _ Hexact) in Hin. congruence.
Qed.

(** After [unregister_adapter] no registered adapter has the three keys
    given, the others are all there in their order, and the keys are
    taken literally: an empty version or car removes the adapters whose
    version or car is empty, where [resolve] reads it as any. So the
    identifier can go on resolving, to another adapter of the game. *)
Theorem unregister_adapter_removes_exactly
        (registry : AdapterRegistry A) (id version car_key : string) :
  let registry' := unregister_adapter registry id version car_key in
  (forall adapter,
      In adapter (get_all_adapters registry')
      <-> In adapter (get_all_adapters registry)
          /\ ~ (get_id adapter = id /\ get_version adapter = version
                /\ get_car_key adapter = car_key))
  /\ (forall other, other <> id ->
        get_adapters_for_game registry' other = get_adapters_for_game registry other)
  /\ (resolve registry' id version car_key = None
      <-> forall adapter, In adapter (get_all_adapters registry) ->
                          get_id adapter = id ->
                          get_version adapter = version
                          /\ get_car_key adapter = car_key).
Proof.
  intros registry'.
  assert (forall adapter,
             In adapter (get_all_adapters registry')
             <-> In adapter (get_all_adapters registry)
                 /\ ~ (get_id adapter = id /\ get_version adapter = version
                       /\ get_car_key adapter = car_key)) as Hin.
  { intros adapter. unfold registry', unregister_adapter, get_all_adapters.
    cbn [adapters_]. rewrite filter_In, Bool.negb_true_iff.
    rewrite <- Bool.not_true_iff_false, !Bool.andb_true_iff, !String.eqb_eq.
    tauto. }
  split; [exact Hin|]. split.
  - intros other Hother.
    unfold registry', unregister_adapter, get_adapters_for_game. cbn [adapters_].
    induction (adapters_ registry) as [|a l IH]; [reflexivity|].
    cbn [filter].
    destruct (String.eqb_spec (get_id a) id) as [Hid | Hid]; cbn [andb negb].
    + destruct ((get_version a =? version) && (get_car_key a =? car_key))%bool;
        cbn [negb filter].
      * destruct (String.eqb_spec (get_id a) other) as [Ho | Ho]; [congruence|].
        exact IH.
      * now rewrite IH.
    + cbn [filter]. now rewrite IH.
  - rewrite resolve_none. unfold get_adapters_for_game. split.
    + intros Hnone adapter Ha Hid.
      destruct (String.eqb_spec (get_version adapter) version) as [Hv | Hv].
      * destruct (String.eqb_spec (get_car_key adapter) car_key) as [Hc | Hc];
          [now split|].
        exfalso.
        assert (In adapter (filter (fun a => get_id a =? id) (adapters_ registry')))
          as Hf.
        { apply filter_In. split; [|now apply String.eqb_eq].
          apply Hin. split; [assumption | tauto]. }
        now rewrite Hnone in Hf.
      * exfalso.
        assert (In adapter (filter (fun a => get_id a =? id) (adapters_ registry')))
          as Hf.
        { apply filter_In. split; [|now apply String.eqb_eq].
          apply Hin. split; [assumption | tauto]. }
        now rewrite Hnone in Hf.
    + intros Hall.
      destruct (filter (fun a => get_id a =? id) (adapters_ registry'))
        as [|a l] eqn:Hf; [reflexivity|]. exfalso.
      assert (In a (filter (fun a => get_id a =? id) (adapters_ registry')))
        as Ha by (rewrite Hf; now left).
      apply filter_In in Ha as [Ha Hid]. apply String.eqb_eq in Hid.
      apply Hin in Ha as [Ha Hnot]. apply Hnot. split; [assumption|].
      now apply Hall.
Qed.
End RegistryFacts.

(* ------------------------------------------------------------------ *)
(** ** Path addressing: the leaves [set_value] writes, as a store *)

Section HandledLeaves.
Context {D : Type} `{Double D}.

Ltac each_handled Hin :=
  cbv [handled_paths aero_fields tires_fields brakes_fields map app] in Hin;
  cbn [In append] in Hin;
  repeat (destruct Hin as [<- | Hin]); try contradiction.

(** On the leaves [set_value] writes, the document is a store: after
    writing [v] at one leaf, that leaf reads [v] and every other leaf
    reads what it read before; writing a leaf twice keeps the second
    value; and writes to two different leaves can be made in either
    order. *)
Theorem set_value_store_laws (doc : ORSF D) (p q : string) (v w : D) :
  In p handled_paths -> In q handled_paths ->
  get_value (set_value doc p v) q = (if q =? p then Some v else get_value doc q)
  /\ set_value (set_value doc p v) p w = set_value doc p w
  /\ (p <> q ->
      set_value (set_value doc p v) q w = set_value (set_value doc q w) p v).
Proof.
  intros Hp Hq. split; [|split].
  - destruct (String.eqb_spec q p) as [-> | Hne].
    + now apply get_value_set_value_handled.
    + now apply get_value_set_value_other.
  - clear Hq. destruct doc as [? ? ? ? [a su t dt g b e f st] ?].
    each_handled Hp; destruct a, t, b; vm_compute; reflexivity.
  - intros Hneq. destruct doc as [? ? ? ? [a su t dt g b e f st] ?].
    each_handled Hp; each_handled Hq; try (exfalso; apply Hneq; reflexivity);
      destruct a, t, b; vm_compute; reflexivity.
Qed.

(** Writing at a leaf the value it already reads changes nothing. *)
Lemma set_value_same (doc : ORSF D) (p : string) (v : D) :
  In p handled_paths -> get_value doc p = Some v -> set_value doc p v = doc.
Proof.
  intros Hp. destruct doc as [? ? ? ? [a su t dt g b e f st] ?].
  each_handled Hp.
  all: try (destruct a as [[]|]; cbn; intros Hv; [now rewrite Hv | discriminate]).
  all: try (destruct t as [[]|]; cbn; intros Hv; [now rewrite Hv | discriminate]).
  all: try (destruct b as [[]|]; cbn; intros Hv; [now rewrite Hv | discriminate]).
Qed.
End HandledLeaves.

(* ------------------------------------------------------------------ *)
(** ** The leaves [flatten_orsf] visits *)

Section Leaves.
Context {D : Type} `{Double D}.

(** A leaf in the order the flatten helpers visit them: its key and, if
    the member holds a value, the double written for it. *)
Definition Leaf : Type := (string * option D)%type.

Definition put (flat : FlatSetup D) (leaf : Leaf) : FlatSetup D :=
  add_optional of_double flat (fst leaf) (snd leaf).

Definition leaves_aero (aero : option (Aerodynamics D)) : list Leaf :=
  match aero with
  | None => []
  | Some aero =>
      [("setup.aero.front_wing", aero.(front_wing));
       ("setup.aero.rear_wing", aero.(rear_wing));
       ("setup.aero.front_downforce_n", aero.(front_downforce_n));
       ("setup.aero.rear_downforce_n", aero.(rear_downforce_n));
       ("setup.aero.front_ride_height_mm", aero.(front_ride_height_mm));
       ("setup.aero.rear_ride_height_mm", aero.(rear_ride_height_mm));
       ("setup.aero.rake_mm", aero.(rake_mm));
       ("setup.aero.brake_duct_front_pct", aero.(brake_duct_front_pct));
       ("setup.aero.brake_duct_rear_pct", aero.(brake_duct_rear_pct));
       ("setup.aero.radiator_opening_pct", aero.(radiator_opening_pct))]
  end.

Definition leaves_corner (corner : option (CornerSuspension D)) (prefix : string)
  : list Leaf :=
  match corner with
  | None => []
  | Some corner =>
      [(prefix ++ ".camber_deg", corner.(camber_deg));
       (prefix ++ ".toe_deg", corner.(toe_deg));
       (prefix ++ ".caster_deg", corner.(caster_deg));
       (prefix ++ ".spring_rate_n_mm", corner.(spring_rate_n_mm));
       (prefix ++ ".ride_height_mm", corner.(ride_height_mm));
       (prefix ++ ".bumpstop_gap_mm", corner.(bumpstop_gap_mm));
       (prefix ++ ".bumpstop_rate_n_mm", corner.(bumpstop_rate_n_mm));
       (prefix ++ ".packer_mm", corner.(packer_mm));
       (prefix ++ ".damper_bump_slow_n_s_m", corner.(damper_bump_slow_n_s_m));
       (prefix ++ ".damper_bump_fast_n_s_m", corner.(damper_bump_fast_n_s_m));
       (prefix ++ ".damper_rebound_slow_n_s_m", corner.(damper_rebound_slow_n_s_m));
       (prefix ++ ".damper_rebound_fast_n_s_m", corner.(damper_rebound_fast_n_s_m))]
  end.

Definition leaves_suspension (susp : option (Suspension D)) : list Leaf :=
  match susp with
  | None => []
  | Some susp =>
      (leaves_corner susp.(front_left) "setup.suspension.front_left"
       ++ leaves_corner susp.(front_right) "setup.suspension.front_right"
       ++ leaves_corner susp.(rear_left) "setup.suspension.rear_left"
       ++ leaves_corner susp.(rear_right) "setup.suspension.rear_right"
       ++ [("setup.suspension.front_arb", susp.(front_arb));
           ("setup.suspension.rear_arb", susp.(rear_arb));
           ("setup.suspension.heave_spring_n_mm", susp.(heave_spring_n_mm));
           ("setup.suspension.heave_packer_mm", susp.(heave_packer_mm))])%list
  end.

Definition leaves_tires (tires : option (Tires D)) : list Leaf :=
  match tires with
  | None => []
  | Some tires =>
      [("setup.tires.pressure_fl_kpa", tires.(pressure_fl_kpa));
       ("setup.tires.pressure_fr_kpa", tires.(pressure_fr_kpa));
       ("setup.tires.pressure_rl_kpa", tires.(pressure_rl_kpa));
       ("setup.tires.pressure_rr_kpa", tires.(pressure_rr_kpa));
       ("setup.tires.stagger_mm", tires.(stagger_mm))]
  end.

Definition leaves_drivetrain (drivetrain : option (Drivetrain D)) : list Leaf :=
  match drivetrain with
  | None => []
  | Some drivetrain =>
      [("setup.drivetrain.diff_preload_nm", drivetrain.(diff_preload_nm));
       ("setup.drivetrain.diff_power_ramp_pct", drivetrain.(diff_power_ramp_pct));
       ("setup.drivetrain.diff_coast_ramp_pct", drivetrain.(diff_coast_ramp_pct));
       ("setup.drivetrain.final_drive_ratio", drivetrain.(final_drive_ratio));
       ("setup.drivetrain.lsd_clutch_plates",
        option_map dint drivetrain.(lsd_clutch_plates))]
  end.

Fixpoint leaves_gear_ratios (i : nat) (ratios : list D) : list Leaf :=
  match ratios with
  | [] => []
  | ratio :: rest =>
      ("setup.gearing.gear_" ++ string_of_nat i, Some ratio)
        :: leaves_gear_ratios (S i) rest
  end.

Definition leaves_gearing (gearing : option (Gearing D)) : list Leaf :=
  match gearing with
  | None => []
  | Some gearing =>
      (match gearing.(gear_ratios) with
       | Some ratios => leaves_gear_ratios 0 ratios
       | None => []
       end
       ++ [("setup.gearing.reverse_ratio", gearing.(reverse_ratio))])%list
  end.

Definition leaves_brakes (brakes : option (Brakes D)) : list Leaf :=
  match brakes with
  | None => []
  | Some brakes =>
      [("setup.brakes.brake_bias_pct", brakes.(brake_bias_pct));
       ("setup.brakes.max_force_n", brakes.(max_force_n))]
  end.

Definition leaves_electronics (electronics : option (Electronics D)) : list Leaf :=
  match electronics with
  | None => []
  | Some electronics =>
      [("setup.electronics.tc_level", option_map dint electronics.(tc_level));
       ("setup.electronics.tc2_level", option_map dint electronics.(tc2_level));
       ("setup.electronics.abs_level", option_map dint electronics.(abs_level));
       ("setup.electronics.engine_map", option_map dint electronics.(engine_map));
       ("setup.electronics.engine_brake_level",
        option_map dint electronics.(engine_brake_level));
       ("setup.electronics.pit_limiter_kph", electronics.(pit_limiter_kph))]
  end.

Definition leaves_fuel (fuel : option (Fuel D)) : list Leaf :=
  match fuel with
  | None => []
  | Some fuel =>
      [("setup.fuel.start_fuel_l", fuel.(start_fuel_l));
       ("setup.fuel.per_lap_consumption_l", fuel.(per_lap_consumption_l));
       ("setup.fuel.stint_target_laps", option_map dint fuel.(stint_target_laps));
       ("setup.fuel.mixture_setting", option_map dint fuel.(mixture_setting))]
  end.

Definition leaves (s : Setup D) : list Leaf :=
  (leaves_aero s.(aero) ++ leaves_suspension s.(suspension)
   ++ leaves_tires s.(tires) ++ leaves_drivetrain s.(drivetrain)
   ++ leaves_gearing s.(gearing) ++ leaves_brakes s.(brakes)
   ++ leaves_electronics s.(electronics) ++ leaves_fuel s.(fuel))%list.

(** Each helper writes its leaves in order into the map it is given. *)
Lemma add_optional_int (flat : FlatSetup D) (key : string) (n : option Z) :
  add_optional dint flat key n = put flat (key, option_map dint n).
Proof. now destruct n. Qed.

Lemma flatten_aero_leaves aero (flat : FlatSetup D) :
  flatten_aero aero flat = fold_left put (leaves_aero aero) flat.
Proof. now destruct aero. Qed.

Lemma flatten_corner_leaves corner prefix (flat : FlatSetup D) :
  flatten_corner corner prefix flat = fold_left put (leaves_corner corner prefix) flat.
Proof. now destruct corner. Qed.

Lemma flatten_suspension_leaves susp (flat : FlatSetup D) :
  flatten_suspension susp flat = fold_left put (leaves_suspension susp) flat.
Proof.
  destruct susp as [s|]; [|reflexivity]. unfold flatten_suspension, leaves_suspension.
  rewrite !fold_left_app, <- !flatten_corner_leaves. reflexivity.
Qed.

Lemma flatten_tires_leaves tires (flat : FlatSetup D) :
  flatten_tires tires flat = fold_left put (leaves_tires tires) flat.
Proof. now destruct tires. Qed.

Lemma flatten_drivetrain_leaves drivetrain (flat : FlatSetup D) :
  flatten_drivetrain drivetrain flat = fold_left put (leaves_drivetrain drivetrain) flat.
Proof.
  destruct drivetrain as [d|]; [|reflexivity].
  unfold flatten_drivetrain. now rewrite add_optional_int.
Qed.

Lemma flatten_gear_ratios_leaves (i : nat) (ratios : list D) (flat : FlatSetup D) :
  flatten_gear_ratios i ratios flat = fold_left put (leaves_gear_ratios i ratios) flat.
Proof.
  revert i flat. induction ratios as [|r rest IH]; intros i flat; [reflexivity|].
  cbn [flatten_gear_ratios leaves_gear_ratios fold_left]. now rewrite IH.
Qed.

Lemma flatten_gearing_leaves gearing (flat : FlatSetup D) :
  flatten_gearing gearing flat = fold_left put (leaves_gearing gearing) flat.
Proof.
  destruct gearing as [g|]; [|reflexivity]. unfold flatten_gearing, leaves_gearing.
  rewrite fold_left_app. destruct (gear_ratios g); [|reflexivity].
  now rewrite flatten_gear_ratios_leaves.
Qed.

Lemma flatten_brakes_leaves brakes (flat : FlatSetup D) :
  flatten_brakes brakes flat = fold_left put (leaves_brakes brakes) flat.
Proof. now destruct brakes. Qed.

Lemma flatten_electronics_leaves electronics (flat : FlatSetup D) :
  flatten_electronics electronics flat
  = fold_left put (leaves_electronics electronics) flat.
Proof.
  destruct electronics as [e|]; [|reflexivity].
  unfold flatten_electronics. now rewrite !add_optional_int.
Qed.

Lemma flatten_fuel_leaves fuel (flat : FlatSetup D) :
  flatten_fuel fuel flat = fold_left put (leaves_fuel fuel) flat.
Proof.
  destruct fuel as [f|]; [|reflexivity].
  unfold flatten_fuel. now rewrite !add_optional_int.
Qed.

Lemma flatten_orsf_leaves (doc : ORSF D) :
  flatten_orsf doc = fold_left put (leaves doc.(setup)) flat_empty.
Proof.
  unfold flatten_orsf, leaves. rewrite !fold_left_app.
  now rewrite flatten_fuel_leaves, flatten_electronics_leaves, flatten_brakes_leaves,
    flatten_gearing_leaves, flatten_drivetrain_leaves, flatten_tires_leaves,
    flatten_suspension_leaves, flatten_aero_leaves.
Qed.

(** The value the leaves write for a key: that of the last leaf of that
    key that holds one. *)
Fixpoint written (key : string) (l : list Leaf) : option D :=
  match l with
  | [] => None
  | (k, o) :: rest =>
      match written key rest with
      | Some v => Some v
      | None => if key =? k then o else None
      end
  end.

Lemma flat_find_fold_put (key : string) (l : list Leaf) (flat : FlatSetup D) :
  flat_find key (fold_left put l flat)
  = match written key l with
    | Some v => Some v
    | None => flat_find key flat
    end.
Proof.
  revert flat. induction l as [|[k o] rest IH]; intros flat; [reflexivity|].
  cbn [fold_left written]. rewrite IH. unfold put. cbn [fst snd].
  rewrite flat_find_add_optional.
  destruct (written key rest); [reflexivity|].
  destruct (key =? k); [|reflexivity]. now destruct o.
Qed.

Lemma written_app (key : string) (l1 l2 : list Leaf) :
  written key (l1 ++ l2)%list
  = match written key l2 with
    | Some v => Some v
    | None => written key l1
    end.
Proof.
  induction l1 as [|[k o] l1 IH]; cbn [app written].
  - now destruct (written key l2).
  - rewrite IH. now destruct (written key l2).
Qed.

(** What [flatten_orsf] holds for a key is what the leaves write for
    it. *)
Lemma flat_find_flatten_orsf (doc : ORSF D) (key : string) :
  flat_find key (flatten_orsf doc) = written key (leaves doc.(setup)).
Proof.
  rewrite flatten_orsf_leaves, flat_find_fold_put.
  now destruct (written key (leaves (setup doc))).
Qed.

(** Every entry of the map comes from a leaf that holds its value. *)
Lemma in_flat_assign (e : string * D) key value (flat : FlatSetup D) :
  In e (flat_assign key value flat) -> e = (key, value) \/ In e flat.
Proof.
  induction flat as [|[k v] rest IH]; cbn [flat_assign].
  - intros [<- | []]. now left.
  - destruct (String.compare key k).
    + intros [<- | Hin]; [now left | right; now right].
    + intros [<- | Hin]; [now left | now right].
    + intros [<- | Hin]; [right; now left|].
      destruct (IH Hin) as [-> | Hin']; [now left | right; now right].
Qed.

Lemma in_fold_put (e : string * D) (l : list Leaf) (flat : FlatSetup D) :
  In e (fold_left put l flat) -> In (fst e, Some (snd e)) l \/ In e flat.
Proof.
  revert flat. induction l as [|[k o] rest IH]; intros flat; [now right|].
  cbn [fold_left]. intros Hin. destruct (IH _ Hin) as [Hrest | Hput].
  - left. now right.
  - unfold put, add_optional in Hput. cbn [fst snd] in Hput.
    destruct o as [v|]; [|now right].
    destruct (in_flat_assign _ _ _ _ Hput) as [-> | Hflat]; [|now right].
    left. now left.
Qed.

Lemma in_flatten_orsf (doc : ORSF D) (key : string) (v : D) :
  In (key, v) (flatten_orsf doc) -> In (key, Some v) (leaves doc.(setup)).
Proof.
  rewrite flatten_orsf_leaves. intros Hin.
  now destruct (in_fold_put _ _ _ Hin) as [Hl | []].
Qed.
End Leaves.

Section LeafKeys.
Context {D : Type} `{Double D}.

(** The keys of a block of leaves all start with the prefix. *)
Definition under (p : string) (l : list (Leaf (D := D))) : Prop :=
  Forall (fun leaf => exists rest, fst leaf = p ++ rest) l.

Ltac static_keys := repeat constructor; eexists; reflexivity.

Lemma leaves_aero_keys (aero : option (Aerodynamics D)) :
  under "setup.aero." (leaves_aero aero).
Proof. destruct aero; [static_keys | constructor]. Qed.

Lemma leaves_corner_keys (corner : option (CornerSuspension D)) (p : string) :
  under (p ++ ".") (leaves_corner corner p).
Proof.
  destruct corner as [c|]; [|constructor]. unfold leaves_corner, under.
  repeat constructor; cbn [fst];
    match goal with
    | |- exists rest, p ++ String "." ?leaf = _ =>
        exists leaf; now rewrite append_assoc
    end.
Qed.

Lemma under_app (p : string) (l1 l2 : list (Leaf (D := D))) :
  under p l1 -> under p l2 -> under p (l1 ++ l2)%list.
Proof. intros H1 H2. apply Forall_app. now split. Qed.

Lemma under_longer (p q : string) (l : list (Leaf (D := D))) :
  under (p ++ q) l -> under p l.
Proof.
  apply Forall_impl. intros leaf [rest Hrest]. exists (q ++ rest).
  now rewrite Hrest, append_assoc.
Qed.

Lemma leaves_suspension_keys (susp : option (Suspension D)) :
  under "setup.suspension." (leaves_suspension susp).
Proof.
  destruct susp as [s|]; [|constructor]. unfold leaves_suspension.
  repeat apply under_app.
  - apply (under_longer "setup.suspension." "front_left.").
    exact (leaves_corner_keys (front_left s) "setup.suspension.front_left").
  - apply (under_longer "setup.suspension." "front_right.").
    exact (leaves_corner_keys (front_right s) "setup.suspension.front_right").
  - apply (under_longer "setup.suspension." "rear_left.").
    exact (leaves_corner_keys (rear_left s) "setup.suspension.rear_left").
  - apply (under_longer "setup.suspension." "rear_right.").
    exact (leaves_corner_keys (rear_right s) "setup.suspension.rear_right").
  - static_keys.
Qed.

Lemma leaves_tires_keys (tires : option (Tires D)) :
  under "setup.tires." (leaves_tires tires).
Proof. destruct tires; [static_keys | constructor]. Qed.

Lemma leaves_drivetrain_keys (drivetrain : option (Drivetrain D)) :
  under "setup.drivetrain." (leaves_drivetrain drivetrain).
Proof. destruct drivetrain; [static_keys | constructor]. Qed.

Lemma leaves_gear_ratios_keys (i : nat) (ratios : list D) :
  under "setup.gearing." (leaves_gear_ratios i ratios).
Proof.
  revert i. induction ratios as [|r rest IH]; intros i; constructor; [|apply IH].
  eexists. reflexivity.
Qed.

Lemma leaves_gearing_keys (gearing : option (Gearing D)) :
  under "setup.gearing." (leaves_gearing gearing).
Proof.
  destruct gearing as [g|]; [|constructor]. unfold leaves_gearing.
  apply under_app; [|static_keys].
  destruct (gear_ratios g); [apply leaves_gear_ratios_keys | constructor].
Qed.

Lemma leaves_brakes_keys (brakes : option (Brakes D)) :
  under "setup.brakes." (leaves_brakes brakes).
Proof. destruct brakes; [static_keys | constructor]. Qed.

Lemma leaves_electronics_keys (electronics : option (Electronics D)) :
  under "setup.electronics." (leaves_electronics electronics).
Proof. destruct electronics; [static_keys | constructor]. Qed.

Lemma leaves_fuel_keys (fuel : option (Fuel D)) :
  under "setup.fuel." (leaves_fuel fuel).
Proof. destruct fuel; [static_keys | constructor]. Qed.

(** A key that lacks the prefix of a block is not written by it. *)
Lemma written_elsewhere (p key : string) (l : list (Leaf (D := D))) :
  under p l -> prefix p key = false -> written key l = None.
Proof.
  intros Hl Hkey. induction Hl as [|[k o] l [rest Hk] Hl IH]; [reflexivity|].
  cbn [written fst] in *. rewrite IH.
  destruct (String.eqb_spec key k) as [-> | Hne]; [|reflexivity].
  subst k. rewrite prefix_append in Hkey; [discriminate|].
  clear. induction p as [|c p IHp]; [reflexivity|]. cbn.
  now destruct (ascii_dec c c).
Qed.

(** The sections of a setup that hold numbers. *)
Definition sections : list string :=
  ["aero"; "suspension"; "tires"; "drivetrain"; "gearing"; "brakes";
   "electronics"; "fuel"].

(** [flatten_orsf] writes no key outside the eight sections: every key
    of the map is [setup.<section>.<rest>] for one of them. *)
Theorem flatten_orsf_keys_in_sections (doc : ORSF D) (key : string) :
  In key (map fst (flatten_orsf doc)) ->
  exists section rest,
    In section sections /\ key = "setup." ++ section ++ "." ++ rest.
Proof.
  intros Hin. apply in_map_iff in Hin as ([k v] & <- & Hin). cbn [fst].
  apply in_flatten_orsf in Hin. unfold leaves in Hin.
  assert (forall section (l : list (Leaf (D := D))),
             In section sections ->
             under ("setup." ++ section ++ ".") l -> In (k, Some v) l ->
             exists section rest,
               In section sections /\ k = "setup." ++ section ++ "." ++ rest)
    as Hblock.
  { intros section l Hsec Hl Hk. unfold under in Hl.
    rewrite Forall_forall in Hl. destruct (Hl _ Hk) as [rest Hrest].
    exists section, rest. split; [assumption|].
    cbn [fst] in Hrest. rewrite Hrest. cbn [append].
    f_equal. f_equal. f_equal. f_equal. f_equal. f_equal.
    now rewrite append_assoc. }
  repeat (apply in_app_or in Hin as [Hin | Hin]).
  - apply (Hblock "aero" _ ltac:(cbn; tauto) (leaves_aero_keys _) Hin).
  - apply (Hblock "suspension" _ ltac:(cbn; tauto) (leaves_suspension_keys _) Hin).
  - apply (Hblock "tires" _ ltac:(cbn; tauto) (leaves_tires_keys _) Hin).
  - apply (Hblock "drivetrain" _ ltac:(cbn; tauto) (leaves_drivetrain_keys _) Hin).
  - apply (Hblock "gearing" _ ltac:(cbn; tauto) (leaves_gearing_keys _) Hin).
  - apply (Hblock "brakes" _ ltac:(cbn; tauto) (leaves_brakes_keys _) Hin).
  - apply (Hblock "electronics" _ ltac:(cbn; tauto) (leaves_electronics_keys _) Hin).
  - apply (Hblock "fuel" _ ltac:(cbn; tauto) (leaves_fuel_keys _) Hin).
Qed.
End LeafKeys.

(* ------------------------------------------------------------------ *)
(** ** [set_value], [flatten_orsf] and [inflate_orsf] together *)

Section WritesAndViews.
Context {D : Type} `{Double D}.

Ltac each_handled Hin :=
  cbv [handled_paths aero_fields tires_fields brakes_fields map app] in Hin;
  cbn [In append] in Hin;
  repeat (destruct Hin as [<- | Hin]); try contradiction.

Lemma set_value_untouched (doc : ORSF D) (path : string) (v : D) :
  let doc' := set_value doc path v in
  schema doc' = schema doc /\ metadata doc' = metadata doc
  /\ car doc' = car doc /\ context doc' = context doc
  /\ compat doc' = compat doc
  /\ suspension (setup doc') = suspension (setup doc)
  /\ drivetrain (setup doc') = drivetrain (setup doc)
  /\ gearing (setup doc') = gearing (setup doc)
  /\ electronics (setup doc') = electronics (setup doc)
  /\ fuel (setup doc') = fuel (setup doc)
  /\ strategy (setup doc') = strategy (setup doc)
  /\ ((tires (setup doc') = tires (setup doc)
       /\ brakes (setup doc') = brakes (setup doc))
      \/ (aero (setup doc') = aero (setup doc)
          /\ brakes (setup doc') = brakes (setup doc))
      \/ (aero (setup doc') = aero (setup doc)
          /\ tires (setup doc') = tires (setup doc))).
Proof.
  cbv zeta. unfold set_value.
  destruct (empty (split_path path) || negb (part (split_path path) 0 =? "setup")
            || (List.length (split_path path) <? 3)%nat)%bool;
    [tauto|].
  destruct (part (split_path path) 1 =? "aero");
    [destruct doc as [? ? ? ? [] ?]; cbn; tauto|].
  destruct (part (split_path path) 1 =? "tires");
    [destruct doc as [? ? ? ? [] ?]; cbn; tauto|].
  destruct (part (split_path path) 1 =? "brakes");
    [destruct doc as [? ? ? ? [] ?]; cbn; tauto|].
  tauto.
Qed.

(** Whatever the path, [set_value] leaves everything outside the [aero],
    [tires] and [brakes] blocks as it was, and changes at most one of
    these three. *)
Theorem set_value_frame (doc : ORSF D) (path : string) (v : D) :
  let doc' := set_value doc path v in
  schema doc' = schema doc /\ metadata doc' = metadata doc
  /\ car doc' = car doc /\ context doc' = context doc
  /\ compat doc' = compat doc
  /\ suspension (setup doc') = suspension (setup doc)
  /\ drivetrain (setup doc') = drivetrain (setup doc)
  /\ gearing (setup doc') = gearing (setup doc)
  /\ electronics (setup doc') = electronics (setup doc)
  /\ fuel (setup doc') = fuel (setup doc)
  /\ strategy (setup doc') = strategy (setup doc)
  /\ ((tires (setup doc') = tires (setup doc)
       /\ brakes (setup doc') = brakes (setup doc))
      \/ (aero (setup doc') = aero (setup doc)
          /\ brakes (setup doc') = brakes (setup doc))
      \/ (aero (setup doc') = aero (setup doc)
          /\ tires (setup doc') = tires (setup doc))).
Proof. apply set_value_untouched. Qed.

Lemma if_same {A} (c : bool) (x : A) : (if c then x else x) = x.
Proof. now destruct c. Qed.

(** Evaluate a block of the document a write returns. *)
Ltac block_after blk :=
  match goal with
  | |- context [blk (setup (set_value ?d ?p ?v))] =>
      let t := constr:(blk (setup (set_value d p v))) in
      let x := eval vm_compute in t in
      replace t with x by (vm_compute; reflexivity)
  end.

Ltac same_but_one Hne :=
  try block_after (@aero D); try block_after (@tires D);
  try block_after (@brakes D);
  cbn [written leaves_aero leaves_tires leaves_brakes fst snd
       front_wing rear_wing front_downforce_n rear_downforce_n
       front_ride_height_mm rear_ride_height_mm rake_mm brake_duct_front_pct
       brake_duct_rear_pct radiator_opening_pct
       pressure_fl_kpa pressure_fr_kpa pressure_rl_kpa pressure_rr_kpa stagger_mm
       brake_bias_pct max_force_n];
  rewrite ?Hne, ?if_same; reflexivity.

(** The block a write to a handled leaf leaves behind writes the same
    values as before for every other key. *)
Lemma written_after_set_value (doc : ORSF D) (p key : string) (v : D) :
  In p handled_paths -> (key =? p) = false ->
  written key (leaves (setup (set_value doc p v)))
  = written key (leaves (setup doc)).
Proof.
  intros Hp Hne.
  destruct (set_value_untouched doc p v)
    as (_ & _ & _ & _ & _ & Hsu & Hdt & Hg & He & Hf & _).
  unfold leaves. rewrite Hsu, Hdt, Hg, He, Hf, !written_app.
  assert (written key (leaves_aero (aero (setup (set_value doc p v))))
          = written key (leaves_aero (aero (setup doc)))
          /\ written key (leaves_tires (tires (setup (set_value doc p v))))
             = written key (leaves_tires (tires (setup doc)))
          /\ written key (leaves_brakes (brakes (setup (set_value doc p v))))
             = written key (leaves_brakes (brakes (setup doc))))
    as (-> & -> & ->); [|reflexivity].
  destruct doc as [? ? ? ? [a su t dt g b e f st] ?].
  cbn [setup aero tires brakes].
  each_handled Hp;
    (split; [destruct a as [[]|] | split; [destruct t as [[]|] | destruct b as [[]|]]]);
    same_but_one Hne.
Qed.

(** Writing a handled leaf changes the flat view of the document at that
    key and nowhere else. *)
Theorem flatten_orsf_after_set_value (doc : ORSF D) (p key : string) (v : D) :
  In p handled_paths ->
  flat_find key (flatten_orsf (set_value doc p v))
  = if key =? p then Some v else flat_find key (flatten_orsf doc).
Proof.
  intros Hp. destruct (String.eqb_spec key p) as [-> | Hne].
  - rewrite flatten_orsf_get_value by assumption.
    now apply get_value_set_value_handled.
  - rewrite !flat_find_flatten_orsf. apply written_after_set_value; [assumption|].
    now apply String.eqb_neq.
Qed.
End WritesAndViews.

Section InflateOwnView.
Context {D : Type} `{Double D}.

(** A leaf of an [aero], [tires] or [brakes] block that holds a value
    names a handled path, and [get_value] reads that value there. *)
Lemma handled_leaf_read (doc : ORSF D) (key : string) (x : D) :
  In (key, Some x)
     (leaves_aero (aero (setup doc)) ++ leaves_tires (tires (setup doc))
      ++ leaves_brakes (brakes (setup doc)))%list ->
  In key handled_paths /\ get_value doc key = Some x.
Proof.
  destruct doc as [? ? ? ? [a su t dt g b e f st] ?]. cbn [setup aero tires brakes].
  intros Hin. apply in_app_or in Hin as [Hin | Hin];
    [|apply in_app_or in Hin as [Hin | Hin]].
  - destruct a as [[]|]; [|contradiction]. cbn [leaves_aero In] in Hin.
    repeat (destruct Hin as [[= <- Hx] | Hin];
            [split; [vm_compute; tauto | vm_compute; exact Hx]|]).
    contradiction.
  - destruct t as [[]|]; [|contradiction]. cbn [leaves_tires In] in Hin.
    repeat (destruct Hin as [[= <- Hx] | Hin];
            [split; [vm_compute; tauto | vm_compute; exact Hx]|]).
    contradiction.
  - destruct b as [[]|]; [|contradiction]. cbn [leaves_brakes In] in Hin.
    repeat (destruct Hin as [[= <- Hx] | Hin];
            [split; [vm_compute; tauto | vm_compute; exact Hx]|]).
    contradiction.
Qed.

(** Writing to a document an entry of its own flat view changes
    nothing. *)
Lemma set_value_own_entry (doc : ORSF D) (key : string) (x : D) :
  In (key, Some x) (leaves (setup doc)) -> set_value doc key x = doc.
Proof.
  unfold leaves. intros Hin.
  assert (forall p (l : list (Leaf (D := D))),
             In p unhandled_prefixes -> under p l -> In (key, Some x) l ->
             set_value doc key x = doc) as Hother.
  { intros p l Hp Hl Hk. unfold under in Hl. rewrite Forall_forall in Hl.
    destruct (Hl _ Hk) as [rest Hrest]. cbn [fst] in Hrest. rewrite Hrest.
    now apply set_value_unhandled_prefix. }
  assert (In (key, Some x)
             (leaves_aero (aero (setup doc)) ++ leaves_tires (tires (setup doc))
              ++ leaves_brakes (brakes (setup doc)))%list ->
          set_value doc key x = doc) as Hhandled.
  { intros Hk. destruct (handled_leaf_read doc key x Hk) as [Hp Hread].
    now apply set_value_same. }
  apply in_app_or in Hin as [Hin | Hin].
  { apply Hhandled. apply in_or_app. now left. }
  apply in_app_or in Hin as [Hin | Hin].
  { apply (Hother "setup.suspension." _ ltac:(cbn; tauto)
                  (leaves_suspension_keys _) Hin). }
  apply in_app_or in Hin as [Hin | Hin].
  { apply Hhandled. apply in_or_app. right. apply in_or_app. now left. }
  apply in_app_or in Hin as [Hin | Hin].
  { apply (Hother "setup.drivetrain." _ ltac:(cbn; tauto)
                  (leaves_drivetrain_keys _) Hin). }
  apply in_app_or in Hin as [Hin | Hin].
  { apply (Hother "setup.gearing." _ ltac:(cbn; tauto)
                  (leaves_gearing_keys _) Hin). }
  apply in_app_or in Hin as [Hin | Hin].
  { apply Hhandled. apply in_or_app. right. apply in_or_app. now right. }
  apply in_app_or in Hin as [Hin | Hin].
  { apply (Hother "setup.electronics." _ ltac:(cbn; tauto)
                  (leaves_electronics_keys _) Hin). }
  apply (Hother "setup.fuel." _ ltac:(cbn; tauto) (leaves_fuel_keys _) Hin).
Qed.

(** Inflating the flat view of a document into that document gives the
    document back: flattening loses nothing [inflate_orsf] would have to
    restore when the template is the document itself. *)
Theorem inflate_orsf_own_view (doc : ORSF D) :
  inflate_orsf (flatten_orsf doc) doc = doc.
Proof.
  unfold inflate_orsf.
  assert (forall flat : FlatSetup D,
             (forall e, In e flat -> set_value doc (fst e) (snd e) = doc) ->
             fold_left (fun result entry => set_value result (fst entry) (snd entry))
                       flat doc = doc) as Hfold.
  { induction flat as [|e flat IH]; intros Hall; [reflexivity|].
    cbn [fold_left]. rewrite (Hall e) by now left.
    apply IH. intros e' He'. apply Hall. now right. }
  apply Hfold. intros [k v] Hin. cbn [fst snd].
  apply set_value_own_entry. now apply in_flatten_orsf.
Qed.
End InflateOwnView.

(* ------------------------------------------------------------------ *)
(** ** [get_value] against [flatten_orsf] *)

Section ReadsAndViews.
Context {D : Type} `{Double D}.

(** A corner that holds a packer only. *)
Definition set_packer (packer : D) : CornerSuspension D :=
  {| camber_deg := None; toe_deg := None; caster_deg := None;
     spring_rate_n_mm := None; ride_height_mm := None; bumpstop_gap_mm := None;
     bumpstop_rate_n_mm := None; packer_mm := Some packer;
     damper_bump_slow_n_s_m := None; damper_bump_fast_n_s_m := None;
     damper_rebound_slow_n_s_m := None; damper_rebound_fast_n_s_m := None |}.

(** The leaf names [get_value] compares with, per block. *)
Definition corner_fields : list string :=
  ["camber_deg"; "toe_deg"; "caster_deg"; "spring_rate_n_mm"; "ride_height_mm";
   "bumpstop_gap_mm"; "bumpstop_rate_n_mm"; "damper_bump_slow_n_s_m";
   "damper_bump_fast_n_s_m"; "damper_rebound_slow_n_s_m";
   "damper_rebound_fast_n_s_m"].

Definition corner_paths : list string :=
  (map (append "setup.suspension.front_left.") corner_fields
   ++ map (append "setup.suspension.front_right.") corner_fields
   ++ map (append "setup.suspension.rear_left.") corner_fields
   ++ map (append "setup.suspension.rear_right.") corner_fields)%list.

Definition suspension_paths : list string :=
  ["setup.suspension.front_arb"; "setup.suspension.rear_arb";
   "setup.suspension.heave_spring_n_mm"].

Definition drivetrain_paths : list string :=
  ["setup.drivetrain.diff_preload_nm"; "setup.drivetrain.diff_power_ramp_pct";
   "setup.drivetrain.diff_coast_ramp_pct"; "setup.drivetrain.final_drive_ratio";
   "setup.drivetrain.lsd_clutch_plates"].

Definition electronics_paths : list string :=
  ["setup.electronics.tc_level"; "setup.electronics.abs_level";
   "setup.electronics.engine_map"; "setup.electronics.pit_limiter_kph"].

Definition fuel_paths : list string :=
  ["setup.fuel.start_fuel_l"; "setup.fuel.per_lap_consumption_l";
   "setup.fuel.stint_target_laps"].

(** The paths [get_value] has a comparison for. *)
Definition readable_paths : list string :=
  (handled_paths ++ corner_paths ++ suspension_paths ++ drivetrain_paths
   ++ electronics_paths ++ fuel_paths)%list.

(** The leaves [flatten_orsf] writes and [get_value] has no comparison
    for (the gear ratios apart, which no block of [get_value] reads). *)
Definition unread_paths : list string :=
  ["setup.suspension.front_left.packer_mm"; "setup.suspension.front_right.packer_mm";
   "setup.suspension.rear_left.packer_mm"; "setup.suspension.rear_right.packer_mm";
   "setup.suspension.heave_packer_mm"; "setup.gearing.reverse_ratio";
   "setup.electronics.tc2_level"; "setup.electronics.engine_brake_level";
   "setup.fuel.mixture_setting"].

Ltac each_path Hin :=
  cbv [corner_paths suspension_paths drivetrain_paths electronics_paths fuel_paths unread_paths
       corner_fields map app] in Hin;
  cbn [In append] in Hin;
  repeat (destruct Hin as [<- | Hin]); try contradiction.

Ltac split_matches :=
  repeat match goal with
         | |- context [match ?x with _ => _ end] => is_var x; destruct x
         end;
  reflexivity.

Lemma written_app_l (p key : string) (l1 l2 : list (Leaf (D := D))) :
  under p l1 -> prefix p key = false -> written key (l1 ++ l2)%list = written key l2.
Proof.
  intros Hl Hkey. rewrite written_app, (written_elsewhere p key l1 Hl Hkey).
  now destruct (written key l2).
Qed.

Lemma written_app_r (p key : string) (l1 l2 : list (Leaf (D := D))) :
  under p l2 -> prefix p key = false -> written key (l1 ++ l2)%list = written key l1.
Proof.
  intros Hl Hkey. now rewrite written_app, (written_elsewhere p key l2 Hl Hkey).
Qed.

Lemma prefix_split (p key : string) :
  prefix p key = true -> exists rest, key = p ++ rest.
Proof.
  revert key. induction p as [|c p IH]; intros key Hp.
  - now exists key.
  - destruct key as [|c' key]; [discriminate|]. cbn in Hp.
    destruct (ascii_dec c c') as [<- | Hne]; [|discriminate].
    destruct (IH key Hp) as [rest ->]. now exists rest.
Qed.

Ltac peel_right :=
  first
    [ rewrite (written_app_r "setup.aero." _ _ _ (leaves_aero_keys _)) by reflexivity
    | rewrite (written_app_r "setup.suspension." _ _ _ (leaves_suspension_keys _)) by reflexivity
    | rewrite (written_app_r "setup.tires." _ _ _ (leaves_tires_keys _)) by reflexivity
    | rewrite (written_app_r "setup.drivetrain." _ _ _ (leaves_drivetrain_keys _)) by reflexivity
    | rewrite (written_app_r "setup.gearing." _ _ _ (leaves_gearing_keys _)) by reflexivity
    | rewrite (written_app_r "setup.brakes." _ _ _ (leaves_brakes_keys _)) by reflexivity
    | rewrite (written_app_r "setup.electronics." _ _ _ (leaves_electronics_keys _)) by reflexivity
    | rewrite (written_app_r "setup.fuel." _ _ _ (leaves_fuel_keys _)) by reflexivity ].

Ltac peel_left :=
  first
    [ rewrite (written_app_l "setup.aero." _ _ _ (leaves_aero_keys _)) by reflexivity
    | rewrite (written_app_l "setup.suspension." _ _ _ (leaves_suspension_keys _)) by reflexivity
    | rewrite (written_app_l "setup.tires." _ _ _ (leaves_tires_keys _)) by reflexivity
    | rewrite (written_app_l "setup.drivetrain." _ _ _ (leaves_drivetrain_keys _)) by reflexivity
    | rewrite (written_app_l "setup.gearing." _ _ _ (leaves_gearing_keys _)) by reflexivity
    | rewrite (written_app_l "setup.brakes." _ _ _ (leaves_brakes_keys _)) by reflexivity
    | rewrite (written_app_l "setup.electronics." _ _ _ (leaves_electronics_keys _)) by reflexivity
    | rewrite (written_app_l "setup.fuel." _ _ _ (leaves_fuel_keys _)) by reflexivity ].

(** Reduce what the leaves of a setup write for a key to what the block
    of the key's section writes. *)
Ltac isolate_block :=
  unfold leaves; rewrite !List.app_assoc; repeat peel_right;
  rewrite <- ?List.app_assoc; repeat peel_left.

(** A key under the prefix of a section is written by the block of that
    section alone. *)
Lemma written_in_suspension (s : Setup D) (key : string) :
  prefix "setup.suspension." key = true ->
  written key (leaves s)
  = written key (leaves_suspension (suspension s)).
Proof.
  intros Hkey. destruct (prefix_split _ _ Hkey) as [rest ->]. isolate_block. reflexivity.
Qed.

Lemma written_in_drivetrain (s : Setup D) (key : string) :
  prefix "setup.drivetrain." key = true ->
  written key (leaves s)
  = written key (leaves_drivetrain (drivetrain s)).
Proof.
  intros Hkey. destruct (prefix_split _ _ Hkey) as [rest ->]. isolate_block. reflexivity.
Qed.

Lemma written_in_gearing (s : Setup D) (key : string) :
  prefix "setup.gearing." key = true ->
  written key (leaves s)
  = written key (leaves_gearing (gearing s)).
Proof.
  intros Hkey. destruct (prefix_split _ _ Hkey) as [rest ->]. isolate_block. reflexivity.
Qed.

Lemma written_in_electronics (s : Setup D) (key : string) :
  prefix "setup.electronics." key = true ->
  written key (leaves s)
  = written key (leaves_electronics (electronics s)).
Proof.
  intros Hkey. destruct (prefix_split _ _ Hkey) as [rest ->]. isolate_block. reflexivity.
Qed.

Lemma written_in_fuel (s : Setup D) (key : string) :
  prefix "setup.fuel." key = true ->
  written key (leaves s)
  = written key (leaves_fuel (fuel s)).
Proof.
  intros Hkey. destruct (prefix_split _ _ Hkey) as [rest ->]. isolate_block. reflexivity.
Qed.

Ltac peel_corner_right :=
  first
    [ rewrite (written_app_r _ _ _ _ (leaves_corner_keys _ "setup.suspension.front_left"))
        by reflexivity
    | rewrite (written_app_r _ _ _ _ (leaves_corner_keys _ "setup.suspension.front_right"))
        by reflexivity
    | rewrite (written_app_r _ _ _ _ (leaves_corner_keys _ "setup.suspension.rear_left"))
        by reflexivity
    | rewrite (written_app_r _ _ _ _ (leaves_corner_keys _ "setup.suspension.rear_right"))
        by reflexivity ].

Ltac peel_corner_left :=
  first
    [ rewrite (written_app_l _ _ _ _ (leaves_corner_keys _ "setup.suspension.front_left"))
        by reflexivity
    | rewrite (written_app_l _ _ _ _ (leaves_corner_keys _ "setup.suspension.front_right"))
        by reflexivity
    | rewrite (written_app_l _ _ _ _ (leaves_corner_keys _ "setup.suspension.rear_left"))
        by reflexivity
    | rewrite (written_app_l _ _ _ _ (leaves_corner_keys _ "setup.suspension.rear_right"))
        by reflexivity ].

(** Within the suspension block, a key under the prefix of a corner is
    written by the leaves of that corner alone. *)
Ltac isolate_corner :=
  unfold leaves_suspension; rewrite !List.app_assoc, written_app;
  cbn [written append String.eqb Ascii.eqb Bool.eqb];
  repeat peel_corner_right; rewrite <- ?List.app_assoc; repeat peel_corner_left.

Lemma written_in_front_left (s : Suspension D) (key : string) :
  prefix "setup.suspension.front_left." key = true ->
  written key (leaves_suspension (Some s))
  = written key
            (leaves_corner (front_left s) "setup.suspension.front_left").
Proof.
  intros Hkey. destruct (prefix_split _ _ Hkey) as [rest ->]. isolate_corner. reflexivity.
Qed.

Lemma written_in_front_right (s : Suspension D) (key : string) :
  prefix "setup.suspension.front_right." key = true ->
  written key (leaves_suspension (Some s))
  = written key
            (leaves_corner (front_right s) "setup.suspension.front_right").
Proof.
  intros Hkey. destruct (prefix_split _ _ Hkey) as [rest ->]. isolate_corner. reflexivity.
Qed.

Lemma written_in_rear_left (s : Suspension D) (key : string) :
  prefix "setup.suspension.rear_left." key = true ->
  written key (leaves_suspension (Some s))
  = written key
            (leaves_corner (rear_left s) "setup.suspension.rear_left").
Proof.
  intros Hkey. destruct (prefix_split _ _ Hkey) as [rest ->]. isolate_corner. reflexivity.
Qed.

Lemma written_in_rear_right (s : Suspension D) (key : string) :
  prefix "setup.suspension.rear_right." key = true ->
  written key (leaves_suspension (Some s))
  = written key
            (leaves_corner (rear_right s) "setup.suspension.rear_right").
Proof.
  intros Hkey. destruct (prefix_split _ _ Hkey) as [rest ->]. isolate_corner. reflexivity.
Qed.

Lemma flatten_orsf_get_value_corners (doc : ORSF D) (key : string) :
  In key corner_paths ->
  flat_find key (flatten_orsf doc) = get_value doc key.
Proof.
  intros Hin. rewrite flat_find_flatten_orsf.
  destruct doc as [? ? ? ? [a su t dt g b e f st] ?].
  each_path Hin; rewrite written_in_suspension by reflexivity;
    cbn [setup suspension];
    (destruct su as [[fl fr rl rr fa ra hs hp]|]; [|reflexivity]);
    first [ rewrite written_in_front_left by reflexivity
          | rewrite written_in_front_right by reflexivity
          | rewrite written_in_rear_left by reflexivity
          | rewrite written_in_rear_right by reflexivity ];
    cbn [front_left front_right rear_left rear_right];
    match goal with
    | |- context [leaves_corner ?c _] => destruct c as [[]|]
    end;
    vm_compute; split_matches.
Qed.

Lemma flatten_orsf_get_value_other_blocks (doc : ORSF D) (key : string) :
  In key (suspension_paths ++ drivetrain_paths ++ electronics_paths
          ++ fuel_paths)%list ->
  flat_find key (flatten_orsf doc) = get_value doc key.
Proof.
  intros Hin. rewrite flat_find_flatten_orsf.
  destruct doc as [? ? ? ? [a su t dt g b e f st] ?].
  each_path Hin;
    first [ rewrite written_in_suspension by reflexivity
          | rewrite written_in_drivetrain by reflexivity
          | rewrite written_in_electronics by reflexivity
          | rewrite written_in_fuel by reflexivity ];
    cbn [setup suspension drivetrain electronics fuel].
  1-3: destruct su as [[fl fr rl rr fa ra hs hp]|]; [|reflexivity];
    unfold leaves_suspension; rewrite !List.app_assoc, written_app;
    cbn [front_left front_right rear_left rear_right front_arb rear_arb
         heave_spring_n_mm heave_packer_mm];
    repeat peel_corner_right;
    rewrite ?(written_elsewhere _ _ _ (leaves_corner_keys _ "setup.suspension.front_left"))
      by reflexivity;
    vm_compute; split_matches.
  1-5: destruct dt as [[]|]; vm_compute; split_matches.
  1-4: destruct e as [[]|]; vm_compute; split_matches.
  all: destruct f as [[]|]; vm_compute; split_matches.
Qed.

(** On every path [get_value] has a comparison for, the flat view of the
    document holds what [get_value] reads: the same value, or none on
    both sides. *)
Theorem flatten_orsf_agrees_with_get_value (doc : ORSF D) (path : string) :
  In path readable_paths ->
  flat_find path (flatten_orsf doc) = get_value doc path.
Proof.
  unfold readable_paths. intros Hin.
  apply in_app_or in Hin as [Hin | Hin]; [now apply flatten_orsf_get_value|].
  apply in_app_or in Hin as [Hin | Hin].
  - now apply flatten_orsf_get_value_corners.
  - now apply flatten_orsf_get_value_other_blocks.
Qed.

(** A document that holds a value at each leaf of [unread_paths]. *)
Definition unread_example : ORSF D :=
  let corner := set_packer (dlit 1.0) in
  {| schema := "orsf://v1"; metadata := Metadata_default; car := Car_default;
     context := None;
     setup :=
       {| aero := None;
          suspension :=
            Some {| front_left := Some corner; front_right := Some corner;
                    rear_left := Some corner; rear_right := Some corner;
                    front_arb := None; rear_arb := None;
                    heave_spring_n_mm := None;
                    heave_packer_mm := Some (dlit 1.0) |};
          tires := None; drivetrain := None;
          gearing := Some {| gear_ratios := None;
                             reverse_ratio := Some (dlit 3.2) |};
          brakes := None;
          electronics :=
            Some {| tc_level := None; tc2_level := Some 2%Z; abs_level := None;
                    engine_map := None; engine_brake_level := Some 3%Z;
                    pit_limiter_kph := None |};
          fuel := Some {| start_fuel_l := None; per_lap_consumption_l := None;
                          stint_target_laps := None;
                          mixture_setting := Some 1%Z |};
          strategy := None |};
     compat := None |}.

(** [flatten_orsf] writes nine leaves [get_value] cannot read back: the
    packers of the four corners, the heave packer, the reverse ratio, the
    second traction-control level, the engine-brake level and the mixture
    setting. On those paths [get_value] returns no value whatever the
    document, also when the flat view of the document has the key. *)
Theorem get_value_misses_flattened_leaves (path : string) :
  In path unread_paths ->
  (forall doc : ORSF D, get_value doc path = None)
  /\ flat_find path (flatten_orsf unread_example) <> None.
Proof.
  intros Hin. split.
  - intros doc. destruct doc as [? ? ? ? [a su t dt g b e f st] ?].
    each_path Hin;
      destruct su as [[fl fr rl rr fa ra hs hp]|], e as [[]|], f as [[]|];
      vm_compute; split_matches.
  - each_path Hin; vm_compute; discriminate.
Qed.
End ReadsAndViews.

(* ------------------------------------------------------------------ *)
(** ** The mapping engine: when it returns, what the map holds, and the
    way back *)

Section MappingResults.
Context {D : Type} `{Double D}.

(** A mapping goes through on a document, judged as the loop judges it,
    by what [get_value] answers at its path: no value and the mapping is
    optional, or a value on which the forward transform returns. (A leaf
    [get_value] has no comparison for, [setup.gearing.gear_0] say, has no
    value here even when the document holds it.) *)
Definition passes (doc : ORSF D) (m : FieldMapping D) : Prop :=
  match get_value doc (orsf_path m) with
  | Some v => exists v', apply_transform (to_native m) v = Ok v'
  | None => required m = false
  end.

(** What a mapping contributes to the native map: the transformed value
    of what [get_value] read, if it read one. *)
Definition forward (doc : ORSF D) (m : FieldMapping D) : option D :=
  match get_value doc (orsf_path m) with
  | Some v =>
      match apply_transform (to_native m) v with
      | Ok v' => Some v'
      | Throw _ => None
      end
  | None => None
  end.

Lemma map_to_native_from_returns (doc : ORSF D) (ms : list (FieldMapping D))
      (native0 : FlatSetup D) :
  (exists native, map_to_native_from doc ms native0 = Ok native)
  <-> Forall (passes doc) ms.
Proof.
  revert native0. induction ms as [|m ms IH]; intros native0.
  - split; [constructor | intros _; now exists native0].
  - cbn [map_to_native_from]. unfold passes at 1. split.
    + intros [native Hrun]. constructor.
      * unfold passes. destruct (get_value doc (orsf_path m)) as [v|].
        -- destruct (apply_transform (to_native m) v) as [v'|e]; [now exists v'|].
           discriminate.
        -- destruct (required m); [discriminate | reflexivity].
      * destruct (get_value doc (orsf_path m)) as [v|].
        -- destruct (apply_transform (to_native m) v) as [v'|e]; [|discriminate].
           apply (IH (flat_assign (native_key m) v' native0)). now exists native.
        -- destruct (required m); [discriminate|].
           apply (IH native0). now exists native.
    + intros Hall. inversion Hall as [|? ? Hm Hms]; subst. unfold passes in Hm.
      destruct (get_value doc (orsf_path m)) as [v|].
      * destruct Hm as [v' ->]. cbn [except_bind]. now apply IH.
      * rewrite Hm. now apply IH.
Qed.

(** With native keys that differ from mapping to mapping, the map
    returned holds, under the key of each mapping, what the mapping
    contributes, and elsewhere what the map held before. *)
Lemma map_to_native_from_lookup (doc : ORSF D) (ms : list (FieldMapping D))
      (native0 native : FlatSetup D) :
  NoDup (map native_key ms) ->
  map_to_native_from doc ms native0 = Ok native ->
  (forall m, In m ms ->
     flat_find (native_key m) native
     = match forward doc m with
       | Some v' => Some v'
       | None => flat_find (native_key m) native0
       end)
  /\ (forall k, ~ In k (map native_key ms) ->
        flat_find k native = flat_find k native0).
Proof.
  revert native0. induction ms as [|m ms IH]; intros native0 Hnodup Hrun.
  - cbn in Hrun. injection Hrun as <-. split; [intros m []|reflexivity].
  - cbn [map] in Hnodup. inversion Hnodup as [|? ? Hfresh Hnodup']; subst.
    cbn [map_to_native_from] in Hrun.
    assert (forall natives, map_to_native_from doc ms natives = Ok native ->
              flat_find (native_key m) native = flat_find (native_key m) natives)
      as Hkept.
    { intros natives Hr. now apply (IH natives Hnodup' Hr). }
    destruct (get_value doc (orsf_path m)) as [v|] eqn:Hv.
    + destruct (apply_transform (to_native m) v) as [v'|e] eqn:Hf; [|discriminate].
      cbn [except_bind] in Hrun.
      destruct (IH _ Hnodup' Hrun) as [Hin Hout]. split.
      * intros m' [<- | Hm'].
        -- unfold forward. rewrite Hv, Hf, (Hkept _ Hrun).
           apply flat_find_assign_same.
        -- rewrite (Hin m' Hm'). destruct (forward doc m'); [reflexivity|].
           apply flat_find_assign_other. apply String.eqb_neq. intros Heq.
           apply Hfresh. rewrite <- Heq. now apply in_map.
      * intros k Hk. rewrite Hout by (intros Hk'; apply Hk; now right).
        apply flat_find_assign_other. apply String.eqb_neq. intros ->.
        apply Hk. now left.
    + destruct (required m); [discriminate|].
      destruct (IH _ Hnodup' Hrun) as [Hin Hout]. split.
      * intros m' [<- | Hm'].
        -- unfold forward. rewrite Hv. now apply Hkept.
        -- now apply Hin.
      * intros k Hk. apply Hout. intros Hk'. apply Hk. now right.
Qed.

Lemma map_to_native_from_other_keys (doc : ORSF D) (ms : list (FieldMapping D))
      (native0 native : FlatSetup D) (k : string) :
  ~ In k (map native_key ms) ->
  map_to_native_from doc ms native0 = Ok native ->
  flat_find k native = flat_find k native0.
Proof.
  revert native0. induction ms as [|m ms IH]; intros native0 Hk Hrun.
  - cbn in Hrun. now injection Hrun as <-.
  - cbn [map_to_native_from] in Hrun.
    assert (~ In k (map native_key ms)) as Hk'
        by (intros Hin; apply Hk; now right).
    destruct (get_value doc (orsf_path m)) as [v|].
    + destruct (apply_transform (to_native m) v) as [v'|e]; [|discriminate].
      rewrite (IH _ Hk' Hrun). apply flat_find_assign_other.
      apply String.eqb_neq. intros ->. apply Hk. now left.
    + destruct (required m); [discriminate|]. now apply IH.
Qed.

(** [map_to_native] returns a map exactly when every mapping goes
    through, by what [get_value] answers. The map then has no key but
    native keys of the mappings, and when these differ from mapping to
    mapping it holds under each what that mapping contributes: the
    transformed value of what [get_value] read, or nothing for an
    optional mapping where [get_value] read no value. What the document
    holds does not decide: a required mapping of the first gear ratio
    does not go through on a document that holds the ratio, and an
    optional one contributes nothing. *)
Theorem map_to_native_returns_iff (doc : ORSF D) (ms : list (FieldMapping D)) :
  ((exists native, map_to_native doc ms = Ok native) <-> Forall (passes doc) ms)
  /\ (forall native,
        map_to_native doc ms = Ok native ->
        (forall k, ~ In k (map native_key ms) -> flat_find k native = None)
        /\ (NoDup (map native_key ms) ->
            forall m, In m ms -> flat_find (native_key m) native = forward doc m))
  /\ (forall r0 r1 : D,
        flat_find "setup.gearing.gear_0" (flatten_orsf (gearing_only [r0; r1]))
        = Some r0
        /\ ~ passes (gearing_only [r0; r1]) (gear_0_mapping true)
        /\ forward (gearing_only [r0; r1]) (gear_0_mapping false) = None).
Proof.
  unfold map_to_native. split; [apply map_to_native_from_returns|]. split.
  - intros native Hrun. split.
    + intros k Hk. now rewrite (map_to_native_from_other_keys _ _ _ _ _ Hk Hrun).
    + intros Hnodup m Hm.
      destruct (map_to_native_from_lookup _ _ _ _ Hnodup Hrun) as [Hin _].
      rewrite (Hin m Hm). now destruct (forward doc m).
  - intros r0 r1. split; [reflexivity|]. split; [|reflexivity].
    intros Hpasses. discriminate Hpasses.
Qed.
End MappingResults.

Section MappingRoundTrip.
Local Open Scope Q_scope.

(** Two readings of a leaf are the same: no value on both sides, or
    values equal as rationals. *)
Definition same_reading (a b : option Q) : Prop :=
  match a, b with
  | Some x, Some y => x == y
  | None, None => True
  | _, _ => False
  end.

(** Two documents read the same on every leaf [set_value] writes. *)
Definition agree_on_handled (d1 d2 : ORSF Q) : Prop :=
  forall p, In p handled_paths -> same_reading (get_value d1 p) (get_value d2 p).

(** The backward transform of a mapping undoes the forward one. *)
Definition undoes (m : FieldMapping Q) : Prop :=
  forall v v', apply_transform (to_native m) v = Ok v' ->
               exists v'', apply_transform (to_orsf m) v' = Ok v'' /\ v'' == v.

Lemma same_reading_refl (a : option Q) : same_reading a a.
Proof. destruct a; cbn; [reflexivity | exact I]. Qed.

(** The loop of [map_to_orsf] over mappings whose native entries are
    what the document contributed keeps a result that reads like the
    document. *)
Lemma map_to_orsf_from_back (doc : ORSF Q) (native : FlatSetup Q)
      (ms : list (FieldMapping Q)) (result : ORSF Q) :
  (forall m, In m ms ->
     In (orsf_path m) handled_paths /\ undoes m /\ passes doc m
     /\ flat_find (native_key m) native = forward doc m) ->
  agree_on_handled result doc ->
  exists result',
    map_to_orsf_from native ms result = Ok result' /\ agree_on_handled result' doc.
Proof.
  revert result. induction ms as [|m ms IH]; intros result Hms Hagree.
  - exists result. now split.
  - destruct (Hms m (or_introl eq_refl)) as (Hpath & Hundo & Hpass & Hfind).
    assert (forall m', In m' ms ->
              In (orsf_path m') handled_paths /\ undoes m' /\ passes doc m'
              /\ flat_find (native_key m') native = forward doc m') as Hms'
        by (intros m' Hm'; apply Hms; now right).
    cbn [map_to_orsf_from]. rewrite Hfind. unfold forward, passes in *.
    destruct (get_value doc (orsf_path m)) as [v|] eqn:Hv.
    + destruct Hpass as [v' Hf]. rewrite Hf.
      destruct (Hundo v v' Hf) as (v'' & Hb & Heq). rewrite Hb. cbn [except_bind].
      apply IH; [assumption|].
      intros q Hq. destruct (String.eqb_spec q (orsf_path m)) as [-> | Hne].
      * rewrite get_value_set_value_handled, Hv by assumption. exact Heq.
      * rewrite get_value_set_value_other by assumption. now apply Hagree.
    + rewrite Hpass. now apply IH.
Qed.

(** What the mappings need for the way back, from what the way out
    returned. *)
Lemma map_to_native_entries (doc : ORSF Q) (ms : list (FieldMapping Q))
      (native : FlatSetup Q) :
  NoDup (map native_key ms) ->
  map_to_native doc ms = Ok native ->
  forall m, In m ms ->
    passes doc m /\ flat_find (native_key m) native = forward doc m.
Proof.
  intros Hnodup Hrun m Hm. split.
  - assert (Forall (passes doc) ms) as Hall
        by (apply (map_to_native_from_returns doc ms flat_empty); now exists native).
    rewrite Forall_forall in Hall. now apply Hall.
  - destruct (map_to_native_from_lookup _ _ _ _ Hnodup Hrun) as [Hin _].
    rewrite (Hin m Hm). now destruct (forward doc m).
Qed.

(** The round trip of the mapping engine, in exact arithmetic: when the
    mappings address leaves [set_value] writes, have native keys that
    differ from one another and backward transforms that undo the
    forward ones, mapping a document to the native map and the map back
    onto the document returns a document that reads like the first on
    every such leaf. *)
Theorem map_to_orsf_undoes_map_to_native
        (doc : ORSF Q) (ms : list (FieldMapping Q)) (native : FlatSetup Q) :
  (forall m, In m ms -> In (orsf_path m) handled_paths /\ undoes m) ->
  NoDup (map native_key ms) ->
  map_to_native doc ms = Ok native ->
  exists result,
    map_to_orsf native ms doc = Ok result /\ agree_on_handled result doc.
Proof.
  intros Hms Hnodup Hrun. unfold map_to_orsf. apply map_to_orsf_from_back.
  - intros m Hm. destruct (Hms m Hm) as [Hpath Hundo].
    destruct (map_to_native_entries doc ms native Hnodup Hrun m Hm) as [Hpass Hfind].
    now repeat split.
  - intros p _. apply same_reading_refl.
Qed.

(** The example adapter converts every document to its flat form without
    an exception (none of its mappings is required, and its transforms
    are total), and converting the flat form back onto the document
    gives a document that reads like it, the tire pressure having gone
    to psi and back. *)
Theorem example_adapter_round_trip (doc : ORSF Q) :
  exists flat result,
    orsf_to_flat ExampleAdapter_get_field_mappings doc = Ok flat
    /\ flat_to_orsf ExampleAdapter_get_field_mappings flat doc = Ok result
    /\ agree_on_handled result doc.
Proof.
  unfold orsf_to_flat, flat_to_orsf.
  assert (exists flat, map_to_native doc ExampleAdapter_get_field_mappings = Ok flat)
    as [flat Hflat].
  { apply (map_to_native_from_returns doc _ flat_empty).
    repeat constructor; unfold passes; cbn [orsf_path to_native required];
      (destruct (get_value doc _); [eexists; reflexivity | reflexivity]). }
  exists flat.
  assert (NoDup (map native_key (ExampleAdapter_get_field_mappings (D := Q))))
    as Hnodup by (cbn; repeat constructor; cbn; intuition discriminate).
  destruct (map_to_orsf_from_back doc flat ExampleAdapter_get_field_mappings doc)
    as (result & Hback & Hagree); [| |now exists result].
  - intros m Hm.
    destruct (map_to_native_entries doc _ flat Hnodup Hflat m Hm) as [Hpass Hfind].
    split; [|split; [|now split]];
      cbn [ExampleAdapter_get_field_mappings In] in Hm;
      destruct Hm as [<- | [<- | [<- | [<- | []]]]];
      try (vm_compute; tauto);
      unfold undoes; cbn [to_native to_orsf apply_transform];
      intros v v' [= <-]; eexists; (split; [reflexivity|]); try reflexivity.
    cbn. field.
  - intros p _. apply same_reading_refl.
Qed.
End MappingRoundTrip.

(* ------------------------------------------------------------------ *)
(** ** The validator: what its findings look like *)

Section FindingShapes.
Local Open Scope validator_scope.

(** The check does not throw, and every finding it appends has the
    property. *)
Definition only (P : ValidationError -> Prop) (m : V unit) : Prop :=
  forall errors, exists new, m errors = Ok (tt, (errors ++ new)%list) /\ Forall P new.

Variable P : ValidationError -> Prop.

Lemma only_ret : only P (V_ret tt).
Proof. intros errors. exists []. split; [|constructor]. now rewrite List.app_nil_r. Qed.

Lemma only_push_back e : P e -> only P (push_back e).
Proof. intros He errors. exists [e]. split; [reflexivity | now constructor]. Qed.

Lemma only_seq m k : only P m -> only P k -> only P (m ;; k).
Proof.
  intros Hm Hk errors. destruct (Hm errors) as (l1 & Hl1 & HP1).
  destruct (Hk (errors ++ l1)%list) as (l2 & Hl2 & HP2).
  exists (l1 ++ l2)%list. unfold V_bind. rewrite Hl1, Hl2, List.app_assoc.
  split; [reflexivity|]. apply Forall_app. now split.
Qed.

Lemma only_when (c : bool) m : only P m -> only P (when c m).
Proof. intros Hm. destruct c; [exact Hm | apply only_ret]. Qed.

Lemma only_value {A} (a : A) (k : A -> V unit) :
  only P (k a) -> only P (v <- value (Some a) ;; k v).
Proof. intros Hk errors. exact (Hk errors). Qed.

Lemma only_guarded {A} (o : option A) (k : A -> V unit) :
  (forall a, only P (k a)) -> only P (when (has_value o) (v <- value o ;; k v)).
Proof.
  intros Hk. destruct o as [a|]; cbn; [now apply only_value | apply only_ret].
Qed.

Lemma only_unless_absent {A} (o : option A) (k : A -> V unit) :
  (forall a, only P (k a)) ->
  only P (if negb (has_value o) then V_ret tt else v <- value o ;; k v).
Proof.
  intros Hk. destruct o as [a|]; cbn; [now apply only_value | apply only_ret].
Qed.

Lemma only_findings m : only P m -> Forall P (findings m).
Proof.
  intros Hm. unfold findings. destruct (Hm []) as (new & -> & HP). exact HP.
Qed.
End FindingShapes.

(** The severity goes with the code: a missing required field and a
    wrong schema are Errors, a format or compatibility finding is a
    Warning, and nothing is reported as Info or as Deprecated. *)
Definition well_tagged (e : ValidationError) : Prop :=
  match code e with
  | Required | SchemaInvalid => severity e = Error
  | InvalidFormat | Incompatible => severity e = Warning
  | OutOfRange => severity e = Error \/ severity e = Warning
  | Deprecated => False
  end.

Create HintDb tagging.

#[local] Hint Resolve only_ret only_push_back only_seq only_when only_value
  only_guarded only_unless_absent : tagging.
#[local] Hint Extern 1 (well_tagged _) => (cbv; tauto) : tagging.

Section WellTagged.
Context {D : Type} `{Double D}.
Local Open Scope validator_scope.

Lemma only_check_range field (v lo hi : D) sev :
  sev = Error \/ sev = Warning ->
  only well_tagged (check_range field v lo hi sev).
Proof.
  intros Hsev. unfold check_range. apply only_when, only_push_back.
  exact Hsev.
Qed.

Lemma only_check_present (member : option D) (check : D -> V unit) :
  (forall v, only well_tagged (check v)) ->
  only well_tagged (check_present member check).
Proof. intros Hc. unfold check_present. auto with tagging. Qed.

Ltac tagged :=
  unfold check_required, check_percentage, check_pressure, check_positive,
    check_non_negative, check_iso8601, check_positive_int;
  repeat first
    [ apply only_check_range; tauto
    | apply only_check_present; intros ?
    | apply only_seq
    | apply only_guarded; intros ?
    | apply only_unless_absent; intros ?
    | apply only_when
    | apply only_value
    | apply only_ret
    | apply only_push_back; cbv; tauto ].

Lemma only_validate_gear_ratios (ratios : list D) (i : nat) :
  only well_tagged (validate_gear_ratios i ratios).
Proof.
  revert i. induction ratios as [|r rest IH]; intros i; cbn [validate_gear_ratios];
    [apply only_ret|].
  apply only_seq; [|apply IH]. tagged.
Qed.

Lemma only_validate_setup (s : Setup D) : only well_tagged (validate_setup s).
Proof.
  unfold validate_setup, validate_aero, validate_suspension,
    validate_corner_suspension, validate_tires, validate_drivetrain,
    validate_gearing, validate_brakes, validate_electronics, validate_fuel.
  tagged; apply only_validate_gear_ratios.
Qed.

(** Every finding [validate] returns is tagged as above, whatever the
    document. *)
Theorem validate_findings_well_tagged (doc : ORSF D) :
  exists errors, validate doc = Ok errors /\ Forall well_tagged errors.
Proof.
  assert (only well_tagged (validate_body doc)) as Hbody.
  { unfold validate_body.
    apply only_seq; [unfold validate_schema; tagged|].
    apply only_seq.
    { unfold validate_metadata. destruct (updated_at (metadata doc)); cbn; tagged. }
    apply only_seq.
    { unfold validate_car. destruct (car_class (car doc)); cbn; tagged. }
    apply only_seq.
    { unfold validate_context. destruct (context doc) as [ctx|]; cbn; [|tagged].
      apply only_value. destruct (rubber ctx); cbn; tagged. }
    apply only_seq; [apply only_validate_setup|].
    unfold validate_cross_field. apply only_guarded. intros ctx.
    destruct (ambient_temp_c ctx), (track_temp_c ctx); cbn; tagged. }
  unfold validate. destruct (Hbody []) as (new & -> & Hnew).
  now exists new.
Qed.
End WellTagged.

Section MinimalDocument.
Context {D : Type} `{Double D}.
Local Open Scope validator_scope.

(** A document with the right schema, a non-empty id, name, make and
    model, a well-formed creation time and nothing optional to check (no
    update time, car class or context, an empty setup) has no finding at
    all. *)
Theorem validate_minimal_document (doc : ORSF D) :
  schema doc = "orsf://v1" ->
  id (metadata doc) <> "" -> name (metadata doc) <> "" ->
  is_valid_iso8601 (created_at (metadata doc)) = true ->
  updated_at (metadata doc) = None ->
  make (car doc) <> "" -> model (car doc) <> "" ->
  car_class (car doc) = None ->
  context doc = None ->
  aero (setup doc) = None -> suspension (setup doc) = None ->
  tires (setup doc) = None -> drivetrain (setup doc) = None ->
  gearing (setup doc) = None -> brakes (setup doc) = None ->
  electronics (setup doc) = None -> fuel (setup doc) = None ->
  validate doc = Ok [].
Proof.
  intros Hschema Hid Hname Hcreated Hupdated Hmake Hmodel Hclass Hctx
         Ha Hsu Ht Hdt Hg Hb He Hf.
  unfold validate, validate_body, validate_schema, validate_metadata, validate_car,
    validate_context, validate_setup, validate_cross_field, check_required,
    check_iso8601.
  rewrite Hschema, Hupdated, Hclass, Hctx, Ha, Hsu, Ht, Hdt, Hg, Hb, He, Hf, Hcreated.
  apply String.eqb_neq in Hid, Hname, Hmake, Hmodel.
  rewrite Hid, Hname, Hmake, Hmodel.
  assert ((created_at (metadata doc) =? "") = false) as ->.
  { apply String.eqb_neq. intros Hempty. rewrite Hempty in Hcreated. discriminate. }
  reflexivity.
Qed.
End MinimalDocument.

Section CrossField.
Local Open Scope validator_scope.
Local Open Scope Q_scope.

(** The cross-field check compares the two temperatures only when both
    are there, and reports at most one finding: a Warning on the track
    temperature when it is more than 5 degrees below the ambient
    temperature or more than 40 above it. *)
Theorem validate_cross_field_at_most_one (doc : ORSF Q) :
  (findings (validate_cross_field doc) = []
   \/ exists e, findings (validate_cross_field doc) = [e]
                /\ severity e = Warning /\ code e = Incompatible
                /\ field e = "context.track_temp_c")
  /\ (findings (validate_cross_field doc) <> []
      <-> exists ctx ambient track,
            context doc = Some ctx /\ ambient_temp_c ctx = Some ambient
            /\ track_temp_c ctx = Some track
            /\ (track < ambient - 5 \/ ambient + 40 < track)).
Proof.
  unfold validate_cross_field, findings.
  destruct (context doc) as [ctx|]; cbn;
    [|split; [now left | split; [congruence | intros (? & ? & ? & [=] & _)]]].
  destruct (ambient_temp_c ctx) as [ambient|] eqn:Hambient; cbn;
    [|split; [now left
             | split; [congruence
                      | intros (? & ? & ? & [= <-] & Ha & _); congruence]]].
  destruct (track_temp_c ctx) as [track|] eqn:Htrack; cbn;
    [|split; [now left
             | split; [congruence
                      | intros (? & ? & ? & [= <-] & _ & Ht & _); congruence]]].
  assert (5.0 == 5) as H5 by reflexivity. assert (40.0 == 40) as H40 by reflexivity.
  unfold V_bind, when.
  destruct (negb (Qle_bool (ambient - 5.0) track)) eqn:Hcold;
    destruct (negb (Qle_bool track (ambient + 40.0))) eqn:Hhot; cbn.
  - exfalso. apply (dltb_Q track (ambient - 5.0)) in Hcold.
    apply (dltb_Q (ambient + 40.0) track) in Hhot. lra.
  - split; [right; eexists; now repeat split|]. split; [|discriminate].
    intros _. exists ctx, ambient, track.
    split; [reflexivity|]. split; [assumption|]. split; [assumption|]. left.
    apply (dltb_Q track (ambient - 5.0)) in Hcold. lra.
  - split; [right; eexists; now repeat split|]. split; [|discriminate].
    intros _. exists ctx, ambient, track.
    split; [reflexivity|]. split; [assumption|]. split; [assumption|]. right.
    apply (dltb_Q (ambient + 40.0) track) in Hhot. lra.
  - split; [now left|]. split; [congruence|].
    intros (ctx' & a' & t' & [= <-] & Ha & Ht & Hout). exfalso.
    rewrite Hambient in Ha. rewrite Htrack in Ht.
    injection Ha as <-. injection Ht as <-.
    apply (dltb_Q_false track (ambient - 5.0)) in Hcold.
    apply (dltb_Q_false (ambient + 40.0) track) in Hhot.
    destruct Hout; lra.
Qed.
End CrossField.

(* ------------------------------------------------------------------ *)
(** ** The statements with a precondition, on the data of the test suite *)

Section Instances.
Local Open Scope Q_scope.

(** The sort of the library at hand, for the runs. *)
#[local] Existing Instance stable_sort.

(** The member is in the list: found by comparing from the front. *)
Ltac listed := cbn; repeat first [left; reflexivity | right].

(** The entries rise by more than the threshold. *)
Ltac rising :=
  repeat first [apply SSorted_cons | apply SSorted_nil
               | apply Forall_cons | apply Forall_nil];
  vm_compute; discriminate.

(** [UnitConverter::clamp(150, 0, 100)] is 100. *)
Lemma clamp_without_step_witness : clamp 150 0 100 0 == 100.
Proof.
  destruct (clamp_without_step 150 0 100 0) as [Hrange _]; [discriminate|].
  apply Hrange; [discriminate | reflexivity].
Defined.

(** [clamp(33, 0, 100, 5)] is a whole number of steps of 5. *)
Lemma clamp_with_step_witness : exists k : Z, clamp 33 0 100 5 == inject_Z k * 5.
Proof.
  destruct (clamp_with_step 33 0 100 5) as [Hsteps _]; [reflexivity|].
  exact Hsteps.
Defined.

(** On the table of [test_lookup_table], 75 is interpolated between two
    outputs of the table. *)
Lemma interpolate_within_outputs_witness :
  exists y lo hi,
    interpolate (make_LookupTableConverter test_table) 75 = Ok y
    /\ In lo test_table /\ In hi test_table /\ output lo <= y <= output hi.
Proof. apply (interpolate_within_outputs stable_sort test_table 75). discriminate. Defined.

(** The middle point of the table is returned as it is. *)
Lemma interpolate_at_table_point_witness :
  returns (interpolate (make_LookupTableConverter test_table) 50) 25.
Proof.
  apply (interpolate_at_table_point stable_sort test_table (entry 50 25)).
  - unfold spaced, test_table. rising.
  - listed.
Defined.

(** 75 is interpolated on the table and looked up back. *)
Lemma reverse_lookup_undoes_interpolate_witness :
  exists y,
    interpolate (make_LookupTableConverter test_table) 75 = Ok y
    /\ returns (reverse_lookup (make_LookupTableConverter test_table) y) 75.
Proof.
  apply (reverse_lookup_undoes_interpolate stable_sort (entry 0 0)
           [entry 50 25; entry 100 75] 75).
  - unfold spaced. rising.
  - unfold spaced. rising.
  - split; discriminate.
Defined.

(** The parts of a path are read back from the path. *)
Lemma split_join_witness :
  split (join ["setup"; "aero"; "front_wing"] ".") "." = ["setup"; "aero"; "front_wing"].
Proof.
  apply (split_join ["setup"; "aero"; "front_wing"] ".").
  - intros p [<- | [<- | [<- | []]]]; reflexivity.
  - discriminate.
Defined.

(** Writing the front wing of the test setup leaves its rear wing. *)
Lemma set_value_store_laws_witness :
  get_value (set_value create_test_setup "setup.aero.front_wing" 3)
            "setup.aero.rear_wing" = Some 4.
Proof.
  destruct (set_value_store_laws create_test_setup "setup.aero.front_wing"
              "setup.aero.rear_wing" 3 3) as [Hread _]; [listed | listed |].
  exact Hread.
Defined.

(** A key of the flattened test setup. *)
Lemma flatten_orsf_keys_in_sections_witness :
  exists section rest,
    In section sections
    /\ "setup.tires.pressure_fl_kpa" = "setup." ++ section ++ "." ++ rest.
Proof.
  apply (flatten_orsf_keys_in_sections create_test_setup "setup.tires.pressure_fl_kpa").
  vm_compute. listed.
Defined.

(** The flat view of the test setup after a write of its front wing. *)
Lemma flatten_orsf_after_set_value_witness :
  flat_find "setup.aero.front_wing"
            (flatten_orsf (set_value create_test_setup "setup.aero.front_wing" 7))
  = Some 7.
Proof.
  apply (flatten_orsf_after_set_value create_test_setup "setup.aero.front_wing"
           "setup.aero.front_wing" 7).
  listed.
Defined.

(** A suspension leaf of the test setup, read both ways. *)
Lemma flatten_orsf_agrees_with_get_value_witness :
  flat_find "setup.suspension.front_left.camber_deg" (flatten_orsf create_test_setup)
  = get_value create_test_setup "setup.suspension.front_left.camber_deg".
Proof.
  apply (flatten_orsf_agrees_with_get_value create_test_setup
           "setup.suspension.front_left.camber_deg").
  listed.
Defined.

(** The mixture setting is not read. *)
Lemma get_value_misses_flattened_leaves_witness :
  get_value create_test_setup "setup.fuel.mixture_setting" = None.
Proof.
  destruct (get_value_misses_flattened_leaves (D := Q) "setup.fuel.mixture_setting")
    as [Hnone _]; [listed|].
  apply Hnone.
Defined.

(** The two mappings of [test_mapping.cpp], out and back. *)
Lemma map_to_orsf_undoes_map_to_native_witness :
  exists native result,
    map_to_native create_test_setup [tire_fl_psi; brake_balance] = Ok native
    /\ map_to_orsf native [tire_fl_psi; brake_balance] create_test_setup = Ok result
    /\ agree_on_handled result create_test_setup.
Proof.
  assert (exists native,
             map_to_native create_test_setup [tire_fl_psi; brake_balance] = Ok native)
    as [native Hnative] by (eexists; reflexivity).
  exists native.
  destruct (map_to_orsf_undoes_map_to_native create_test_setup
              [tire_fl_psi; brake_balance] native) as (result & Hback & Hagree).
  - intros m [<- | [<- | []]]; (split; [listed|]); intros v v' [= <-];
      eexists; (split; [reflexivity|]); cbn; field.
  - repeat constructor; cbn; intuition discriminate.
  - exact Hnative.
  - now exists result.
Defined.

(** A document with nothing but its required strings. *)
Definition minimal_document : ORSF Q :=
  {| schema := "orsf://v1";
     metadata := {| id := "minimal"; name := "Minimal"; notes := None;
                    created_at := "2024-01-01T00:00:00Z"; updated_at := None;
                    created_by := None; tags := None; source := None;
                    origin_sim := None |};
     car := {| make := "Porsche"; model := "911 GT3 R"; variant := None;
               car_class := None; bop_id := None |};
     context := None; setup := Setup_default; compat := None |}.

(** It validates without a finding. *)
Lemma validate_minimal_document_witness : validate minimal_document = Ok [].
Proof.
  apply (validate_minimal_document minimal_document);
    first [reflexivity | discriminate].
Defined.
End Instances.
